(** * The_Big_inventory_Maker: catalog enrichment pipeline

    A shallow embedding of the coordination core of the pipeline
    ([descriptionwriter.py], [image_fetcher.py], [imageuploader.py],
    [pipeline_runner.py]) and the properties its specification states about
    it, followed by properties of the code beyond them.  Part I is the
    model, function by function and under the names of the source; Part II
    defines the notions the statements use; Part III holds the lemmas and
    theorems.

    Conventions of the model.
    - A Python [str] is a Rocq [string]; its characters are the code points
      0..255, classified as Python 3 classifies them ([str.isspace],
      [str.isalnum], [str.lower]).
    - A Python [dict] is an association list in insertion order with unique
      keys ([dict_get], [dict_set]); a Python [set] of strings is a
      [gset string]; the index from names to positions is a [gmap].
    - JSON documents are values of [JSON]; a product is a JSON object whose
      [name], [description] and [image], when present, are strings (the data
      model of the catalog), and so are the fields of a service result.
      Numbers are carried as opaque tokens, the code never inspects them.
    - The files the stages coordinate through live in a [World] record that
      every operation threads explicitly; a JSON file is held as the value
      it parses to.  Disk failures are not modelled.
    - The text generation service is a function from the batch to the result
      entries, an argument of [main].
    - The imaging library (Pillow) is an interface, [Imaging]: the mode and
      the size of an image, the size of its JPEG encoding at a quality, and
      Lanczos resizing.  The loops of the compressors run on fuel.
    - [int(w * 0.8)] on a non-negative integer [w] is [w * 4 / 5], and
      [w * 0.8 < 100] is [w * 4 < 500]: for every [w] below [2^49] the double
      precision product rounds to exactly these values.
    - What lies outside the repository answers through functions that the
      models take as arguments: the responses of the two web services by the
      number of the request, the downloads, the saves, the uploads and the
      listing of the upload folder.  An exception that a function lets
      through is a result of its own ([ApiIndexError], [SearchIndexError],
      [FetchRaise], ...).  Waits and printed messages are not modelled. *)

From Stdlib Require Import ZArith Ascii String List Lia Bool DecimalString DecimalPos DecimalZ.
From stdpp Require Import base gmap sets list strings.

(* ===================================================================== *)
(** * Part I: the model                                                   *)
(* ===================================================================== *)

(** ** Python string built-ins *)

Module PyStr.

Definition code (c : ascii) : N := N_of_ascii c.

Definition between (lo hi : N) (n : N) : bool := ((lo <=? n) && (n <=? hi))%N.

(** [c.isspace()] for a code point below 256. *)
Definition isspace (c : ascii) : bool :=
  let n := code c in
  between 9 13 n || between 28 32 n || (n =? 133)%N || (n =? 160)%N.

(** [c.isalnum()] for a code point below 256. *)
Definition isalnum (c : ascii) : bool :=
  let n := code c in
  between 48 57 n || between 65 90 n || between 97 122 n
  || (n =? 170)%N || between 178 179 n || (n =? 181)%N || between 185 186 n
  || between 188 190 n || between 192 214 n || between 216 246 n
  || between 248 255 n.

(** [c.lower()] for a code point below 256. *)
Definition lower_char (c : ascii) : ascii :=
  let n := code c in
  if between 65 90 n || between 192 214 n || between 216 222 n
  then ascii_of_N (n + 32) else c.

Fixpoint map_chars (f : ascii -> ascii) (s : string) : string :=
  match s with
  | EmptyString => EmptyString
  | String c s' => String (f c) (map_chars f s')
  end.

Fixpoint filter_chars (keep : ascii -> bool) (s : string) : string :=
  match s with
  | EmptyString => EmptyString
  | String c s' =>
      if keep c then String c (filter_chars keep s') else filter_chars keep s'
  end.

(** [s.lower()] *)
Definition lower (s : string) : string := map_chars lower_char s.

(** [s.replace(old, new)] for single characters. *)
Definition replace_char (old new : ascii) (s : string) : string :=
  map_chars (fun c => if Ascii.eqb c old then new else c) s.

(** [s.lstrip()] *)
Fixpoint lstrip (s : string) : string :=
  match s with
  | EmptyString => EmptyString
  | String c s' => if isspace c then lstrip s' else s
  end.

(** [s.rstrip()] *)
Fixpoint rstrip (s : string) : string :=
  match s with
  | EmptyString => EmptyString
  | String c s' =>
      match rstrip s' with
      | EmptyString => if isspace c then EmptyString else String c EmptyString
      | r => String c r
      end
  end.

(** [s.strip()] *)
Definition strip (s : string) : string := rstrip (lstrip s).

(** [s.startswith(p)] *)
Fixpoint startswith (s p : string) {struct p} : bool :=
  match p, s with
  | EmptyString, _ => true
  | String _ _, EmptyString => false
  | String a p', String b s' => Ascii.eqb a b && startswith s' p'
  end.

(** [c in s] for a character. *)
Fixpoint contains_char (c : ascii) (s : string) : bool :=
  match s with
  | EmptyString => false
  | String a s' => Ascii.eqb a c || contains_char c s'
  end.

(** Truthiness of a string: [if s:]. *)
Definition nonempty (s : string) : bool :=
  match s with EmptyString => false | _ => true end.

(** [s.rfind(c)] for a character: the last index of [c], or [-1]. *)
Fixpoint rfind_from (c : ascii) (s : string) (i last : Z) : Z :=
  match s with
  | EmptyString => last
  | String a s' => rfind_from c s' (i + 1) (if Ascii.eqb a c then i else last)
  end.
Definition rfind (c : ascii) (s : string) : Z := rfind_from c s 0 (-1).

(** [s[i:j]] for [0 <= i <= j]. *)
Definition slice (s : string) (i j : Z) : string :=
  String.substring (Z.to_nat i) (Z.to_nat (j - i)) s.

Definition len (s : string) : Z := Z.of_nat (String.length s).

(** [s.split(",", 1)] when [s] holds a comma: the text before the first
    comma and the text after it. *)
Fixpoint split_first (sep : ascii) (s : string) : option (string * string) :=
  match s with
  | EmptyString => None
  | String c s' =>
      if Ascii.eqb c sep then Some (EmptyString, s')
      else match split_first sep s' with
           | Some (l, r) => Some (String c l, r)
           | None => None
           end
  end.

(** [os.path.splitext(p)] on POSIX: the extension starts at the last dot of
    the last path component, unless only dots precede it there. *)
Definition splitext (p : string) : string * string :=
  let sepIndex := rfind "/" p in
  let dotIndex := rfind "." p in
  if (sepIndex <? dotIndex)%Z
     && nonempty (filter_chars (fun c => negb (Ascii.eqb c "."))
                               (slice p (sepIndex + 1) dotIndex))
  then (slice p 0 dotIndex, slice p dotIndex (len p))
  else (p, EmptyString).

Definition LF : ascii := ascii_of_N 10.
Definition CR : ascii := ascii_of_N 13.

(** Text-mode reading translates ["\r\n"] and a lone ["\r"] to ["\n"]. *)
Fixpoint universal_newlines (s : string) : string :=
  match s with
  | EmptyString => EmptyString
  | String c rest =>
      if Ascii.eqb c CR then
        match rest with
        | String c' _ =>
            if Ascii.eqb c' LF then universal_newlines rest
            else String LF (universal_newlines rest)
        | EmptyString => String LF EmptyString
        end
      else String c (universal_newlines rest)
  end.

(** The lines of a text, each with its terminating ["\n"] (the last one may
    lack it), as iterating a file yields them. *)
Fixpoint split_keepends (s : string) : list string :=
  match s with
  | EmptyString => []
  | String c rest =>
      if Ascii.eqb c LF then String LF EmptyString :: split_keepends rest
      else match split_keepends rest with
           | [] => [String c EmptyString]
           | l :: ls => String c l :: ls
           end
  end.

(** [for line in f] on a file opened in text mode. *)
Definition file_lines (content : string) : list string :=
  split_keepends (universal_newlines content).

(** [[line.strip() for line in f if line.strip()]] *)
Definition stripped_lines (content : string) : list string :=
  filter (fun l => nonempty l = true) (strip <$> file_lines content).

(** What [for n in names: f.write(n + "\n")] writes. *)
Fixpoint write_lines (names : list string) : string :=
  match names with
  | [] => EmptyString
  | n :: rest => n +:+ String LF EmptyString +:+ write_lines rest
  end.

(** [str(n)] and [f"{n}"] for an integer: its decimal digits. *)
Definition str_of_Z (n : Z) : string := NilZero.string_of_int (Z.to_int n).

(** [s.endswith(suffix)] *)
Definition endswith (s suffix : string) : bool :=
  let n := String.length s in
  let m := String.length suffix in
  (m <=? n)%nat && String.eqb (String.substring (n - m) m s) suffix.

End PyStr.

(** ** Python dictionaries and JSON values *)

(** A [dict] keeps its keys in insertion order; the keys are unique. *)
Definition dict (V : Type) : Type := list (string * V).

(** [d.get(k)], [None] when the key is absent. *)
Fixpoint dict_get {V : Type} (d : dict V) (k : string) : option V :=
  match d with
  | [] => None
  | (k', v) :: rest => if String.eqb k' k then Some v else dict_get rest k
  end.

(** [d[k] = v]: an existing key keeps its place, a new key goes last. *)
Fixpoint dict_set {V : Type} (d : dict V) (k : string) (v : V) : dict V :=
  match d with
  | [] => [(k, v)]
  | (k', v') :: rest =>
      if String.eqb k' k then (k', v) :: rest else (k', v') :: dict_set rest k v
  end.

(** [k in d] *)
Definition dict_mem {V : Type} (d : dict V) (k : string) : bool :=
  match dict_get d k with Some _ => true | None => false end.

Definition dict_keys {V : Type} (d : dict V) : list string := fst <$> d.

#[local] Set Warnings "-register-all".
Inductive JSON : Type :=
  | JNull
  | JBool (b : bool)
  | JNum (token : string)
  | JStr (s : string)
  | JList (items : list JSON)
  | JDict (members : list (string * JSON)).

(** [p.get(key, "")] on a product or a service result whose field is a
    string. *)
Definition get_str (p : JSON) (key : string) : string :=
  match p with
  | JDict members =>
      match dict_get members key with
      | Some (JStr s) => s
      | _ => EmptyString
      end
  | _ => EmptyString
  end.

(** [p[key] = value] for a string value. *)
Definition set_str (p : JSON) (key value : string) : JSON :=
  match p with
  | JDict members => JDict (dict_set members key (JStr value))
  | _ => p
  end.

(** ** The files the stages coordinate through *)

Record World : Type := mkWorld {
  (** the JSON documents on disk, parsed; a missing or unparsable file has
      no entry *)
  json_files : gmap string JSON;
  (** [processed_items.txt], [None] while it does not exist *)
  processed_items_txt : option string;
  (** [image_batch_names.txt] *)
  image_batch_names_txt : option string;
  (** [s3_upload_links.txt] *)
  s3_upload_links_txt : option string
}.

Definition fresh_world (catalogs : gmap string JSON) : World :=
  mkWorld catalogs None None None.

(** ** descriptionwriter.py *)

Module DescriptionWriter.
Import PyStr.

Definition BATCH_SIZE : Z := 50.

Definition wrapper_keys : list string := ["menu"; "items"; "products"].

Definition is_list (j : JSON) : bool :=
  match j with JList _ => true | _ => false end.

Definition list_items (j : JSON) : list JSON :=
  match j with JList l => l | _ => [] end.

(** The first of [menu], [items], [products] that maps to a list. *)
Fixpoint find_wrapper (members : dict JSON) (keys : list string)
  : option (list JSON * string) :=
  match keys with
  | [] => None
  | key :: rest =>
      match dict_get members key with
      | Some (JList l) => Some (l, key)
      | _ => find_wrapper members rest
      end
  end.

Definition load_products (w : World) (filename : string)
  : list JSON * option string :=
  match json_files w !! filename with
  | None => ([], None)
  | Some (JList l) => (l, None)
  | Some (JDict members) =>
      match find_wrapper members wrapper_keys with
      | Some (l, key) => (l, Some key)
      | None => ([], None)
      end
  | Some _ => ([], None)
  end.

Definition write_json (w : World) (path : string) (data : JSON) : World :=
  mkWorld (<[path := data]> (json_files w)) (processed_items_txt w)
          (image_batch_names_txt w) (s3_upload_links_txt w).

(** Returns the world after the write and the path written; the empty path
    reports a failure (nothing is written then). *)
Definition save_products (w : World) (filename : string) (products : list JSON)
    (wrapper_key : option string) (inplace : bool) : World * string :=
  let output_path := if inplace then filename else "updated_" +:+ filename in
  match wrapper_key with
  | None => (write_json w output_path (JList products), output_path)
  | Some key =>
      match json_files w !! filename with
      | Some (JDict original) =>
          (write_json w output_path (JDict (dict_set original key (JList products))),
           output_path)
      | _ => (w, EmptyString)
      end
  end.

Definition read_processed_names (w : World) : gset string :=
  match processed_items_txt w with
  | None => ∅
  | Some content => list_to_set (stripped_lines content)
  end.

Definition append_processed_names (names : list string) (w : World) : World :=
  mkWorld (json_files w)
          (Some (default EmptyString (processed_items_txt w) +:+ write_lines names))
          (image_batch_names_txt w) (s3_upload_links_txt w).

Definition write_batch_names (names : list string) (w : World) : World :=
  mkWorld (json_files w) (processed_items_txt w)
          (Some (write_lines names)) (s3_upload_links_txt w).

Definition read_batch_names (w : World) : list string :=
  match image_batch_names_txt w with
  | None => []
  | Some content => stripped_lines content
  end.

Definition keep_in_filename (c : ascii) : bool :=
  isalnum c || Ascii.eqb c " " || Ascii.eqb c "-" || Ascii.eqb c "_".

Definition _sanitize_name_for_filename (name : string) : string :=
  let clean := rstrip (filter_chars keep_in_filename name) in
  lower (replace_char " " "_" clean).

(** [for key in keys: if key in d: return d[key]] *)
Fixpoint first_present (base_to_url : dict string) (keys : list string)
  : option string :=
  match keys with
  | [] => None
  | key :: rest =>
      match dict_get base_to_url key with
      | Some url => Some url
      | None => first_present base_to_url rest
      end
  end.

(** [for b, url in d.items(): if test(b): return url] *)
Fixpoint first_item (test : string -> bool) (items : dict string)
  : option string :=
  match items with
  | [] => None
  | (b, url) :: rest => if test b then Some url else first_item test rest
  end.

Definition _match_url_for_name (base_to_url : dict string) (product_name : string)
  : option string :=
  let base := _sanitize_name_for_filename product_name in
  match first_present base_to_url [base; base +:+ "_1"; base +:+ "_2"; base +:+ "_3"] with
  | Some url => Some url
  | None =>
      match first_item (fun b => startswith b base) base_to_url with
      | Some url => Some url
      | None => first_item (fun b => startswith base b) base_to_url
      end
  end.

(** [parse_s3_links_file]: one ledger entry per [filename,url] line; header
    and separator lines are skipped. *)
Definition parse_link_line (links : dict string) (raw : string) : dict string :=
  let line := strip raw in
  if negb (nonempty line) || startswith line "-" || startswith line "="
  then links
  else match split_first "," line with
       | Some (filename, url) =>
           let filename := strip filename in
           let url := strip url in
           if nonempty filename && nonempty url
           then dict_set links filename url else links
       | None => links
       end.

Definition parse_s3_links_file (w : World) : dict string :=
  match s3_upload_links_txt w with
  | None => []
  | Some content => foldl parse_link_line [] (file_lines content)
  end.

(** The lookup table of both replacement passes: the ledger re-keyed by the
    lower-cased filename without its extension. *)
Definition base_to_url_of (links : dict string) : dict string :=
  foldl (fun d kv => dict_set d (lower (splitext kv.1).1) kv.2) [] links.

Fixpoint select_loop (processed : gset string) (batch_size : Z)
    (all_products next_batch : list JSON) : list JSON :=
  match all_products with
  | [] => next_batch
  | p :: rest =>
      let name := strip (get_str p "name") in
      if negb (nonempty name) then select_loop processed batch_size rest next_batch
      else if decide (name ∈ processed)
      then select_loop processed batch_size rest next_batch
      else
        let next_batch := next_batch ++ [p] in
        if (batch_size <=? Z.of_nat (length next_batch))%Z then next_batch
        else select_loop processed batch_size rest next_batch
  end.

Definition _select_next_batch (w : World) (all_products : list JSON)
    (batch_size : Z) : list JSON :=
  select_loop (read_processed_names w) batch_size all_products [].

(** [d.setdefault(k, v)] *)
Definition setdefault (d : gmap string nat) (k : string) (v : nat)
  : gmap string nat :=
  match d !! k with Some _ => d | None => <[k := v]> d end.

(** The index built by the first loop of [_apply_enhancements_to_products]. *)
Fixpoint index_names (all_products : list JSON) (idx : nat)
    (name_to_index : gmap string nat) : gmap string nat :=
  match all_products with
  | [] => name_to_index
  | p :: rest =>
      let n := get_str p "name" in
      index_names rest (S idx)
        (if nonempty n then setdefault name_to_index n idx else name_to_index)
  end.

(** The state of the second loop: the products (updated in place), the
    counter and the names collected so far. *)
Record Applied : Type := mkApplied {
  products : list JSON;
  updated : Z;
  enhanced_names : list string
}.

Definition apply_item (name_to_index : gmap string nat) (st : Applied)
    (item : JSON) : Applied :=
  let original := get_str item "originalName" in
  let enhanced_name := get_str item "enhancedName" in
  let enhanced_desc := get_str item "enhancedDescription" in
  if negb (nonempty original) then st
  else match name_to_index !! original with
       | None => st
       | Some idx =>
           let ps := products st in
           let ps := if nonempty enhanced_name
                     then alter (fun p => set_str p "name" enhanced_name) idx ps
                     else ps in
           let ps := if nonempty enhanced_desc
                     then alter (fun p => set_str p "description" enhanced_desc) idx ps
                     else ps in
           mkApplied ps (updated st + 1)
             (enhanced_names st
                ++ [if nonempty enhanced_name then enhanced_name else original])
       end.

Definition _apply_enhancements_to_products (all_products processed_results : list JSON)
  : Applied :=
  foldl (apply_item (index_names all_products 0 ∅))
        (mkApplied all_products 0 []) processed_results.

Section Configured.

(** The configured placeholder image, [DUMMY_IMAGE_URL]. *)
Variable DUMMY_IMAGE_URL : string.

(** One iteration of the replacement loop on product [p]: the product
    afterwards and whether its image was replaced.  [batch_names_lower] is
    [None] for the pass over all products. *)
Definition replace_dummy_image (batch_names_lower : option (gset string))
    (base_to_url : dict string) (p : JSON) : JSON * bool :=
  let name := strip (get_str p "name") in
  if negb (nonempty name) then (p, false)
  else if match batch_names_lower with
          | Some names => negb (bool_decide (lower name ∈ names))
          | None => false
          end
  then (p, false)
  else
    let current_image := strip (get_str p "image") in
    if negb (String.eqb current_image DUMMY_IMAGE_URL) then (p, false)
    else match _match_url_for_name base_to_url name with
         | Some target_url =>
             if nonempty target_url then (set_str p "image" target_url, true)
             else (p, false)
         | None => (p, false)
         end.

Fixpoint replace_loop (batch_names_lower : option (gset string))
    (base_to_url : dict string) (all_products : list JSON) : list JSON * Z :=
  match all_products with
  | [] => ([], 0%Z)
  | p :: rest =>
      let '(p', hit) := replace_dummy_image batch_names_lower base_to_url p in
      let '(rest', n) := replace_loop batch_names_lower base_to_url rest in
      (p' :: rest', if hit then (n + 1)%Z else n)
  end.

(** [batch_names] is [Some names] for a set or a list of names and [None] for
    any other value, which lifts the restriction to a batch. *)
Definition _replace_dummy_images_for_batch (w : World) (all_products : list JSON)
    (batch_names : option (list string)) : list JSON * Z :=
  let links := parse_s3_links_file w in
  match links with
  | [] => (all_products, 0%Z)
  | _ =>
      let base_to_url := base_to_url_of links in
      let batch_names_lower :=
        (fun names => list_to_set ((fun n => lower (strip n)) <$> names)) <$> batch_names in
      replace_loop batch_names_lower base_to_url all_products
  end.

(** [main]; [service] stands for [process_batch], the call to the text
    generation service: it answers with the result entries, or with the
    empty list when the call or the parse fails. *)
Definition main (service : list JSON -> list JSON) (input_filename : string)
    (batch_size : option Z) (w : World) : World :=
  let '(all_products, wrapper_key) := load_products w input_filename in
  match all_products with
  | [] => w
  | _ =>
      let effective_batch_size := default BATCH_SIZE batch_size in
      match _select_next_batch w all_products effective_batch_size with
      | [] =>
          match read_batch_names w with
          | [] => w
          | batch_names =>
              let '(all_products, _) :=
                _replace_dummy_images_for_batch w all_products (Some batch_names) in
              (save_products w input_filename all_products wrapper_key true).1
          end
      | batch =>
          match service batch with
          | [] => w
          | results =>
              let st := _apply_enhancements_to_products all_products results in
              let w := write_batch_names (enhanced_names st) w in
              let w := append_processed_names (enhanced_names st) w in
              let '(all_products, _) :=
                _replace_dummy_images_for_batch w (products st)
                  (Some (enhanced_names st)) in
              (save_products w input_filename all_products wrapper_key true).1
          end
      end
  end.

Definition replace_images_for_last_batch (input_filename : string) (w : World)
  : World :=
  let '(all_products, wrapper_key) := load_products w input_filename in
  match all_products with
  | [] => w
  | _ =>
      match read_batch_names w with
      | [] => w
      | batch_names =>
          let '(all_products, _) :=
            _replace_dummy_images_for_batch w all_products (Some batch_names) in
          (save_products w input_filename all_products wrapper_key true).1
      end
  end.

Definition replace_images_from_links_all (input_filename : string) (w : World)
  : World :=
  let '(all_products, wrapper_key) := load_products w input_filename in
  match all_products with
  | [] => w
  | _ =>
      match parse_s3_links_file w with
      | [] => w
      | links =>
          let '(all_products, _) :=
            replace_loop None (base_to_url_of links) all_products in
          (save_products w input_filename all_products wrapper_key true).1
      end
  end.

End Configured.

(** The placeholder the source ships: the empty string. *)
Definition shipped_DUMMY_IMAGE_URL : string := EmptyString.

(** *** The call to the text generation service *)

Definition MAX_RETRIES : nat := 5.

(** [switch_api_key]: the new [CURRENT_KEY_INDEX] and the value returned;
    [n_keys] is [len(API_KEYS)]. *)
Definition switch_api_key (n_keys : Z) (CURRENT_KEY_INDEX : Z) : Z * bool :=
  if (CURRENT_KEY_INDEX <? n_keys - 1)%Z then ((CURRENT_KEY_INDEX + 1)%Z, true)
  else (CURRENT_KEY_INDEX, false).

(** What one [requests.post] comes to: status 429; a body that decodes to
    JSON; or a [RequestException] (no connection, a status that
    [raise_for_status] refuses and, as requests 2.27 and later raise it, a
    body that [response.json()] cannot decode). *)
Inductive Response : Type :=
  | Status429
  | Answer (body : JSON)
  | RequestFailed.

(** What [call_gemini_api_with_retry] comes to: the dictionary it returns,
    or the [IndexError] of [API_KEYS[CURRENT_KEY_INDEX]] in [get_api_url],
    which the [except] clause does not catch. *)
Inductive ApiResult : Type :=
  | ApiReturn (response : JSON)
  | ApiIndexError.

Definition error_response (message : string) : JSON :=
  JDict [("error", JStr message)].

(** The state after a call: the result, [CURRENT_KEY_INDEX], and the number
    of requests sent. *)
Record ApiCall : Type := mkApiCall {
  api_result : ApiResult;
  key_index : Z;
  requests_sent : nat
}.

(** [for attempt in range(MAX_RETRIES)], from [attempt] on with [remaining]
    attempts to go; [post attempt] is the response to the request of that
    attempt.  The waits between attempts are not modelled. *)
Fixpoint retry_loop (post : nat -> Response) (n_keys : Z) (remaining attempt : nat)
    (CURRENT_KEY_INDEX : Z) (sent : nat) : ApiCall :=
  match remaining with
  | O => mkApiCall (ApiReturn (error_response "API call failed after multiple retries."))
                   CURRENT_KEY_INDEX sent
  | S remaining =>
      if ((CURRENT_KEY_INDEX <? - n_keys) || (n_keys <=? CURRENT_KEY_INDEX))%Z
      then mkApiCall ApiIndexError CURRENT_KEY_INDEX sent
      else
        match post attempt with
        | Status429 =>
            let '(index, switched) := switch_api_key n_keys CURRENT_KEY_INDEX in
            if switched
            then retry_loop post n_keys remaining (S attempt) index (S sent)
            else mkApiCall
                   (ApiReturn (error_response "All API keys exhausted due to rate limits."))
                   index (S sent)
        | Answer body => mkApiCall (ApiReturn body) CURRENT_KEY_INDEX (S sent)
        | RequestFailed =>
            retry_loop post n_keys remaining (S attempt) CURRENT_KEY_INDEX (S sent)
        end
  end.

Definition call_gemini_api_with_retry (post : nat -> Response) (n_keys : Z)
    (CURRENT_KEY_INDEX : Z) : ApiCall :=
  retry_loop post n_keys MAX_RETRIES 0 CURRENT_KEY_INDEX 0.

End DescriptionWriter.

(** ** The imaging library *)

(** What the compressors use of Pillow.  [jpeg_bytes img q] is the number of
    bytes of [img.save(buffer, format='JPEG', quality=q, optimize=True)];
    [lanczos img w h] is [img.resize((w, h), LANCZOS)] for positive [w] and
    [h]. *)
Class Imaging (Image : Type) : Type := {
  mode : Image -> string;
  convert_rgb : Image -> Image;
  image_size : Image -> Z * Z;
  jpeg_bytes : Image -> Z -> Z;
  lanczos : Image -> Z -> Z -> Image
}.

(** [image.resize((w, h), ...)]: Pillow raises [ValueError] ("height and
    width must be > 0") for a side below one pixel; [None] stands for it. *)
Definition resize {Image : Type} `{Imaging Image} (image : Image) (w h : Z)
  : option Image :=
  if ((w <? 1) || (h <? 1))%Z then None else Some (lanczos image w h).

(** [if image.mode in ('RGBA', 'LA', 'P'): image = image.convert('RGB')] *)
Definition normalize_mode {Image : Type} `{Imaging Image} (image : Image) : Image :=
  if bool_decide (mode image ∈ ["RGBA"; "LA"; "P"]) then convert_rgb image else image.

(** ** image_fetcher.py *)

Module ImageFetcher.
Section Compressor.
Context {Image : Type} `{Imaging Image}.
Local Open Scope Z_scope.

(** Which [break] left the loop. *)
Inductive Exit : Type := BudgetMet | CannotResize | HardFailure.

(** The effect of one pass through the body of [while True]. *)
Inductive Step : Type :=
  | Continue (image : Image) (quality : Z)
  | Break (exit : Exit) (image : Image) (quality : Z)
  | Raise.

(** What the function does: it returns the image re-encoded at [quality]
    together with [quality], or the resize raises. *)
Inductive Outcome : Type :=
  | Returned (exit : Exit) (image : Image) (quality : Z)
  | Raised.

Definition iteration (max_bytes : Z) (image : Image) (quality : Z) : Step :=
  let current_size := jpeg_bytes image quality in
  if current_size <=? max_bytes then Break BudgetMet image quality
  else if 25 <? quality then Continue image (quality - 5)
  else
    let '(width, height) := image_size image in
    if (Z.min width height <? 300) && (quality <=? 10)
    then Break CannotResize image quality
    else
      let new_width := width * 4 / 5 in
      let new_height := height * 4 / 5 in
      match resize image new_width new_height with
      | None => Raise
      | Some image =>
          let quality := 80 in
          if (quality <=? 10) && (max_bytes <? current_size)
          then Break HardFailure image quality
          else Continue image quality
      end.

(** [while True], bounded by [fuel] passes; [None] when they do not
    suffice. *)
Fixpoint loop (fuel : nat) (max_bytes : Z) (image : Image) (quality : Z)
  : option Outcome :=
  match fuel with
  | O => None
  | S fuel =>
      match iteration max_bytes image quality with
      | Continue image quality => loop fuel max_bytes image quality
      | Break exit image quality => Some (Returned exit image quality)
      | Raise => Some Raised
      end
  end.

Definition resize_image_for_size (fuel : nat) (image : Image) (max_kb : Z)
  : option Outcome :=
  let image := normalize_mode image in
  let quality := 90 in
  let max_bytes := max_kb * 1024 in
  loop fuel max_bytes image quality.

(** The reduction of the dimensions on its own: [image.resize] to 0.8 times
    each side. *)
Definition downscale (image : Image) : option Image :=
  let '(width, height) := image_size image in
  resize image (width * 4 / 5) (height * 4 / 5).

End Compressor.

Import PyStr.
Local Open Scope Z_scope.

(** *** Searching for images *)

(** What one request to the search API comes to: the [try] block runs to
    its [return] with the links it has collected in [image_urls]; or one of
    the four handlers takes over (rate limit, invalid key, another HTTP
    error, any other exception), which differ in their messages and waits
    only.  The waits are not modelled. *)
Inductive SearchResponse : Type :=
  | Found (image_urls : list string)
  | RateLimitExceeded
  | InvalidKey
  | HttpFailure
  | GeneralFailure.

(** A call returns a list of links, or [API_KEYS[CURRENT_KEY_INDEX]] raises
    [IndexError], outside of any [try]. *)
Inductive SearchResult : Type :=
  | SearchReturn (image_urls : list string)
  | SearchIndexError.

(** The global [CURRENT_KEY_INDEX] and the number of requests sent since
    the process started. *)
Record Session : Type := mkSession {
  CURRENT_KEY_INDEX : Z;
  requests : nat
}.

(** [l[:n]] *)
Definition slice_to {A : Type} (l : list A) (n : Z) : list A :=
  if 0 <=? n then take (Z.to_nat n) l
  else take (length l - Z.to_nat (- n)) l.

(** [range(1, n + 1)] *)
Definition range_from_1 (n : Z) : list Z :=
  (fun k => Z.of_nat k + 1) <$> seq 0 (Z.to_nat n).

Definition placeholder_urls (product_name : string) (num_images : Z) : list string :=
  let sanitized_name := replace_char " " "+" product_name in
  (fun i => "https://placehold.co/600x400/3498db/ffffff?text=" +:+ sanitized_name
            +:+ "+" +:+ str_of_Z i) <$> range_from_1 num_images.

Section Search.

Variable API_KEYS : list string.
Variable CSE_IDS : string.

(** [api k] is the response to request number [k] of the process. *)
Variable api : nat -> SearchResponse.

(** [for attempt in range(len(API_KEYS))], with [remaining] passes to go. *)
Fixpoint search_loop (num_images : Z) (remaining : nat) (s : Session)
  : Session * SearchResult :=
  match remaining with
  | O => (s, SearchReturn [])
  | S remaining =>
      let n_keys := Z.of_nat (length API_KEYS) in
      let index := CURRENT_KEY_INDEX s in
      if (index <? - n_keys) || (n_keys <=? index) then (s, SearchIndexError)
      else
        let failed :=
          let s := mkSession (index + 1) (S (requests s)) in
          if index + 1 <? n_keys then search_loop num_images remaining s
          else (s, SearchReturn []) in
        match api (requests s) with
        | Found image_urls =>
            (mkSession index (S (requests s)), SearchReturn (slice_to image_urls num_images))
        | RateLimitExceeded => failed
        | InvalidKey => failed
        | HttpFailure => failed
        | GeneralFailure => failed
        end
  end.

Definition search_product_images_api (product_name : string) (num_images : Z)
    (s : Session) : Session * SearchResult :=
  if negb (bool_decide (API_KEYS <> [])) || negb (nonempty CSE_IDS)
  then (s, SearchReturn (placeholder_urls product_name num_images))
  else search_loop num_images (length API_KEYS) s.

End Search.

(** *** Saving the selected image *)

Definition MAX_COMPRESSION_KB : Z := 30.

Definition keep_in_filename (c : ascii) : bool :=
  isalnum c || Ascii.eqb c " " || Ascii.eqb c "-" || Ascii.eqb c "_".

(** The file name [save_selected_image] derives from a product name. *)
Definition clean_name (product_name : string) : string :=
  let clean_name := rstrip (filter_chars keep_in_filename product_name) in
  replace_char " " "_" clean_name.

(** [while os.path.exists(filepath)], bounded by [fuel] passes; [folder]
    holds the names that exist in the folder. *)
Fixpoint unique_loop (fuel : nat) (folder : gset string)
    (filename_base filename : string) (counter : Z) : option string :=
  match fuel with
  | O => None
  | S fuel =>
      if bool_decide (filename ∈ folder)
      then unique_loop fuel folder filename_base
             (filename_base +:+ "_" +:+ str_of_Z counter +:+ ".jpg") (counter + 1)
      else Some filename
  end.

Definition unique_filename (fuel : nat) (folder : gset string) (filename_base : string)
  : option string :=
  unique_loop fuel folder filename_base (filename_base +:+ ".jpg") 1.

(** What the final [try] block comes to: it runs to its [return]; or
    [resized_image.save] raises, and Pillow removes the file it had created;
    or a statement after the save raises, with the file written. *)
Inductive SaveAttempt : Type := SaveCompleted | SaveRefused | ReportFailed.

(** [save_selected_image] returns a string, or the compressor raises. *)
Inductive Saved : Type :=
  | SaveReturn (message : string)
  | SaveRaise.

(** [fetch_and_save_best_image] returns a pair, or raises: [IndexError] from
    the search, [ValueError] from the compressor. *)
Inductive Fetched : Type :=
  | FetchReturn (ok : bool) (message : string)
  | FetchRaise.

(** The process as the fetcher sees it: the session of the search, the
    number of downloads made, and the names in the folder [product_image],
    [None] while the folder does not exist. *)
Record Fetcher : Type := mkFetcher {
  session : Session;
  downloads : nat;
  product_image : option (gset string)
}.

Section Saving.
Context {Image : Type} `{Imaging Image}.

Variable image_save : Image -> Z -> string -> SaveAttempt.

(** [None] when [fuel] does not suffice for one of the two loops. *)
Definition save_selected_image (fuel : nat) (image : Image)
    (product_name folder_name : string) (folder : gset string)
  : option (gset string * Saved) :=
  let filename_base := clean_name product_name in
  match unique_filename fuel folder filename_base with
  | None => None
  | Some filename =>
      let filepath := folder_name +:+ "/" +:+ filename in
      match resize_image_for_size fuel image MAX_COMPRESSION_KB with
      | None => None
      | Some Raised => Some (folder, SaveRaise)
      | Some (Returned _ resized_image quality) =>
          match image_save resized_image quality filepath with
          | SaveCompleted => Some (folder ∪ {[filename]}, SaveReturn filepath)
          | SaveRefused => Some (folder, SaveReturn "Save failed.")
          | ReportFailed => Some (folder ∪ {[filename]}, SaveReturn "Save failed.")
          end
      end
  end.

(** *** Fetching the best image of a product *)

(** The scores of [_score_image] are floating-point numbers; the model
    keeps them abstract and compares them with [score_lt], their [<]. *)
Variable Score : Type.
Variable score_lt : Score -> Score -> bool.
Variable _score_image : Image -> Score.

Variable API_KEYS : list string.
Variable CSE_IDS : string.
Variable api : nat -> SearchResponse.

(** [download_image k url]: what download number [k] of the process, of
    [url], comes to; [None] for a failed download. *)
Variable download_image : nat -> string -> option Image.

(** Whether [os.makedirs] succeeds should the folder be missing. *)
Variable makedirs : bool.

(** [ensure_product_image_folder]: the folder afterwards, [None] for the
    result [None]. *)
Definition ensure_product_image_folder (st : Fetcher) : Fetcher * option string :=
  match product_image st with
  | Some _ => (st, Some "product_image")
  | None =>
      if makedirs
      then (mkFetcher (session st) (downloads st) (Some ∅), Some "product_image")
      else (st, None)
  end.

(** [for url in image_urls: ...], the downloads numbered from [k] on. *)
Fixpoint download_all (image_urls : list string) (k : nat) : list (Image * string) :=
  match image_urls with
  | [] => []
  | url :: rest =>
      match download_image k url with
      | Some img => (img, url) :: download_all rest (S k)
      | None => download_all rest (S k)
      end
  end.

(** [max(downloaded, key=lambda t: _score_image(t[0]))] from [best] on: the
    first of the elements with the greatest score. *)
Fixpoint max_by_score (best : Image * string) (rest : list (Image * string))
  : Image * string :=
  match rest with
  | [] => best
  | t :: rest =>
      max_by_score (if score_lt (_score_image best.1) (_score_image t.1) then t else best)
        rest
  end.

(** What the [while] loop comes to: it ends with the list [downloaded], the
    function returns from inside it, or the search raises. *)
Inductive Gathered : Type :=
  | LoopEnds (downloaded : list (Image * string))
  | LoopReturn (ok : bool) (message : string)
  | LoopRaise.

(** [while attempts < 3 and not downloaded], entered with [downloaded]
    empty, bounded by [fuel] passes. *)
Fixpoint gather (fuel : nat) (product_name : string) (num_candidates : Z)
    (attempts : Z) (st : Fetcher) : option (Fetcher * Gathered) :=
  match fuel with
  | O => None
  | S fuel =>
      if attempts <? 3 then
        let attempts := attempts + 1 in
        match search_product_images_api API_KEYS CSE_IDS api product_name num_candidates
                (session st) with
        | (s, SearchIndexError) =>
            Some (mkFetcher s (downloads st) (product_image st), LoopRaise)
        | (s, SearchReturn []) =>
            let st := mkFetcher s (downloads st) (product_image st) in
            if 3 <=? attempts
            then Some (st, LoopReturn false "No image URLs found after retries")
            else gather fuel product_name num_candidates attempts st
        | (s, SearchReturn image_urls) =>
            let downloaded := download_all image_urls (downloads st) in
            let st := mkFetcher s (downloads st + length image_urls) (product_image st) in
            match downloaded with
            | [] => gather fuel product_name num_candidates attempts st
            | _ => Some (st, LoopEnds downloaded)
            end
        end
      else Some (st, LoopEnds [])
  end.

Definition fetch_and_save_best_image (fuel : nat) (product_name : string)
    (num_candidates : Z) (st : Fetcher) : option (Fetcher * Fetched) :=
  match ensure_product_image_folder st with
  | (st, None) => Some (st, FetchReturn false "Cannot create product_image folder")
  | (st, Some folder_name) =>
      match gather fuel product_name num_candidates 0 st with
      | None => None
      | Some (st, LoopRaise) => Some (st, FetchRaise)
      | Some (st, LoopReturn ok message) => Some (st, FetchReturn ok message)
      | Some (st, LoopEnds []) =>
          Some (st, FetchReturn false "No images downloaded after retries")
      | Some (st, LoopEnds (first :: rest)) =>
          let '(best_img, _) := max_by_score first rest in
          match save_selected_image fuel best_img product_name folder_name
                  (default ∅ (product_image st)) with
          | None => None
          | Some (folder, SaveRaise) =>
              Some (mkFetcher (session st) (downloads st) (Some folder), FetchRaise)
          | Some (folder, SaveReturn path) =>
              Some (mkFetcher (session st) (downloads st) (Some folder),
                    FetchReturn true path)
          end
      end
  end.

(** *** The batch run *)

(** How [main_cli] ends: it returns early, without a folder or without the
    names file; it reports [successes] saved images of [total] names; or a
    fetch raises and the run stops there. *)
Inductive BatchRun : Type :=
  | NoFolder
  | NoBatchFile
  | Done (successes total : Z)
  | Stopped.

(** [for name in names], with [successes] so far. *)
Fixpoint fetch_names (fuel : nat) (names : list string) (successes : Z)
    (st : Fetcher) : option (Fetcher * option Z) :=
  match names with
  | [] => Some (st, Some successes)
  | name :: rest =>
      match fetch_and_save_best_image fuel name 5 st with
      | None => None
      | Some (st, FetchRaise) => Some (st, None)
      | Some (st, FetchReturn ok _) =>
          fetch_names fuel rest (if ok then successes + 1 else successes) st
      end
  end.

Definition main_cli (fuel : nat) (w : World) (st : Fetcher)
  : option (Fetcher * BatchRun) :=
  match ensure_product_image_folder st with
  | (st, None) => Some (st, NoFolder)
  | (st, Some _) =>
      match image_batch_names_txt w with
      | None => Some (st, NoBatchFile)
      | Some content =>
          let names := stripped_lines content in
          match fetch_names fuel names 0 st with
          | None => None
          | Some (st, None) => Some (st, Stopped)
          | Some (st, Some successes) =>
              Some (st, Done successes (Z.of_nat (length names)))
          end
      end
  end.

End Saving.

End ImageFetcher.

(** ** imageuploader.py *)

Module ImageUploader.
Section Compressor.
Context {Image : Type} `{Imaging Image}.
Local Open Scope Z_scope.

Inductive Exit : Type := TargetMet | MinimumQuality | TooSmall.

(** [buffer_quality] is the quality of the last encoding made, the one the
    returned image is read back from. *)
Inductive Step : Type :=
  | Continue (working_image : Image) (quality : Z)
  | Break (exit : Exit) (working_image : Image) (buffer_quality quality : Z)
  | Raise.

Inductive Outcome : Type :=
  | Returned (exit : Exit) (working_image : Image) (buffer_quality quality : Z)
  | Raised.

Definition iteration (max_bytes : Z) (working_image : Image) (quality : Z) : Step :=
  let current_size := jpeg_bytes working_image quality in
  if current_size <=? max_bytes then Break TargetMet working_image quality quality
  else if quality <=? 10 then Break MinimumQuality working_image quality quality
  else
    let buffer_quality := quality in
    let quality := quality - 15 in
    if quality <? 10 then
      let '(width, height) := image_size working_image in
      if (width * 4 <? 500) || (height * 4 <? 500)
      then Break TooSmall working_image buffer_quality 10
      else
        match resize working_image (width * 4 / 5) (height * 4 / 5) with
        | None => Raise
        | Some working_image => Continue working_image 85
        end
    else Continue working_image quality.

Fixpoint loop (fuel : nat) (max_bytes : Z) (working_image : Image) (quality : Z)
  : option Outcome :=
  match fuel with
  | O => None
  | S fuel =>
      match iteration max_bytes working_image quality with
      | Continue working_image quality => loop fuel max_bytes working_image quality
      | Break exit working_image buffer_quality quality =>
          Some (Returned exit working_image buffer_quality quality)
      | Raise => Some Raised
      end
  end.

Definition resize_image_for_size (fuel : nat) (image : Image) (max_kb : Z)
  : option Outcome :=
  let image := normalize_mode image in
  let quality := 95 in
  let max_bytes := max_kb * 1024 in
  let working_image := image in
  loop fuel max_bytes working_image quality.

End Compressor.

Import PyStr.
Local Open Scope Z_scope.

Definition BATCH_SIZE : Z := 50.

(** [range(0, num_items, batch_size)] for a positive step. *)
Fixpoint range_up (fuel : nat) (i stop step : Z) : list Z :=
  match fuel with
  | O => []
  | S fuel => if i <? stop then i :: range_up fuel (i + step) stop step else []
  end.

(** [range(0, num_items, batch_size)]: a step of zero raises [ValueError]
    ([None]); a negative step gives the empty range. *)
Definition batch_starts (num_items batch_size : Z) : option (list Z) :=
  if batch_size =? 0 then None
  else if batch_size <? 0 then Some []
  else Some (range_up (Z.to_nat num_items) 0 num_items batch_size).

(** [items[i:i + batch_size]] for [0 <= i] and a positive [batch_size]. *)
Definition batch_slice (items : dict string) (i batch_size : Z) : dict string :=
  take (Z.to_nat batch_size) (drop (Z.to_nat i) items).

Definition newline : string := String LF EmptyString.

(** What one pass of the outer loop writes. *)
Definition batch_text (items : dict string) (batch_size num_items i : Z) : string :=
  let batch := batch_slice items i batch_size in
  let batch_num := i / batch_size + 1 in
  ("===== BATCH " +:+ str_of_Z batch_num +:+ " (Images " +:+ str_of_Z (i + 1)
     +:+ " to " +:+ str_of_Z (Z.min (i + batch_size) num_items) +:+ ") =====" +:+ newline)
  +:+ foldr (fun kv text => (kv.1 +:+ "," +:+ kv.2 +:+ newline) +:+ text) EmptyString batch
  +:+ newline.

(** [generate_output_batches]: the world with the ledger file rewritten, and
    whether the call raised.  The file it opens, [s3_upload_links.txt] in
    the working directory, is the one [descriptionwriter.py] reads when the
    pipeline runs from the directory of its scripts. *)
Definition generate_output_batches (uploaded_links : dict string) (batch_size : Z)
    (w : World) : World * bool :=
  let items := uploaded_links in
  let num_items := Z.of_nat (length items) in
  let title := "--- S3 Upload Links Batch Output ---" +:+ newline +:+ newline in
  let write text :=
    mkWorld (json_files w) (processed_items_txt w) (image_batch_names_txt w) (Some text) in
  match batch_starts num_items batch_size with
  | None => (write title, true)
  | Some starts =>
      (write (title +:+ foldr (fun i text => batch_text items batch_size num_items i +:+ text)
                              EmptyString starts),
       false)
  end.

(** *** Uploading a folder *)

Section Uploading.

Variable S3_BUCKET_NAME : string.
Variable AWS_REGION : string.
Variable S3_UPLOAD_FOLDER : string.

(** Whether [resize_and_compress_image] returns a buffer for the file, and
    whether [s3_client.upload_fileobj] then succeeds. *)
Variable compresses : string -> bool.
Variable uploads : string -> bool.

Definition allowed_extensions : list string := [".jpg"; ".jpeg"; ".png"; ".webp"].

(** [f.lower().endswith(allowed_extensions)] *)
Definition is_image_file (f : string) : bool :=
  existsb (endswith (lower f)) allowed_extensions.

(** The URL [upload_to_s3] returns for the key [s3_key]. *)
Definition s3_url (s3_key : string) : string :=
  "https://" +:+ S3_BUCKET_NAME +:+ ".s3." +:+ AWS_REGION +:+ ".amazonaws.com/" +:+ s3_key.

(** One pass of [for filename in image_files]. *)
Definition upload_file (uploaded_links : dict string) (filename : string) : dict string :=
  if compresses filename then
    let s3_filename := (splitext filename).1 +:+ ".jpeg" in
    let s3_key := S3_UPLOAD_FOLDER +:+ s3_filename in
    if uploads filename then dict_set uploaded_links filename (s3_url s3_key)
    else uploaded_links
  else uploaded_links.

(** [upload_folder_images]; [listing] is [os.listdir(input_folder)], [None]
    when the folder does not exist.  The result [None] is Python's [None],
    which the function returns for a folder without image files. *)
Definition upload_folder_images (listing : option (list string)) : option (dict string) :=
  match listing with
  | None => Some []
  | Some names =>
      match filter (fun f => is_image_file f = true) names with
      | [] => None
      | image_files => Some (foldl upload_file [] image_files)
      end
  end.

(** [main]: [if links:] holds for a dictionary that is not empty. *)
Definition main (listing : option (list string)) (w : World) : World :=
  match upload_folder_images listing with
  | Some (entry :: entries) => (generate_output_batches (entry :: entries) BATCH_SIZE w).1
  | _ => w
  end.

End Uploading.

End ImageUploader.

(** ** pipeline_runner.py *)

Module PipelineRunner.
Import PyStr.

(** What the pipeline works on: the files of the description writer and
    the process and folder of the fetcher.  The scripts are run from their
    own directory, so that the relative paths of the fetcher and the
    uploader name the files next to the scripts. *)
Record Site : Type := mkSite {
  files : World;
  images : ImageFetcher.Fetcher
}.

(** How [run_pipeline] ends: it runs to its end, or the fetch stage
    raises. *)
Inductive Run : Type := Completed | Aborted.

Section Pipeline.
Context {Image : Type} `{Imaging Image}.

Variable DUMMY_IMAGE_URL : string.
Variable service : list JSON -> list JSON.

Variable image_save : Image -> Z -> string -> ImageFetcher.SaveAttempt.
Variable Score : Type.
Variable score_lt : Score -> Score -> bool.
Variable _score_image : Image -> Score.
Variable API_KEYS : list string.
Variable CSE_IDS : string.
Variable api : nat -> ImageFetcher.SearchResponse.
Variable download_image : nat -> string -> option Image.
Variable makedirs : bool.

Variable S3_BUCKET_NAME : string.
Variable AWS_REGION : string.
Variable S3_UPLOAD_FOLDER : string.
Variable compresses : string -> bool.
Variable uploads : string -> bool.

(** [os.listdir(INPUT_FOLDER)] of the uploader, [None] when that folder
    does not exist. *)
Variable listdir : Site -> option (list string).

(** Whether [os.remove] succeeds on a name of [product_image], whether
    the ledger can be opened for writing, and whether a file exists next to
    the scripts. *)
Variable removable : string -> bool.
Variable ledger_writable : bool.
Variable file_exists : string -> bool.

Definition tidy_workspace (clear_links : bool) (site : Site) : Site :=
  let st := images site in
  let folder := filter (fun f => removable f = false) <$> ImageFetcher.product_image st in
  let w := files site in
  let w :=
    if clear_links && ledger_writable
    then mkWorld (json_files w) (processed_items_txt w) (image_batch_names_txt w)
           (Some EmptyString)
    else w in
  mkSite w (ImageFetcher.mkFetcher (ImageFetcher.session st) (ImageFetcher.downloads st) folder).

Definition resolve_input_json (input_json : option string) : string :=
  match input_json with
  | Some (String c rest) => String c rest
  | _ =>
      if file_exists "nath_menu.json" then "nath_menu.json"
      else if file_exists "input_products.json" then "input_products.json"
      else "input_products.json"
  end.

(** [run_pipeline]; [None] when [fuel] does not suffice for the loops of
    the fetch stage.  What the run prints, [print_progress] included, is not
    modelled. *)
Definition run_pipeline (fuel : nat) (input_json : option string)
    (tidy_before tidy_after clear_links : bool) (site : Site) : option (Site * Run) :=
  let input_json := resolve_input_json input_json in
  let site := if tidy_before then tidy_workspace clear_links site else site in
  let w := DescriptionWriter.main DUMMY_IMAGE_URL service input_json None (files site) in
  match ImageFetcher.main_cli image_save Score score_lt _score_image API_KEYS CSE_IDS api
          download_image makedirs fuel w (images site) with
  | None => None
  | Some (st, ImageFetcher.Stopped) => Some (mkSite w st, Aborted)
  | Some (st, _) =>
      let links :=
        ImageUploader.upload_folder_images S3_BUCKET_NAME AWS_REGION S3_UPLOAD_FOLDER
          compresses uploads (listdir (mkSite w st)) in
      let w :=
        match links with
        | Some (entry :: entries) =>
            (ImageUploader.generate_output_batches (entry :: entries)
               ImageUploader.BATCH_SIZE w).1
        | _ => w
        end in
      let w := DescriptionWriter.replace_images_for_last_batch DUMMY_IMAGE_URL input_json w in
      let w := DescriptionWriter.replace_images_from_links_all DUMMY_IMAGE_URL input_json w in
      let site := mkSite w st in
      let site := if tidy_after then tidy_workspace clear_links site else site in
      Some (site, Completed)
  end.

End Pipeline.
End PipelineRunner.

(** ** A synthetic imaging instance

    Images are reduced to their dimensions, and an encoding takes a fixed
    header plus a share of the pixel count that grows with the quality. *)

Definition synthetic_jpeg_bytes (image : Z * Z) (quality : Z) : Z :=
  (600 + image.1 * image.2 * quality / 100)%Z.

Definition synthetic_imaging : Imaging (Z * Z) := {|
  mode := fun _ => "RGB";
  convert_rgb := fun image => image;
  image_size := fun image => image;
  jpeg_bytes := synthetic_jpeg_bytes;
  lanczos := fun _ w h => (w, h)
|}.

(** ** A small catalog, a service answer and a ledger *)

Definition product (name description image : string) : JSON :=
  JDict [("name", JStr name); ("description", JStr description); ("image", JStr image)].

Definition result_entry (originalName enhancedName enhancedDescription : string) : JSON :=
  JDict [("originalName", JStr originalName); ("enhancedName", JStr enhancedName);
         ("enhancedDescription", JStr enhancedDescription)].

Definition demo_products : list JSON :=
  [product "Pantene SS" "" ""; product "Coke" "" ""; product "Aloo Paratha" "" ""].

Definition demo_catalog : JSON :=
  JDict [("restaurant", JStr "Nath"); ("menu", JList demo_products);
         ("currency", JStr "INR")].

(** An answer that reorders the batch, leaves one product out and names one
    the catalog does not have. *)
Definition demo_service (batch : list JSON) : list JSON :=
  [result_entry "Coke" "Coca-Cola" "Cola soft drink (cold drink, soda)";
   result_entry "Lassi" "Sweet Lassi" "Yoghurt drink";
   result_entry "Pantene SS" "Pantene Smooth & Shine Shampoo" ""].

Definition demo_world : World :=
  mkWorld {["nath_menu.json" := demo_catalog]} None None
    (Some "===== BATCH 1 =====
Coca-Cola.jpg,https://cdn/Coca-Cola.jpeg
Aloo_Paratha_1.jpg,https://cdn/Aloo_Paratha_1.jpeg
").

(** The same workspace later on: both tracker files hold the name of a
    product of an earlier batch, and the ledger is gone. *)
Definition demo_world_resumed : World :=
  mkWorld {["nath_menu.json" := demo_catalog]}
    (Some "Masala Dosa
") (Some "Masala Dosa
") None.

(** A site with that catalog and nothing else, and an outside world in
    which every search finds one link, every download gives an image of
    100 by 80 pixels, and every save and upload succeeds. *)
Definition demo_site : PipelineRunner.Site :=
  PipelineRunner.mkSite (fresh_world {["nath_menu.json" := demo_catalog]})
    (ImageFetcher.mkFetcher (ImageFetcher.mkSession 0 0) 0 None).

Definition demo_listdir (site : PipelineRunner.Site) : option (list string) :=
  elements <$> ImageFetcher.product_image (PipelineRunner.images site).

Definition demo_main_cli (fuel : nat) (w : World) (st : ImageFetcher.Fetcher)
  : option (ImageFetcher.Fetcher * ImageFetcher.BatchRun) :=
  @ImageFetcher.main_cli _ synthetic_imaging (fun _ _ _ => ImageFetcher.SaveCompleted)
    Z Z.ltb (fun image => Z.min image.1 image.2) ["key-a"] "engine"
    (fun _ => ImageFetcher.Found ["https://img/1.jpg"]) (fun _ _ => Some (100, 80)%Z)
    true fuel w st.

Definition demo_run_pipeline (fuel : nat) (site : PipelineRunner.Site)
  : option (PipelineRunner.Site * PipelineRunner.Run) :=
  @PipelineRunner.run_pipeline _ synthetic_imaging EmptyString demo_service
    (fun _ _ _ => ImageFetcher.SaveCompleted)
    Z Z.ltb (fun image => Z.min image.1 image.2) ["key-a"] "engine"
    (fun _ => ImageFetcher.Found ["https://img/1.jpg"]) (fun _ _ => Some (100, 80)%Z)
    true "shop" "eu-north-1" "menu/" (fun _ => true) (fun _ => true) demo_listdir
    (fun _ => true) true (String.eqb "nath_menu.json") fuel None false false false site.

(** The catalog after the enrichment of that run, and the links of its
    upload. *)
Definition demo_enriched : World :=
  DescriptionWriter.main EmptyString demo_service "nath_menu.json" None
    (PipelineRunner.files demo_site).

Definition demo_links : dict string :=
  [("Coca-Cola.jpg", "https://shop.s3.eu-north-1.amazonaws.com/menu/Coca-Cola.jpeg");
   ("Pantene_Smooth__Shine_Shampoo.jpg",
    "https://shop.s3.eu-north-1.amazonaws.com/menu/Pantene_Smooth__Shine_Shampoo.jpeg")].

(* ===================================================================== *)
(** * Part II: the vocabulary of the statements                           *)
(* ===================================================================== *)

Section StringVocabulary.
Import PyStr.

(** [p] is a prefix of [s]. *)
Definition prefix_of (p s : string) : Prop := exists t, s = p +:+ t.

(** A text is terminated when it is empty or ends with a newline. *)
Fixpoint terminated (s : string) : bool :=
  match s with
  | EmptyString => true
  | String c EmptyString => Ascii.eqb c LF
  | String _ rest => terminated rest
  end.

(** A name that a line of a names file carries unchanged: not empty, no
    white space at either end, no line break inside. *)
Definition line_safe (n : string) : bool :=
  nonempty n && String.eqb (strip n) n
  && negb (contains_char LF n) && negb (contains_char CR n).

(** Every character of [s] passes the test [P]. *)
Fixpoint all_chars (P : ascii -> bool) (s : string) : bool :=
  match s with
  | EmptyString => true
  | String c s' => P c && all_chars P s'
  end.

(** The characters of the file names the fetcher makes up: letters and
    digits, [-] and [_] before the extension, and the dot of the
    extension. *)
Definition stem_char (c : ascii) : bool :=
  isalnum c || Ascii.eqb c "-" || Ascii.eqb c "_".

Definition filename_char (c : ascii) : bool :=
  stem_char c || Ascii.eqb c ".".

End StringVocabulary.

Section TrackerVocabulary.
Import PyStr DescriptionWriter.

(** The worlds the pipeline reaches from [w0]: a run of [main] enriches a
    batch; every other stage and the operator leave the two tracker files
    as they are (the replacement passes rewrite the catalog, the uploader
    and the tidy step rewrite the ledger). *)
Inductive reachable_from (w0 : World) : World -> Prop :=
  | reach_start : reachable_from w0 w0
  | reach_main (dummy : string) (service : list JSON -> list JSON)
      (input_filename : string) (batch_size : option Z) (w : World) :
      reachable_from w0 w ->
      reachable_from w0 (main dummy service input_filename batch_size w)
  | reach_other (w w' : World) :
      reachable_from w0 w ->
      processed_items_txt w' = processed_items_txt w ->
      image_batch_names_txt w' = image_batch_names_txt w ->
      reachable_from w0 w'.

(** The names a run of [main] is to record: when a batch is selected and
    the service answers, the names the apply step returns for the entries
    of the answer; otherwise none. *)
Definition names_to_record (service : list JSON -> list JSON)
    (input_filename : string) (batch_size : option Z) (w : World)
  : option (list string) :=
  let all_products := (load_products w input_filename).1 in
  match _select_next_batch w all_products (default BATCH_SIZE batch_size) with
  | [] => None
  | batch =>
      match service batch with
      | [] => None
      | results =>
          Some (enhanced_names (_apply_enhancements_to_products all_products results))
      end
  end.

(** Recording [names] in one step: the list is written, a name to a line,
    to [image_batch_names.txt], and the same lines are appended to
    [processed_items.txt].  Recording nothing: both files are left as they
    are. *)
Definition records (names : option (list string)) (w w' : World) : Prop :=
  match names with
  | Some names =>
      image_batch_names_txt w' = Some (write_lines names)
      /\ processed_items_txt w'
         = Some (default EmptyString (processed_items_txt w) +:+ write_lines names)
  | None =>
      processed_items_txt w' = processed_items_txt w
      /\ image_batch_names_txt w' = image_batch_names_txt w
  end.

(** What every run maintains: the durable file is terminated, and the names
    of the current batch are among the processed names. *)
Definition tracker_ok (w : World) : Prop :=
  terminated (default EmptyString (processed_items_txt w)) = true
  /\ Forall (fun n => n ∈ read_processed_names w) (read_batch_names w).

(** A product the selection may take: its stripped name is not empty and
    not among the processed names. *)
Definition eligible (processed : gset string) (p : JSON) : Prop :=
  strip (get_str p "name") <> EmptyString /\ strip (get_str p "name") ∉ processed.

#[export] Instance eligible_dec processed p : Decision (eligible processed p).
Proof. unfold eligible. apply _. Defined.

End TrackerVocabulary.

Section EnrichmentVocabulary.
Import PyStr DescriptionWriter.

(** The position of the first product of the catalog named [n]. *)
Fixpoint first_named (n : string) (ps : list JSON) : option nat :=
  match ps with
  | [] => None
  | p :: rest =>
      if String.eqb (get_str p "name") n then Some 0%nat
      else S <$> first_named n rest
  end.

(** The product a result entry is matched to: the first one whose name, as
    the step starts, equals the entry's [originalName]; an entry without an
    [originalName] is matched to none. *)
Definition matched (ps : list JSON) (item : JSON) : option nat :=
  let original := get_str item "originalName" in
  if nonempty original then first_named original ps else None.

(** What an entry overwrites in the product it is matched to. *)
Definition overwrite (item p : JSON) : JSON :=
  let p := if nonempty (get_str item "enhancedName")
           then set_str p "name" (get_str item "enhancedName") else p in
  if nonempty (get_str item "enhancedDescription")
  then set_str p "description" (get_str item "enhancedDescription") else p.

(** The name the batch carries on for the entry. *)
Definition canonical_name (item : JSON) : string :=
  if nonempty (get_str item "enhancedName") then get_str item "enhancedName"
  else get_str item "originalName".

(** The effect of one entry, told by name. *)
Definition apply_entry (ps : list JSON) (st : Applied) (item : JSON) : Applied :=
  match matched ps item with
  | None => st
  | Some i =>
      mkApplied (alter (overwrite item) i (products st)) (updated st + 1)
                (enhanced_names st ++ [canonical_name item])
  end.

(** Two loop states that differ at most in the order of the names. *)
Definition same_result (a b : Applied) : Prop :=
  products a = products b /\ updated a = updated b
  /\ enhanced_names a ≡ₚ enhanced_names b.

End EnrichmentVocabulary.

Section CompressorVocabulary.
Context {Image : Type} `{Imaging Image}.
Local Open Scope Z_scope.

(** The qualities the loop visits: 90, 85, ..., 25. *)
Definition on_grid (quality : Z) : Prop :=
  exists j : nat, (j <= 13)%nat /\ quality = 25 + 5 * Z.of_nat j.

(** The budget's floor: [small] is the image after [n] reductions of the
    dimensions, none of which took a side below one pixel. *)
Fixpoint downscaled (n : nat) (image : Image) : option Image :=
  match n with
  | O => Some image
  | S n =>
      match ImageFetcher.downscale image with
      | Some image => downscaled n image
      | None => None
      end
  end.

Import ImageUploader.

(** The qualities of a round of the uploader's loop: [first], then steps
    of 15, six in all (95, 80, ..., 20 before a reduction of the
    dimensions, 85, 70, ..., 10 after it). *)
Definition round_quality (first quality : Z) : Prop :=
  exists j : nat, (j <= 5)%nat /\ quality = first - 15 * Z.of_nat j.

(** The ways the uploader's compressor ends, as its messages name them, and
    what each returns of the image [start] it was given (after the change
    of mode).  The target size is achieved: the encoding is within the
    budget, and it is of [start] at a quality of the first round or of the
    0.8-fold downscale of [start] at a quality of the second.  The minimum
    quality is reached: the encoding is of the 0.8-fold downscale of
    [start], at quality 10, and too large; the dimensions were reduced
    once, and every quality of the first round was too large for [start].
    The image is too small to resize further: it is still [start], a side
    of it is below 125 pixels (0.8 times it is below 100), and its last
    encoding, at quality 20, is too large, though the quality returned
    is 10. *)
Definition documented (max_bytes : Z) (start : Image) (outcome : Outcome) : Prop :=
  match outcome with
  | Returned TargetMet image buffer_quality quality =>
      buffer_quality = quality /\ jpeg_bytes image quality <= max_bytes /\
      (image = start /\ round_quality 95 quality
       \/ ImageFetcher.downscale start = Some image /\ round_quality 85 quality)
  | Returned MinimumQuality image buffer_quality quality =>
      buffer_quality = 10 /\ quality = 10 /\ max_bytes < jpeg_bytes image 10 /\
      ImageFetcher.downscale start = Some image /\
      max_bytes < jpeg_bytes start 20
  | Returned TooSmall image buffer_quality quality =>
      image = start /\ buffer_quality = 20 /\ quality = 10 /\
      max_bytes < jpeg_bytes image buffer_quality /\
      Z.min (image_size image).1 (image_size image).2 < 125
  | Raised => False
  end.

End CompressorVocabulary.

Section LedgerVocabulary.
Import PyStr.

(** A well-formed ledger entry: a file name and a URL that are not empty,
    carry no white space at either end and no line break, the file name
    without a comma and not starting like a header line. *)
Definition ledger_entry_ok (entry : string * string) : Prop :=
  let '(filename, url) := entry in
  filename <> EmptyString /\ url <> EmptyString
  /\ strip filename = filename /\ strip url = url
  /\ contains_char "," filename = false
  /\ startswith filename "-" = false /\ startswith filename "=" = false
  /\ contains_char LF filename = false /\ contains_char CR filename = false
  /\ contains_char LF url = false /\ contains_char CR url = false.

(** The value of any field of a product, string or not. *)
Definition field (p : JSON) (key : string) : option JSON :=
  match p with
  | JDict members => dict_get members key
  | _ => None
  end.

(** The two failures [call_gemini_api_with_retry] reports by itself. *)
Definition own_error_report (response : JSON) : Prop :=
  response = DescriptionWriter.error_response "All API keys exhausted due to rate limits."
  \/ response = DescriptionWriter.error_response "API call failed after multiple retries.".

(** What a stage that rewrites the catalog [filename] is held to: the
    ledger and every other JSON file stay as they are, and the catalog
    keeps its wrapper key and its number of products. *)
Definition catalog_stage_ok (filename : string) (w w' : World) : Prop :=
  s3_upload_links_txt w' = s3_upload_links_txt w
  /\ (forall other, other <> filename -> json_files w' !! other = json_files w !! other)
  /\ length (DescriptionWriter.load_products w' filename).1
     = length (DescriptionWriter.load_products w filename).1
  /\ (DescriptionWriter.load_products w' filename).2
     = (DescriptionWriter.load_products w filename).2.

(** In the state [st] of the apply loop the product at index [i] bears a
    non-empty name that the loop has put on its list of names. *)
Definition recorded (st : DescriptionWriter.Applied) (i : nat) : Prop :=
  exists p, DescriptionWriter.products st !! i = Some p
            /\ get_str p "name" <> EmptyString
            /\ get_str p "name" ∈ DescriptionWriter.enhanced_names st.

(** The URL the lookup table of the replacement passes holds for the base
    [key]: that of the last ledger entry whose file name, without its
    extension and in lower case, is [key]. *)
Fixpoint ledger_url (links : dict string) (key : string) : option string :=
  match links with
  | [] => None
  | (filename, url) :: rest =>
      match ledger_url rest key with
      | Some later => Some later
      | None =>
          if String.eqb (PyStr.lower (PyStr.splitext filename).1) key then Some url
          else None
      end
  end.

(** The session of the search once every key that was left has failed:
    one request per key, and the key index one past the last key. *)
Definition run_out (API_KEYS : list string) (s : ImageFetcher.Session)
  : ImageFetcher.Session :=
  ImageFetcher.mkSession
    (Z.max (Z.of_nat (length API_KEYS)) (ImageFetcher.CURRENT_KEY_INDEX s))
    (ImageFetcher.requests s
     + Z.to_nat (Z.of_nat (length API_KEYS) - ImageFetcher.CURRENT_KEY_INDEX s)).

End LedgerVocabulary.

(* ===================================================================== *)
(** * Part III: properties                                                *)
(* ===================================================================== *)

(** ** Strings *)

Section StringFacts.
Import PyStr.

(** The built-ins on the inputs Python was run on. *)
Example strip_examples :
  strip "  Coke 500ml	" = "Coke 500ml" /\ strip "   " = EmptyString
  /\ lower "Pantene SS" = "pantene ss".
Proof. vm_compute. repeat split. Qed.

Example splitext_examples :
  splitext "Coca-Cola.jpg" = ("Coca-Cola", ".jpg")
  /\ splitext "foo.tar.gz" = ("foo.tar", ".gz")
  /\ splitext ".bashrc" = (".bashrc", EmptyString)
  /\ splitext "a.b/c" = ("a.b/c", EmptyString)
  /\ splitext "x/..a.jpg" = ("x/..a", ".jpg")
  /\ splitext "a." = ("a", ".")
  /\ splitext "..." = ("...", EmptyString).
Proof. vm_compute. repeat split. Qed.

Example file_lines_example :
  file_lines (String "a" (String CR (String "b" (String CR (String LF
                (String "c" (String LF (String LF (String "d" EmptyString)))))))))
  = [String "a" (String LF EmptyString); String "b" (String LF EmptyString);
     String "c" (String LF EmptyString); String LF EmptyString; "d"].
Proof. vm_compute. reflexivity. Qed.

Example stripped_lines_example :
  stripped_lines (write_lines ["Coke"; " Pepsi "; ""; "7 Up"])
  = ["Coke"; "Pepsi"; "7 Up"].
Proof. vm_compute. reflexivity. Qed.

Lemma startswith_spec (s p : string) : startswith s p = true <-> prefix_of p s.
Proof.
  revert s; induction p as [|a p IH]; intros s; simpl.
  - split; [intros _; exists s; reflexivity | intros _; reflexivity].
  - destruct s as [|b s].
    + split; [discriminate | intros [t Ht]; discriminate].
    + rewrite andb_true_iff, Ascii.eqb_eq, IH. split.
      * intros [-> [t ->]]. exists t. reflexivity.
      * intros [t Ht]. injection Ht as -> ->. split; [reflexivity | exists t; reflexivity].
Qed.

Lemma startswith_false (s p : string) : startswith s p = false <-> ~ prefix_of p s.
Proof. rewrite <- startswith_spec. destruct (startswith s p); intuition congruence. Qed.

Lemma append_cons (c : ascii) (s t : string) :
  String c s +:+ t = String c (s +:+ t).
Proof. reflexivity. Qed.

Lemma append_nil_l (t : string) : EmptyString +:+ t = t.
Proof. reflexivity. Qed.

Lemma append_assoc (s t u : string) : (s +:+ t) +:+ u = s +:+ (t +:+ u).
Proof. induction s as [|c s IH]; [reflexivity|]. rewrite !append_cons, IH. reflexivity. Qed.

Lemma rstrip_app_LF (s : string) : rstrip (s +:+ String LF EmptyString) = rstrip s.
Proof.
  induction s as [|c s IH]; [reflexivity|].
  rewrite append_cons. simpl. rewrite IH. reflexivity.
Qed.

(** The newline a line ends with is stripped with the rest of the white
    space. *)
Lemma strip_app_LF (s : string) : strip (s +:+ String LF EmptyString) = strip s.
Proof.
  unfold strip. induction s as [|c s IH]; [reflexivity|].
  rewrite append_cons. simpl. destruct (isspace c); [exact IH|].
  rewrite <- append_cons. apply rstrip_app_LF.
Qed.

Lemma rstrip_idem (s : string) : rstrip (rstrip s) = rstrip s.
Proof.
  induction s as [|c s IH]; [reflexivity|]. simpl.
  destruct (rstrip s) as [|c' r] eqn:Hr.
  - destruct (isspace c) eqn:Hc; [reflexivity|]. simpl. rewrite Hc. reflexivity.
  - simpl. simpl in IH. rewrite IH. reflexivity.
Qed.

Lemma lstrip_rstrip_head (s : string) :
  match rstrip (lstrip s) with
  | EmptyString => True
  | String c _ => isspace c = false
  end.
Proof.
  induction s as [|c s IH]; [exact I|]. simpl.
  destruct (isspace c) eqn:Hc; [exact IH|]. simpl.
  destruct (rstrip s); [rewrite Hc|]; exact Hc.
Qed.

(** Stripping twice strips once. *)
Lemma strip_idem (s : string) : strip (strip s) = strip s.
Proof.
  unfold strip. pose proof (lstrip_rstrip_head s) as Hhead.
  destruct (rstrip (lstrip s)) as [|c r] eqn:Hs; [reflexivity|].
  simpl lstrip. rewrite Hhead. rewrite <- Hs. apply rstrip_idem.
Qed.

Lemma terminated_cons (c : ascii) (s : string) :
  s <> EmptyString -> terminated (String c s) = terminated s.
Proof. destruct s; [contradiction | reflexivity]. Qed.

Lemma terminated_app (s t : string) :
  terminated s = true -> terminated t = true -> terminated (s +:+ t) = true.
Proof.
  intros Hs Ht. induction s as [|c s IH]; [exact Ht|].
  rewrite append_cons. destruct s as [|c' s].
  - simpl in Hs. rewrite append_nil_l. destruct t; [exact Hs | exact Ht].
  - rewrite append_cons, terminated_cons by discriminate.
    rewrite <- append_cons. apply IH. exact Hs.
Qed.

Lemma terminated_write_lines (names : list string) :
  terminated (write_lines names) = true.
Proof.
  induction names as [|n names IH]; [reflexivity|]. simpl.
  induction n as [|c n IHn].
  - rewrite append_nil_l, append_cons, append_nil_l.
    destruct (write_lines names); [reflexivity | exact IH].
  - rewrite append_cons, terminated_cons; [exact IHn|].
    destruct n; discriminate.
Qed.

Lemma universal_newlines_cons (c c' : ascii) (s : string) :
  universal_newlines (String c (String c' s))
  = if Ascii.eqb c CR
    then if Ascii.eqb c' LF then universal_newlines (String c' s)
         else String LF (universal_newlines (String c' s))
    else String c (universal_newlines (String c' s)).
Proof. reflexivity. Qed.

Lemma universal_newlines_nonempty (s : string) :
  s <> EmptyString -> universal_newlines s <> EmptyString.
Proof.
  induction s as [|c s IH]; [contradiction|]. intros _.
  destruct s as [|c' s].
  - simpl. destruct (Ascii.eqb c CR); discriminate.
  - rewrite universal_newlines_cons.
    destruct (Ascii.eqb c CR); [|discriminate].
    destruct (Ascii.eqb c' LF); [|discriminate]. apply IH. discriminate.
Qed.

Lemma universal_newlines_app (s t : string) :
  terminated s = true ->
  universal_newlines (s +:+ t) = universal_newlines s +:+ universal_newlines t.
Proof.
  induction s as [|c s IH]; intros Hs; [reflexivity|].
  destruct s as [|c' s].
  - simpl in Hs. apply Ascii.eqb_eq in Hs as ->. reflexivity.
  - rewrite terminated_cons in Hs by discriminate. specialize (IH Hs).
    change (String c (String c' s) +:+ t) with (String c (String c' (s +:+ t))).
    rewrite !universal_newlines_cons.
    change (String c' (s +:+ t)) with (String c' s +:+ t). rewrite IH.
    destruct (Ascii.eqb c CR); [destruct (Ascii.eqb c' LF)|]; reflexivity.
Qed.

Lemma terminated_universal_newlines (s : string) :
  terminated s = true -> terminated (universal_newlines s) = true.
Proof.
  induction s as [|c s IH]; intros Hs; [reflexivity|].
  destruct s as [|c' s].
  - simpl in Hs. apply Ascii.eqb_eq in Hs as ->. reflexivity.
  - rewrite terminated_cons in Hs by discriminate. specialize (IH Hs).
    rewrite universal_newlines_cons.
    assert (Hne : universal_newlines (String c' s) <> EmptyString)
      by (apply universal_newlines_nonempty; discriminate).
    destruct (Ascii.eqb c CR); [destruct (Ascii.eqb c' LF)|];
      rewrite ?terminated_cons by exact Hne; exact IH.
Qed.

Lemma split_keepends_nonempty (s : string) :
  s <> EmptyString -> split_keepends s <> [].
Proof.
  destruct s as [|c s]; [contradiction|]. intros _. simpl.
  destruct (Ascii.eqb c LF); [discriminate|].
  destruct (split_keepends s); discriminate.
Qed.

Lemma split_keepends_cons (c : ascii) (s : string) :
  split_keepends (String c s)
  = if Ascii.eqb c LF then String LF EmptyString :: split_keepends s
    else match split_keepends s with
         | [] => [String c EmptyString]
         | l :: ls => String c l :: ls
         end.
Proof. reflexivity. Qed.

Lemma split_keepends_app (s t : string) :
  terminated s = true ->
  split_keepends (s +:+ t) = split_keepends s ++ split_keepends t.
Proof.
  induction s as [|c s IH]; intros Hs; [reflexivity|].
  destruct s as [|c' s].
  - simpl in Hs. rewrite append_cons, append_nil_l. simpl. rewrite Hs. reflexivity.
  - rewrite terminated_cons in Hs by discriminate. specialize (IH Hs).
    rewrite append_cons, !(split_keepends_cons c), IH.
    destruct (Ascii.eqb c LF); [reflexivity|].
    pose proof (split_keepends_nonempty (String c' s)) as Hne.
    destruct (split_keepends (String c' s)) as [|l ls]; [|reflexivity].
    exfalso. apply Hne; [discriminate | reflexivity].
Qed.

(** Reading a text appended to a terminated one yields the lines of the
    first followed by the lines of the second. *)
Lemma stripped_lines_app (s t : string) :
  terminated s = true ->
  stripped_lines (s +:+ t) = stripped_lines s ++ stripped_lines t.
Proof.
  intros Hs. unfold stripped_lines, file_lines.
  rewrite universal_newlines_app by exact Hs.
  rewrite split_keepends_app by (apply terminated_universal_newlines, Hs).
  rewrite fmap_app, filter_app. reflexivity.
Qed.

Lemma contains_char_app (c : ascii) (s t : string) :
  contains_char c (s +:+ t) = contains_char c s || contains_char c t.
Proof.
  induction s as [|a s IH]; [reflexivity|].
  rewrite append_cons. simpl. rewrite IH, orb_assoc. reflexivity.
Qed.

Lemma universal_newlines_no_CR (s : string) :
  contains_char CR s = false -> universal_newlines s = s.
Proof.
  induction s as [|c s IH]; [reflexivity|]. simpl.
  intros [Hc Hs]%orb_false_elim. rewrite Hc, IH by exact Hs. reflexivity.
Qed.

Lemma split_keepends_no_LF (n : string) :
  contains_char LF n = false ->
  split_keepends (n +:+ String LF EmptyString) = [n +:+ String LF EmptyString].
Proof.
  induction n as [|c n IH]; [reflexivity|].
  rewrite append_cons, split_keepends_cons. simpl.
  intros [Hc Hn]%orb_false_elim. rewrite Hc, IH by exact Hn. reflexivity.
Qed.

Lemma terminated_line (n : string) : terminated (n +:+ String LF EmptyString) = true.
Proof.
  induction n as [|c n IH]; [reflexivity|].
  rewrite append_cons, terminated_cons; [exact IH|]. destruct n; discriminate.
Qed.

Lemma stripped_lines_line (n : string) :
  line_safe n = true -> stripped_lines (n +:+ String LF EmptyString) = [n].
Proof.
  unfold line_safe. rewrite !andb_true_iff, !negb_true_iff, String.eqb_eq.
  intros [[[Hne Hstrip] HLF] HCR]. unfold stripped_lines, file_lines.
  rewrite universal_newlines_no_CR
    by (rewrite contains_char_app, HCR; reflexivity).
  rewrite split_keepends_no_LF by exact HLF.
  simpl. rewrite strip_app_LF, Hstrip.
  rewrite filter_cons_True by exact Hne. reflexivity.
Qed.

Lemma stripped_lines_write_lines (names : list string) :
  Forall (fun n => line_safe n = true) names ->
  stripped_lines (write_lines names) = names.
Proof.
  induction 1 as [|n names Hn _ IH]; [reflexivity|]. simpl.
  rewrite <- append_assoc, stripped_lines_app by apply terminated_line.
  rewrite stripped_lines_line by exact Hn. rewrite IH. reflexivity.
Qed.

End StringFacts.

(** ** The name matcher *)

Section NameMatcher.
Import PyStr DescriptionWriter.

Example sanitize_examples :
  _sanitize_name_for_filename "Pantene SS" = "pantene_ss"
  /\ _sanitize_name_for_filename "Coca-Cola (500ml)! " = "coca-cola_500ml"
  /\ _sanitize_name_for_filename "?!" = EmptyString
  /\ _sanitize_name_for_filename "   " = EmptyString.
Proof. vm_compute. repeat split. Qed.

Example parse_links_example :
  parse_s3_links_file demo_world
  = [("Coca-Cola.jpg", "https://cdn/Coca-Cola.jpeg");
     ("Aloo_Paratha_1.jpg", "https://cdn/Aloo_Paratha_1.jpeg")]
  /\ base_to_url_of (parse_s3_links_file demo_world)
     = [("coca-cola", "https://cdn/Coca-Cola.jpeg");
        ("aloo_paratha_1", "https://cdn/Aloo_Paratha_1.jpeg")].
Proof. vm_compute. repeat split. Qed.

Lemma dict_get_elem_of {V : Type} (d : dict V) (k : string) (v : V) :
  dict_get d k = Some v -> (k, v) ∈ d.
Proof.
  induction d as [|[k' v'] d IH]; simpl; [discriminate|].
  destruct (String.eqb_spec k' k) as [->|Hne].
  - intros [= ->]. left.
  - intros H. right. auto.
Qed.

Lemma first_present_elem_of (d : dict string) (keys : list string) (url : string) :
  first_present d keys = Some url -> exists k, k ∈ keys /\ dict_get d k = Some url.
Proof.
  induction keys as [|k keys IH]; simpl; [discriminate|].
  destruct (dict_get d k) as [u|] eqn:Hk.
  - intros [= ->]. exists k. split; [left | assumption].
  - intros H. destruct (IH H) as (k' & Hin & Hget). exists k'. split; [right|]; assumption.
Qed.

(** The loop over [items()] returns the URL of the first entry that passes
    the test. *)
Lemma first_item_hit (test : string -> bool) (before after : dict string) b url :
  Forall (fun kv => test kv.1 = false) before -> test b = true ->
  first_item test (before ++ (b, url) :: after) = Some url.
Proof.
  induction 1 as [|[k v] before Hk _ IH]; simpl; intros Hb.
  - rewrite Hb. reflexivity.
  - simpl in Hk. rewrite Hk. auto.
Qed.

Lemma first_item_none (test : string -> bool) (items : dict string) :
  Forall (fun kv => test kv.1 = false) items -> first_item test items = None.
Proof. induction 1 as [|[k v] items Hk _ IH]; simpl; [reflexivity|]. simpl in Hk. rewrite Hk. exact IH. Qed.

(** A name none of whose characters is kept has the empty base. *)
Lemma sanitize_nothing_kept (name : string) :
  filter_chars keep_in_filename name = EmptyString ->
  _sanitize_name_for_filename name = EmptyString.
Proof. unfold _sanitize_name_for_filename. intros ->. reflexivity. Qed.

(** C4.  [_match_url_for_name] tries, in this order, and answers with the
    first hit: (a) the sanitized base itself, (b) the base followed by [_1],
    [_2], [_3], (c) the first ledger key the base is a prefix of, (d) the
    first ledger key that is a prefix of the base; with no hit it answers
    [None].  A product named "Pantene SS" is resolved by the key
    "pantene_ss_1" and is not resolved by the key "pantene_conditioner"
    alone. *)
Theorem match_url_rule_order (ledger : dict string) (name : string) :
  let base := _sanitize_name_for_filename name in
  let found := _match_url_for_name ledger name in
  let absent k := dict_get ledger k = None in
  (forall u, dict_get ledger base = Some u -> found = Some u) /\
  (forall u, absent base ->
     dict_get ledger (base +:+ "_1") = Some u -> found = Some u) /\
  (forall u, absent base -> absent (base +:+ "_1") ->
     dict_get ledger (base +:+ "_2") = Some u -> found = Some u) /\
  (forall u, absent base -> absent (base +:+ "_1") -> absent (base +:+ "_2") ->
     dict_get ledger (base +:+ "_3") = Some u -> found = Some u) /\
  (absent base -> absent (base +:+ "_1") -> absent (base +:+ "_2") ->
   absent (base +:+ "_3") ->
     (forall before b u after,
        ledger = before ++ (b, u) :: after ->
        Forall (fun kv => ~ prefix_of base kv.1) before ->
        prefix_of base b -> found = Some u) /\
     (Forall (fun kv => ~ prefix_of base kv.1) ledger ->
        (forall before b u after,
           ledger = before ++ (b, u) :: after ->
           Forall (fun kv => ~ prefix_of kv.1 base) before ->
           prefix_of b base -> found = Some u) /\
        (Forall (fun kv => ~ prefix_of kv.1 base) ledger -> found = None))) /\
  (forall u, _match_url_for_name [("pantene_ss_1", u)] "Pantene SS" = Some u) /\
  (forall u, _match_url_for_name [("pantene_conditioner", u)] "Pantene SS" = None).
Proof.
  intros base found absent. subst found absent. unfold _match_url_for_name.
  fold base. simpl first_present.
  split_and!.
  - intros u ->. reflexivity.
  - intros u -> ->. reflexivity.
  - intros u -> -> ->. reflexivity.
  - intros u -> -> -> ->. reflexivity.
  - intros -> -> -> ->. split; [|intros Hnone; split].
    + intros before b u after -> Hbefore Hb.
      rewrite (first_item_hit (fun b => startswith b base) before after b u);
        [reflexivity| |].
      * eapply Forall_impl; [exact Hbefore|]. intros kv. apply startswith_false.
      * apply startswith_spec, Hb.
    + intros before b u after Hledger Hbefore Hb.
      rewrite (first_item_none (fun b => startswith b base)).
      * rewrite Hledger.
        rewrite (first_item_hit (fun b => startswith base b) before after b u);
          [reflexivity| |].
        -- eapply Forall_impl; [exact Hbefore|]. intros kv. apply startswith_false.
        -- apply startswith_spec, Hb.
      * eapply Forall_impl; [exact Hnone|]. intros kv. apply startswith_false.
    + intros Hnone'.
      rewrite (first_item_none (fun b => startswith b base)).
      * apply first_item_none. eapply Forall_impl; [exact Hnone'|].
        intros kv. apply startswith_false.
      * eapply Forall_impl; [exact Hnone|]. intros kv. apply startswith_false.
  - intros u. vm_compute. reflexivity.
  - intros u. vm_compute. reflexivity.
Qed.

(** C10.  When the name sanitizes to the empty base and the ledger has an
    entry, the matcher answers with the URL of one of the ledger's entries:
    one stored under the empty key or under [_1], [_2], [_3], or else the
    first entry, of whose key the empty base is a prefix. *)
Theorem match_url_empty_base (ledger : dict string) (name : string) :
  _sanitize_name_for_filename name = EmptyString ->
  ledger <> [] ->
  exists key url,
    (key, url) ∈ ledger /\ _match_url_for_name ledger name = Some url.
Proof.
  intros Hbase Hledger. unfold _match_url_for_name. rewrite Hbase.
  destruct (first_present ledger _) as [url|] eqn:Hfirst.
  - destruct (first_present_elem_of _ _ _ Hfirst) as (k & _ & Hget).
    exists k, url. split; [apply dict_get_elem_of, Hget | reflexivity].
  - destruct ledger as [|[b url] rest]; [contradiction|].
    exists b, url. split; [left|]. simpl. reflexivity.
Qed.

Lemma match_url_empty_base_witness :
  exists key url,
    (key, url) ∈ [("coke", "https://cdn/coke.jpeg"); ("pepsi", "https://cdn/pepsi.jpeg")]
    /\ _match_url_for_name
         [("coke", "https://cdn/coke.jpeg"); ("pepsi", "https://cdn/pepsi.jpeg")]
         "?!" = Some url.
Proof.
  apply (match_url_empty_base
           [("coke", "https://cdn/coke.jpeg"); ("pepsi", "https://cdn/pepsi.jpeg")] "?!").
  - reflexivity.
  - discriminate.
Defined.

End NameMatcher.

(** ** The image compressors *)

Section FetcherCompressor.
Context {Image : Type} `{Imaging Image}.
Import ImageFetcher.
Local Open Scope Z_scope.

Lemma on_grid_90 : on_grid 90.
Proof. exists 13%nat. split; [lia | reflexivity]. Qed.

Lemma on_grid_80 : on_grid 80.
Proof. exists 11%nat. split; [lia | reflexivity]. Qed.

Lemma on_grid_range q : on_grid q -> 25 <= q <= 90.
Proof. intros (j & Hj & ->). lia. Qed.

Lemma on_grid_down q : on_grid q -> 25 < q -> on_grid (q - 5).
Proof.
  intros (j & Hj & ->) Hq. destruct j as [|j]; [lia|].
  exists j. split; lia.
Qed.

(** The three ways a pass through the loop body can go for a quality on the
    grid; neither of the branches guarded by [quality <= 10] is among them. *)
Lemma iteration_cases (max_bytes : Z) (image : Image) (q : Z) :
  on_grid q ->
  (jpeg_bytes image q <= max_bytes /\
   iteration max_bytes image q = Break BudgetMet image q)
  \/ (max_bytes < jpeg_bytes image q /\ 25 < q /\
      iteration max_bytes image q = Continue image (q - 5))
  \/ (max_bytes < jpeg_bytes image q /\ q = 25 /\
      iteration max_bytes image q =
        match downscale image with
        | Some image' => Continue image' 80
        | None => Raise
        end).
Proof.
  intros Hq. apply on_grid_range in Hq. unfold iteration, downscale.
  destruct (Z.leb_spec (jpeg_bytes image q) max_bytes) as [Hfit|Hover].
  - left. split; [assumption | reflexivity].
  - right. destruct (Z.ltb_spec 25 q) as [Hhigh|Hlow].
    + left. repeat split; assumption.
    + right. assert (q = 25) as -> by lia. split; [assumption|]. split; [reflexivity|].
      destruct (image_size image) as [width height].
      rewrite andb_false_r.
      destruct (resize image (width * 4 / 5) (height * 4 / 5)); reflexivity.
Qed.

Lemma loop_safe (max_bytes : Z) (fuel : nat) :
  forall image q exit image' q',
    on_grid q ->
    loop fuel max_bytes image q = Some (Returned exit image' q') ->
    exit = BudgetMet /\ on_grid q' /\ jpeg_bytes image' q' <= max_bytes.
Proof.
  induction fuel as [|fuel IH]; intros image q exit image' q' Hq; simpl; [discriminate|].
  destruct (iteration_cases max_bytes image q Hq)
    as [[Hfit ->]|[(Hover & Hhigh & ->)|(Hover & -> & ->)]].
  - intros [= <- <- <-]. auto.
  - apply IH, on_grid_down; assumption.
  - destruct (downscale image) as [smaller|]; [|discriminate].
    apply IH, on_grid_80.
Qed.

(** Stepping the quality down at one size: within [j + 1] passes from
    quality [25 + 5 j] the loop has met the budget, or has found every
    quality down to 25 too large and turns to the dimensions. *)
Lemma quality_descent (max_bytes : Z) (image : Image) (j : nat) :
  (j <= 13)%nat ->
  (exists q', on_grid q' /\ jpeg_bytes image q' <= max_bytes /\
     forall fuel,
       loop (S j + fuel) max_bytes image (25 + 5 * Z.of_nat j)
       = Some (Returned BudgetMet image q'))
  \/ (max_bytes < jpeg_bytes image 25 /\
      forall fuel,
        loop (S j + fuel) max_bytes image (25 + 5 * Z.of_nat j)
        = match downscale image with
          | Some image' => loop fuel max_bytes image' 80
          | None => Some Raised
          end).
Proof.
  induction j as [|j IH]; intros Hj.
  - assert (Hgrid : on_grid (25 + 5 * Z.of_nat 0)) by (exists 0%nat; split; [lia|reflexivity]).
    destruct (iteration_cases max_bytes image _ Hgrid)
      as [[Hfit Hit]|[(Hover & Hhigh & Hit)|(Hover & _ & Hit)]].
    + left. eexists. split; [exact Hgrid|]. split; [exact Hfit|].
      intros fuel. cbn [loop Nat.add]. rewrite Hit. reflexivity.
    + simpl in Hhigh. lia.
    + right. split; [exact Hover|]. intros fuel. cbn [loop Nat.add]. rewrite Hit.
      destruct (downscale image); reflexivity.
  - assert (Hgrid : on_grid (25 + 5 * Z.of_nat (S j))) by (exists (S j); split; [lia|reflexivity]).
    destruct (iteration_cases max_bytes image _ Hgrid)
      as [[Hfit Hit]|[(Hover & Hhigh & Hit)|(Hover & Heq & Hit)]].
    + left. eexists. split; [exact Hgrid|]. split; [exact Hfit|].
      intros fuel. cbn [loop Nat.add]. rewrite Hit. reflexivity.
    + replace (25 + 5 * Z.of_nat (S j) - 5) with (25 + 5 * Z.of_nat j) in Hit by lia.
      destruct IH as [(q' & Hq' & Hfit & Hrun)|[Hover' Hrun]]; [lia| |].
      * left. exists q'. split; [exact Hq'|]. split; [exact Hfit|].
        intros fuel. change (S (S j) + fuel)%nat with (S (S j + fuel)).
        cbn [loop]. rewrite Hit. apply Hrun.
      * right. split; [exact Hover'|].
        intros fuel. change (S (S j) + fuel)%nat with (S (S j + fuel)).
        cbn [loop]. rewrite Hit. apply Hrun.
    + lia.
Qed.

(** With a budget at or above the size of such a downscale at quality 25,
    the loop returns an encoding within the budget, of the image or of one
    of its downscales up to that one. *)
Lemma fetcher_meets_floor (max_bytes : Z) (n : nat) :
  forall image q small,
    on_grid q ->
    downscaled n image = Some small ->
    jpeg_bytes small 25 <= max_bytes ->
    exists (k : nat) image' q',
      (k <= n)%nat /\ downscaled k image = Some image' /\
      on_grid q' /\ jpeg_bytes image' q' <= max_bytes /\
      forall fuel, (14 * (n + 1) <= fuel)%nat ->
        loop fuel max_bytes image q = Some (Returned BudgetMet image' q').
Proof.
  induction n as [|n IH]; intros image q small (j & Hj & ->) Hsmall Hfloor.
  - injection Hsmall as ->.
    destruct (quality_descent max_bytes small j Hj)
      as [(q' & Hq' & Hfit & Hrun)|[Hover _]]; [|lia].
    exists 0%nat, small, q'. split_and!; [lia | reflexivity | exact Hq' | exact Hfit |].
    intros fuel Hfuel. replace fuel with (S j + (fuel - S j))%nat by lia. apply Hrun.
  - simpl in Hsmall. destruct (downscale image) as [image1|] eqn:Hdown; [|discriminate].
    destruct (quality_descent max_bytes image j Hj)
      as [(q' & Hq' & Hfit & Hrun)|[Hover Hrun]].
    + exists 0%nat, image, q'. split_and!; [lia | reflexivity | exact Hq' | exact Hfit |].
      intros fuel Hfuel. replace fuel with (S j + (fuel - S j))%nat by lia. apply Hrun.
    + destruct (IH image1 80 small on_grid_80 Hsmall Hfloor)
        as (k & image' & q' & Hk & Hscaled & Hq' & Hfit & Hrest).
      exists (S k), image', q'. split_and!; [lia | | exact Hq' | exact Hfit |].
      { simpl. rewrite Hdown. exact Hscaled. }
      intros fuel Hfuel. replace fuel with (S j + (fuel - S j))%nat by lia.
      rewrite Hrun, Hdown. apply Hrest. lia.
Qed.

Section Halting.

(** Resizing gives an image of the size asked for. *)
Hypothesis lanczos_size :
  forall (image : Image) (w h : Z), image_size (lanczos image w h) = (w, h).

Lemma downscale_shrinks (image image' : Image) :
  downscale image = Some image' ->
  1 <= (image_size image').1 < (image_size image).1.
Proof.
  unfold downscale, resize. destruct (image_size image) as [w h] eqn:Hsize.
  destruct (Z.ltb_spec (w * 4 / 5) 1); [discriminate|]. simpl.
  destruct (Z.ltb_spec (h * 4 / 5) 1); [discriminate|]. simpl.
  intros [= <-]. rewrite lanczos_size. simpl.
  Z.div_mod_to_equations. lia.
Qed.

(** The loop always comes to an end: it returns, or the resize raises once
    a side would shrink to nothing. *)
Lemma fetcher_halts (max_bytes : Z) (n : nat) :
  forall image q,
    on_grid q ->
    (Z.to_nat (image_size image).1 <= n)%nat ->
    exists outcome,
      forall fuel, (14 * (n + 1) <= fuel)%nat ->
        loop fuel max_bytes image q = Some outcome.
Proof.
  induction n as [|n IH]; intros image q (j & Hj & ->) Hwidth.
  - destruct (quality_descent max_bytes image j Hj)
      as [(q' & Hq' & Hfit & Hrun)|[Hover Hrun]].
    + eexists. intros fuel Hfuel.
      replace fuel with (S j + (fuel - S j))%nat by lia. apply Hrun.
    + destruct (downscale image) as [image1|] eqn:Hdown.
      * apply downscale_shrinks in Hdown. lia.
      * exists Raised. intros fuel Hfuel.
        replace fuel with (S j + (fuel - S j))%nat by lia. apply Hrun.
  - destruct (quality_descent max_bytes image j Hj)
      as [(q' & Hq' & Hfit & Hrun)|[Hover Hrun]].
    + eexists. intros fuel Hfuel.
      replace fuel with (S j + (fuel - S j))%nat by lia. apply Hrun.
    + destruct (downscale image) as [image1|] eqn:Hdown.
      * destruct (IH image1 80 on_grid_80) as [outcome Hrest].
        { apply downscale_shrinks in Hdown. lia. }
        exists outcome. intros fuel Hfuel.
        replace fuel with (S j + (fuel - S j))%nat by lia.
        rewrite Hrun. apply Hrest. lia.
      * exists Raised. intros fuel Hfuel.
        replace fuel with (S j + (fuel - S j))%nat by lia. apply Hrun.
Qed.

(** X2.  The fetcher's compressor always ends: it returns, or the imaging
    library refuses a resize to a side of zero pixels. *)
Lemma fetcher_terminates (image : Image) (max_kb : Z) :
  exists outcome,
    forall fuel,
      (14 * (Z.to_nat (image_size (normalize_mode image)).1 + 1) <= fuel)%nat ->
      resize_image_for_size fuel image max_kb = Some outcome.
Proof.
  unfold resize_image_for_size.
  apply fetcher_halts; [apply on_grid_90 | reflexivity].
Qed.

End Halting.

(** C9.  Whatever the image and the budget, when the fetcher's compressor
    returns, the quality it returns is at least 25 (one of 90, 85, ..., 25),
    and it left the loop through the branch that met the byte budget: the
    two stops guarded by [quality <= 10] are never taken. *)
Theorem fetcher_quality_floor (fuel : nat) (image : Image) (max_kb : Z)
    (exit : Exit) (image' : Image) (quality : Z) :
  resize_image_for_size fuel image max_kb = Some (Returned exit image' quality) ->
  25 <= quality /\ on_grid quality /\ exit = BudgetMet
  /\ jpeg_bytes image' quality <= max_kb * 1024.
Proof.
  unfold resize_image_for_size. intros Hrun.
  destruct (loop_safe _ _ _ _ _ _ _ on_grid_90 Hrun) as (-> & Hgrid & Hfit).
  pose proof (on_grid_range _ Hgrid). auto with lia.
Qed.

End FetcherCompressor.

Lemma fetcher_terminates_witness :
  exists outcome,
    forall fuel,
      (14 * (Z.to_nat (@image_size _ synthetic_imaging
                         (@normalize_mode _ synthetic_imaging (3, 3)%Z)).1 + 1) <= fuel)%nat ->
      @ImageFetcher.resize_image_for_size _ synthetic_imaging fuel (3, 3)%Z 0 = Some outcome.
Proof.
  apply (@fetcher_terminates _ synthetic_imaging (fun _ _ _ => eq_refl) (3, 3)%Z 0%Z).
Defined.

Example fetcher_raises :
  @ImageFetcher.resize_image_for_size _ synthetic_imaging 56 (3, 3)%Z 0
  = Some ImageFetcher.Raised.
Proof. vm_compute. reflexivity. Qed.

Lemma fetcher_quality_floor_witness :
  (25 <= 35 /\ on_grid 35 /\ ImageFetcher.BudgetMet = ImageFetcher.BudgetMet
   /\ synthetic_jpeg_bytes (327, 261) 35 <= 30 * 1024)%Z.
Proof.
  apply (@fetcher_quality_floor (Z * Z) synthetic_imaging 100 (1000, 800) 30
           ImageFetcher.BudgetMet (327, 261) 35)%Z.
  vm_compute. reflexivity.
Defined.

Section UploaderCompressor.
Context {Image : Type} `{Imaging Image}.
Import ImageUploader.
Local Open Scope Z_scope.

Lemma uploader_more_fuel (max_bytes : Z) (fuel extra : nat) :
  forall image q outcome,
    loop fuel max_bytes image q = Some outcome ->
    loop (fuel + extra) max_bytes image q = Some outcome.
Proof.
  induction fuel as [|fuel IH]; intros image q outcome; simpl; [discriminate|].
  destruct (iteration max_bytes image q); auto.
Qed.

(** One pass at a quality above the floor whose successor is not below it. *)
Lemma uploader_pass (max_bytes : Z) (image : Image) (q : Z) (fuel : nat) :
  25 <= q ->
  (jpeg_bytes image q <= max_bytes /\
   loop (S fuel) max_bytes image q = Some (Returned TargetMet image q q))
  \/ (max_bytes < jpeg_bytes image q /\
      loop (S fuel) max_bytes image q = loop fuel max_bytes image (q - 15)).
Proof.
  intros Hq. cbn [loop]. unfold iteration.
  destruct (Z.leb_spec (jpeg_bytes image q) max_bytes) as [Hfit|Hover].
  - left. split; [exact Hfit | reflexivity].
  - right. split; [exact Hover|].
    destruct (Z.leb_spec q 10); [lia|]. destruct (Z.ltb_spec (q - 15) 10); [lia|].
    reflexivity.
Qed.

(** The pass at quality 10. *)
Lemma uploader_last_pass (max_bytes : Z) (image : Image) (fuel : nat) :
  exists outcome,
    loop (S fuel) max_bytes image 10 = Some outcome /\
    (outcome = Returned TargetMet image 10 10 /\ jpeg_bytes image 10 <= max_bytes
     \/ outcome = Returned MinimumQuality image 10 10 /\ max_bytes < jpeg_bytes image 10).
Proof.
  cbn [loop]. unfold iteration.
  destruct (Z.leb_spec (jpeg_bytes image 10) max_bytes) as [Hfit|Hover];
    eexists; (split; [reflexivity|]); [left | right]; auto.
Qed.

Lemma round_quality_at (first : Z) (j : nat) :
  (j <= 5)%nat -> round_quality first (first - 15 * Z.of_nat j).
Proof. intros Hj. exists j. split; [exact Hj | reflexivity]. Qed.

(** After a reduction of the dimensions the quality goes 85, 70, ..., 10 and
    the loop ends there at the latest, on the downscaled image. *)
Lemma uploader_second_round (max_bytes : Z) (start image : Image) :
  ImageFetcher.downscale start = Some image ->
  max_bytes < jpeg_bytes start 20 ->
  exists outcome,
    loop 6 max_bytes image 85 = Some outcome /\ documented max_bytes start outcome.
Proof.
  intros Hdown Hfirst.
  destruct (uploader_pass max_bytes image 85 5) as [[Hfit ->]|[_ ->]]; [lia| |].
  { eexists. split; [reflexivity|]. simpl. split_and!; auto.
    right. split; [exact Hdown | apply (round_quality_at 85 0); lia]. }
  destruct (uploader_pass max_bytes image (85 - 15) 4) as [[Hfit ->]|[_ ->]]; [lia| |].
  { eexists. split; [reflexivity|]. simpl. split_and!; auto.
    right. split; [exact Hdown | apply (round_quality_at 85 1); lia]. }
  destruct (uploader_pass max_bytes image (85 - 15 - 15) 3) as [[Hfit ->]|[_ ->]]; [lia| |].
  { eexists. split; [reflexivity|]. simpl. split_and!; auto.
    right. split; [exact Hdown | apply (round_quality_at 85 2); lia]. }
  destruct (uploader_pass max_bytes image (85 - 15 - 15 - 15) 2) as [[Hfit ->]|[_ ->]]; [lia| |].
  { eexists. split; [reflexivity|]. simpl. split_and!; auto.
    right. split; [exact Hdown | apply (round_quality_at 85 3); lia]. }
  destruct (uploader_pass max_bytes image (85 - 15 - 15 - 15 - 15) 1) as [[Hfit ->]|[_ ->]]; [lia| |].
  { eexists. split; [reflexivity|]. simpl. split_and!; auto.
    right. split; [exact Hdown | apply (round_quality_at 85 4); lia]. }
  change (85 - 15 - 15 - 15 - 15 - 15) with 10.
  destruct (uploader_last_pass max_bytes image 0) as (outcome & -> & [[-> Hfit]|[-> Hover]]);
    eexists; (split; [reflexivity|]); simpl; split_and!; auto.
  right. split; [exact Hdown | apply (round_quality_at 85 5); lia].
Qed.

(** The pass at quality 20, the last of the first round: it ends the loop,
    or reduces the dimensions and starts the second round at 85. *)
Lemma uploader_turn (max_bytes : Z) (image : Image) (fuel : nat) :
  (exists outcome,
     loop (S fuel) max_bytes image 20 = Some outcome /\ documented max_bytes image outcome)
  \/ (max_bytes < jpeg_bytes image 20 /\
      exists smaller,
        ImageFetcher.downscale image = Some smaller /\
        loop (S fuel) max_bytes image 20 = loop fuel max_bytes smaller 85).
Proof.
  cbn [loop]. unfold iteration, ImageFetcher.downscale.
  destruct (Z.leb_spec (jpeg_bytes image 20) max_bytes) as [Hfit|Hover].
  { left. eexists. split; [reflexivity|]. simpl. split_and!; auto.
    left. split; [reflexivity | apply (round_quality_at 95 5); lia]. }
  change (20 <=? 10) with false. change (20 - 15 <? 10) with true. cbv iota.
  destruct (image_size image) as [width height] eqn:Hsize.
  destruct (Z.ltb_spec (width * 4) 500) as [Hw|Hw]; simpl orb.
  { left. eexists. split; [reflexivity|]. simpl. rewrite Hsize. simpl. repeat split; auto; lia. }
  destruct (Z.ltb_spec (height * 4) 500) as [Hh|Hh].
  { left. eexists. split; [reflexivity|]. simpl. rewrite Hsize. simpl. repeat split; auto; lia. }
  right. split; [exact Hover|]. unfold resize.
  destruct (Z.ltb_spec (width * 4 / 5) 1) as [Hbad|_].
  { exfalso. revert Hbad. Z.div_mod_to_equations. lia. }
  destruct (Z.ltb_spec (height * 4 / 5) 1) as [Hbad|_].
  { exfalso. revert Hbad. Z.div_mod_to_equations. lia. }
  simpl. eexists. split; reflexivity.
Qed.

(** The uploader's compressor ends within twelve passes, in one of the
    documented ways. *)
Lemma uploader_documented_outcome (image : Image) (max_kb : Z) :
  exists outcome,
    documented (max_kb * 1024) (normalize_mode image) outcome /\
    forall fuel, (12 <= fuel)%nat ->
      resize_image_for_size fuel image max_kb = Some outcome.
Proof.
  unfold resize_image_for_size.
  set (start := normalize_mode image). set (max_bytes := max_kb * 1024).
  assert (exists outcome, documented max_bytes start outcome /\
            loop 12 max_bytes start 95 = Some outcome) as (outcome & Hdoc & Hrun).
  { destruct (uploader_pass max_bytes start 95 11) as [[Hfit ->]|[_ ->]]; [lia| |].
    { eexists. split; [|reflexivity]. simpl. split_and!; auto.
      left. split; [reflexivity | apply (round_quality_at 95 0); lia]. }
    destruct (uploader_pass max_bytes start (95 - 15) 10) as [[Hfit ->]|[_ ->]]; [lia| |].
    { eexists. split; [|reflexivity]. simpl. split_and!; auto.
      left. split; [reflexivity | apply (round_quality_at 95 1); lia]. }
    destruct (uploader_pass max_bytes start (95 - 15 - 15) 9) as [[Hfit ->]|[_ ->]]; [lia| |].
    { eexists. split; [|reflexivity]. simpl. split_and!; auto.
      left. split; [reflexivity | apply (round_quality_at 95 2); lia]. }
    destruct (uploader_pass max_bytes start (95 - 15 - 15 - 15) 8) as [[Hfit ->]|[_ ->]]; [lia| |].
    { eexists. split; [|reflexivity]. simpl. split_and!; auto.
      left. split; [reflexivity | apply (round_quality_at 95 3); lia]. }
    destruct (uploader_pass max_bytes start (95 - 15 - 15 - 15 - 15) 7) as [[Hfit ->]|[_ ->]]; [lia| |].
    { eexists. split; [|reflexivity]. simpl. split_and!; auto.
      left. split; [reflexivity | apply (round_quality_at 95 4); lia]. }
    change (95 - 15 - 15 - 15 - 15 - 15) with 20.
    destruct (uploader_turn max_bytes start 6)
      as [(outcome & -> & Hdoc)|(Hfirst & smaller & Hdown & ->)].
    { exists outcome. split; [exact Hdoc | reflexivity]. }
    destruct (uploader_second_round max_bytes start smaller Hdown Hfirst)
      as (outcome & -> & Hdoc).
    exists outcome. split; [exact Hdoc | reflexivity]. }
  exists outcome. split; [exact Hdoc|].
  intros fuel Hfuel. replace fuel with (12 + (fuel - 12))%nat by lia.
  apply uploader_more_fuel, Hrun.
Qed.

End UploaderCompressor.

Section CompressToBudget.
Context {Image : Type} `{Imaging Image}.
Local Open Scope Z_scope.

(** C1, as amended.  Take a budget at or above the floor of the image: the
    size, at quality 25, of one of its 0.8-fold downscales whose sides are
    still at least one pixel.  Then both compressors return.  The uploader's
    returns, within twelve passes, an encoding within the budget (of the
    image at one of the qualities 95, 80, ..., 20, or of its 0.8-fold
    downscale at one of 85, 70, ..., 10), or one of its two documented
    oversized results: minimum quality reached (the encoding at quality 10
    of the 0.8-fold downscale of the image, taken after that single
    reduction whatever the dimensions) or too small to resize further (the
    image itself, a side of it below 125 pixels, last encoded at quality
    20).  The fetcher's returns an encoding within the budget, of the image
    or of one of its downscales up to the one of the floor, at one of the
    qualities 90, 85, ..., 25. *)
Theorem compress_to_budget_ends (image : Image) (max_kb : Z) (n : nat) (small : Image) :
  downscaled n (normalize_mode image) = Some small ->
  jpeg_bytes small 25 <= max_kb * 1024 ->
  (exists outcome,
     documented (max_kb * 1024) (normalize_mode image) outcome /\
     forall fuel, (12 <= fuel)%nat ->
       ImageUploader.resize_image_for_size fuel image max_kb = Some outcome)
  /\
  (exists (k : nat) image' quality,
     (k <= n)%nat /\ downscaled k (normalize_mode image) = Some image' /\
     on_grid quality /\
     jpeg_bytes image' quality <= max_kb * 1024 /\
     forall fuel, (14 * (n + 1) <= fuel)%nat ->
       ImageFetcher.resize_image_for_size fuel image max_kb
       = Some (ImageFetcher.Returned ImageFetcher.BudgetMet image' quality)).
Proof.
  intros Hsmall Hfloor. split.
  - apply uploader_documented_outcome.
  - destruct (fetcher_meets_floor (max_kb * 1024) n (normalize_mode image) 90 small
                on_grid_90 Hsmall Hfloor) as (k & image' & q' & Hk & Hscaled & Hq' & Hfit & Hrun).
    exists k, image', q'. split_and!; [exact Hk | exact Hscaled | exact Hq' | exact Hfit | exact Hrun].
Qed.

End CompressToBudget.

Lemma compress_to_budget_ends_witness :
  (exists outcome,
     @documented _ synthetic_imaging (30 * 1024) (1000, 800)%Z outcome /\
     forall fuel, (12 <= fuel)%nat ->
       @ImageUploader.resize_image_for_size _ synthetic_imaging fuel (1000, 800)%Z 30
       = Some outcome)
  /\
  (exists (k : nat) image' quality,
     (k <= 5)%nat /\ @downscaled _ synthetic_imaging k (1000, 800)%Z = Some image' /\
     on_grid quality /\
     (synthetic_jpeg_bytes image' quality <= 30 * 1024)%Z /\
     forall fuel, (14 * (5 + 1) <= fuel)%nat ->
       @ImageFetcher.resize_image_for_size _ synthetic_imaging fuel (1000, 800)%Z 30
       = Some (ImageFetcher.Returned ImageFetcher.BudgetMet image' quality)).
Proof.
  apply (@compress_to_budget_ends _ synthetic_imaging (1000, 800)%Z 30%Z 5%nat (327, 261)%Z).
  - vm_compute. reflexivity.
  - vm_compute. discriminate.
Defined.

(** C1 as stated fails for the uploader.  On a 4000 x 3000 image and a
    budget of 30 KB, which is above the floor of that image, its compressor
    stops at "minimum quality reached" after a single reduction of the
    dimensions: the encoding it returns is larger than the budget although
    the smaller side, 2400 pixels, is far above the minimum. *)
Lemma compress_to_budget_counterexample :
  (@downscaled _ synthetic_imaging 11 (4000, 3000) = Some (342, 256)
   /\ synthetic_jpeg_bytes (342, 256) 25 <= 30 * 1024
   /\ @ImageUploader.resize_image_for_size _ synthetic_imaging 12 (4000, 3000) 30
      = Some (ImageUploader.Returned ImageUploader.MinimumQuality (3200, 2400) 10 10)
   /\ 30 * 1024 < synthetic_jpeg_bytes (3200, 2400) 10
   /\ 125 <= Z.min 3200 2400)%Z.
Proof. vm_compute. repeat split; discriminate. Qed.

(** ** The progress tracker *)

Section ProgressTracker.
Import PyStr DescriptionWriter.

(** C6, as amended.  Recording a batch of names and reading the current
    batch back returns the names, in order, provided every name is one a
    line of the file carries unchanged: not empty, free of white space at
    both ends and of line breaks. *)
Theorem record_batch_roundtrip (w : World) (names : list string) :
  Forall (fun n => line_safe n = true) names ->
  read_batch_names (append_processed_names names (write_batch_names names w))
  = names.
Proof. intros Hnames. unfold read_batch_names. simpl. apply stripped_lines_write_lines, Hnames. Qed.

Lemma record_batch_roundtrip_witness :
  read_batch_names
    (append_processed_names ["Pantene Smooth & Shine Shampoo"; "Coca-Cola 500ml"]
       (write_batch_names ["Pantene Smooth & Shine Shampoo"; "Coca-Cola 500ml"]
          (fresh_world ∅)))
  = ["Pantene Smooth & Shine Shampoo"; "Coca-Cola 500ml"].
Proof.
  apply (record_batch_roundtrip (fresh_world ∅)
           ["Pantene Smooth & Shine Shampoo"; "Coca-Cola 500ml"]).
  repeat constructor.
Defined.

(** C6 as stated fails: a name with a leading blank is read back without
    it. *)
Lemma record_batch_roundtrip_counterexample :
  read_batch_names
    (append_processed_names [" Coke"] (write_batch_names [" Coke"] (fresh_world ∅)))
  = ["Coke"]
  /\ ["Coke"] <> [" Coke"].
Proof. split; [vm_compute; reflexivity | discriminate]. Qed.

Lemma save_products_tracker (w : World) filename products wrapper_key inplace :
  let w' := (save_products w filename products wrapper_key inplace).1 in
  processed_items_txt w' = processed_items_txt w
  /\ image_batch_names_txt w' = image_batch_names_txt w
  /\ s3_upload_links_txt w' = s3_upload_links_txt w.
Proof.
  unfold save_products. destruct wrapper_key as [key|]; [|simpl; auto].
  destruct (json_files w !! filename) as [[]|]; simpl; auto.
Qed.

Lemma tracker_ok_same (w w' : World) :
  processed_items_txt w' = processed_items_txt w ->
  image_batch_names_txt w' = image_batch_names_txt w ->
  tracker_ok w -> tracker_ok w'.
Proof.
  unfold tracker_ok, read_processed_names, read_batch_names.
  intros -> ->. auto.
Qed.

(** Step 5 of [main]: the same names go to both files. *)
Lemma tracker_ok_record (names : list string) (w : World) :
  terminated (default EmptyString (processed_items_txt w)) = true ->
  tracker_ok (append_processed_names names (write_batch_names names w)).
Proof.
  intros Hterm. unfold tracker_ok, read_processed_names, read_batch_names. simpl.
  split.
  - apply terminated_app; [exact Hterm | apply terminated_write_lines].
  - rewrite stripped_lines_app by exact Hterm.
    apply Forall_forall. intros n Hn. apply elem_of_list_to_set, elem_of_app. auto.
Qed.

Lemma replace_images_for_last_batch_tracker (dummy input_filename : string) (w : World) :
  let w' := replace_images_for_last_batch dummy input_filename w in
  processed_items_txt w' = processed_items_txt w
  /\ image_batch_names_txt w' = image_batch_names_txt w.
Proof.
  unfold replace_images_for_last_batch.
  destruct (load_products w input_filename) as [[|p ps] key]; [auto|].
  destruct (read_batch_names w) as [|n ns]; [auto|].
  destruct (_replace_dummy_images_for_batch _ _ _ _) as [ps' k].
  destruct (save_products_tracker w input_filename ps' key true) as (? & ? & _). auto.
Qed.

Lemma replace_images_from_links_all_tracker (dummy input_filename : string) (w : World) :
  let w' := replace_images_from_links_all dummy input_filename w in
  processed_items_txt w' = processed_items_txt w
  /\ image_batch_names_txt w' = image_batch_names_txt w.
Proof.
  unfold replace_images_from_links_all.
  destruct (load_products w input_filename) as [[|p ps] key]; [auto|].
  destruct (parse_s3_links_file w) as [|l ls]; [auto|].
  destruct (replace_loop _ _ _ _) as [ps' k].
  destruct (save_products_tracker w input_filename ps' key true) as (? & ? & _). auto.
Qed.

(** A run of [main] maintains the tracker, whatever the service answers. *)
Lemma main_tracker_ok (dummy : string) (service : list JSON -> list JSON)
    (input_filename : string) (batch_size : option Z) (w : World) :
  tracker_ok w -> tracker_ok (main dummy service input_filename batch_size w).
Proof.
  intros Hok. unfold main.
  destruct (load_products w input_filename) as [[|p ps] key]; [exact Hok|].
  destruct (_select_next_batch w (p :: ps) _) as [|b batch].
  - destruct (read_batch_names w) as [|n ns] eqn:Hnames; [exact Hok|].
    destruct (_replace_dummy_images_for_batch _ _ _ _) as [ps' k].
    destruct (save_products_tracker w input_filename ps' key true) as (Hp & Hb & _).
    eapply tracker_ok_same; eauto.
  - destruct (service (b :: batch)) as [|r results]; [exact Hok|].
    set (st := _apply_enhancements_to_products (p :: ps) (r :: results)).
    set (w2 := append_processed_names (enhanced_names st)
                 (write_batch_names (enhanced_names st) w)).
    destruct (_replace_dummy_images_for_batch _ _ _ _) as [ps' k].
    destruct (save_products_tracker w2 input_filename ps' key true) as (Hp & Hb & _).
    eapply tracker_ok_same; [exact Hp | exact Hb |].
    apply tracker_ok_record, Hok.
Qed.

(** What a run of [main] does to the two tracker files. *)
Lemma main_records (dummy : string) (service : list JSON -> list JSON)
    (input_filename : string) (batch_size : option Z) (w : World) :
  records (names_to_record service input_filename batch_size w) w
    (main dummy service input_filename batch_size w).
Proof.
  unfold main, names_to_record, records.
  destruct (load_products w input_filename) as [[|p ps] key]; cbn [fst].
  { cbn [_select_next_batch select_loop]. split; reflexivity. }
  destruct (_select_next_batch w (p :: ps) _) as [|b batch].
  - destruct (read_batch_names w) as [|n ns]; [split; reflexivity|].
    destruct (_replace_dummy_images_for_batch _ _ _ _) as [ps' k].
    destruct (save_products_tracker w input_filename ps' key true) as (Hp & Hb & _).
    split; assumption.
  - destruct (service (b :: batch)) as [|r results]; [split; reflexivity|].
    set (st := _apply_enhancements_to_products (p :: ps) (r :: results)).
    set (w2 := append_processed_names (enhanced_names st)
                 (write_batch_names (enhanced_names st) w)).
    destruct (_replace_dummy_images_for_batch _ _ _ _) as [ps' k].
    destruct (save_products_tracker w2 input_filename ps' key true) as (Hp & Hb & _).
    rewrite Hp, Hb. split; reflexivity.
Qed.

Lemma reachable_tracker_ok (w0 w : World) :
  tracker_ok w0 -> reachable_from w0 w -> tracker_ok w.
Proof.
  intros Hstart.
  induction 1 as [|dummy service f bs w _ IH|w w' _ IH Hp Hb].
  - exact Hstart.
  - apply main_tracker_ok, IH.
  - eapply tracker_ok_same; eauto.
Qed.

(** C8, as amended.  Start from a world whose [processed_items.txt] is
    absent or ends with a newline and whose current batch, if there is
    one, is within the processed set.  After any number of enrichment runs
    and of stages that leave the two tracker files alone, take one more run
    of [main].  If it selects a batch and the service answers, it writes
    the names the apply step returns to [image_batch_names.txt] and appends
    the same lines to [processed_items.txt]; otherwise it leaves both files
    as they are.  After it every name of the current batch is in the
    processed set, and [processed_items.txt] again ends with a newline. *)
Theorem current_batch_subset_processed (w0 w : World) (dummy : string)
    (service : list JSON -> list JSON) (input_filename : string)
    (batch_size : option Z) :
  terminated (default EmptyString (processed_items_txt w0)) = true ->
  Forall (fun n => n ∈ read_processed_names w0) (read_batch_names w0) ->
  reachable_from w0 w ->
  let w' := main dummy service input_filename batch_size w in
  records (names_to_record service input_filename batch_size w) w w'
  /\ Forall (fun n => n ∈ read_processed_names w') (read_batch_names w')
  /\ terminated (default EmptyString (processed_items_txt w')) = true.
Proof.
  intros Hterm Hbatch Hreach w'.
  assert (tracker_ok w') as [Hterm' Hbatch'].
  { apply main_tracker_ok, (reachable_tracker_ok w0); [split; assumption | exact Hreach]. }
  split_and!; [apply main_records | exact Hbatch' | exact Hterm'].
Qed.

(** A second run, in a world whose tracker files both hold a name of an
    earlier batch, with a service that renames the one product left. *)
Lemma current_batch_subset_processed_witness :
  let answer := fun _ : list JSON =>
                  [result_entry "Aloo Paratha" "Aloo Paratha (Potato Flatbread)" ""] in
  let w := main EmptyString demo_service "nath_menu.json" (Some 2%Z) demo_world_resumed in
  let w' := main EmptyString answer "nath_menu.json" (Some 2%Z) w in
  records (names_to_record answer "nath_menu.json" (Some 2%Z) w) w w'
  /\ Forall (fun n => n ∈ read_processed_names w') (read_batch_names w')
  /\ terminated (default EmptyString (processed_items_txt w')) = true.
Proof.
  apply (current_batch_subset_processed demo_world_resumed
           (main EmptyString demo_service "nath_menu.json" (Some 2%Z) demo_world_resumed)
           EmptyString
           (fun _ => [result_entry "Aloo Paratha" "Aloo Paratha (Potato Flatbread)" ""])
           "nath_menu.json" (Some 2%Z)).
  - reflexivity.
  - apply (bool_decide_unpack _). vm_compute. exact I.
  - apply reach_main, reach_start.
Defined.

Example second_run_records :
  let answer := fun _ : list JSON =>
                  [result_entry "Aloo Paratha" "Aloo Paratha (Potato Flatbread)" ""] in
  let w := main EmptyString demo_service "nath_menu.json" (Some 2%Z) demo_world_resumed in
  let w' := main EmptyString answer "nath_menu.json" (Some 2%Z) w in
  read_batch_names demo_world_resumed = ["Masala Dosa"]
  /\ read_batch_names w = ["Coca-Cola"; "Pantene Smooth & Shine Shampoo"]
  /\ names_to_record answer "nath_menu.json" (Some 2%Z) w
     = Some ["Aloo Paratha (Potato Flatbread)"]
  /\ read_batch_names w' = ["Aloo Paratha (Potato Flatbread)"]
  /\ processed_items_txt w' = Some "Masala Dosa
Coca-Cola
Pantene Smooth & Shine Shampoo
Aloo Paratha (Potato Flatbread)
".
Proof. vm_compute. split_and!; reflexivity. Qed.

(** C8 as stated fails when [processed_items.txt] does not end with a
    newline: [append_processed_names] writes on from the last character,
    so the first name of the batch is joined to the line before it.  After
    the run [Coca-Cola] is in the current batch and not in the processed
    set, which holds [FooCoca-Cola] instead. *)
Lemma current_batch_subset_processed_counterexample :
  let w := mkWorld {["nath_menu.json" := demo_catalog]} (Some "Foo") None None in
  let w' := main EmptyString demo_service "nath_menu.json" (Some 2%Z) w in
  read_batch_names w = []
  /\ read_batch_names w' = ["Coca-Cola"; "Pantene Smooth & Shine Shampoo"]
  /\ processed_items_txt w' = Some "FooCoca-Cola
Pantene Smooth & Shine Shampoo
"
  /\ bool_decide ("Coca-Cola" ∈ read_processed_names w') = false
  /\ bool_decide ("FooCoca-Cola" ∈ read_processed_names w') = true.
Proof. vm_compute. split_and!; reflexivity. Qed.

Example demo_run_batch :
  read_batch_names (main EmptyString demo_service "nath_menu.json" (Some 2%Z) demo_world)
  = ["Coca-Cola"; "Pantene Smooth & Shine Shampoo"].
Proof. vm_compute. reflexivity. Qed.

End ProgressTracker.

(** ** Batch selection *)

Section BatchSelection.
Import PyStr DescriptionWriter.

Lemma nonempty_false (s : string) : nonempty s = false <-> s = EmptyString.
Proof. destruct s; simpl; split; congruence. Qed.

Lemma nonempty_true (s : string) : nonempty s = true <-> s <> EmptyString.
Proof. destruct s; simpl; split; congruence. Qed.

Lemma select_loop_take (processed : gset string) (batch_size : Z) (all_products : list JSON) :
  forall next_batch,
    select_loop processed batch_size all_products next_batch
    = next_batch
      ++ take (Z.to_nat (Z.max 1 (batch_size - Z.of_nat (length next_batch))))
              (filter (eligible processed) all_products).
Proof.
  induction all_products as [|p rest IH]; intros next_batch; simpl.
  - rewrite filter_nil, take_nil, app_nil_r. reflexivity.
  - destruct (nonempty (strip (get_str p "name"))) eqn:Hname; simpl.
    + destruct (decide (strip (get_str p "name") ∈ processed)) as [Hin|Hout].
      * rewrite filter_cons_False by (intros [_ ?]; contradiction). apply IH.
      * rewrite filter_cons_True by (split; [apply nonempty_true, Hname | exact Hout]).
        rewrite length_app. simpl.
        destruct (Z.leb_spec batch_size (Z.of_nat (length next_batch + 1))) as [Hfull|Hmore].
        -- replace (Z.to_nat (Z.max 1 (batch_size - Z.of_nat (length next_batch))))
             with 1%nat by lia.
           simpl. rewrite take_0. reflexivity.
        -- rewrite IH, length_app, <- app_assoc. simpl. f_equal.
           replace (Z.to_nat (Z.max 1 (batch_size - Z.of_nat (length next_batch))))
             with (S (Z.to_nat (Z.max 1 (batch_size - Z.of_nat (length next_batch + 1)))))
             by lia.
           reflexivity.
    + rewrite filter_cons_False by (intros [Hne _]; apply nonempty_false in Hname; contradiction).
      apply IH.
Qed.

(** The selection takes the eligible products in catalog order and stops
    after [batch_size] of them, but never before the first: a batch size
    below one still yields one product. *)
Lemma select_next_batch_take (w : World) (all_products : list JSON) (batch_size : Z) :
  _select_next_batch w all_products batch_size
  = take (Z.to_nat (Z.max 1 batch_size))
         (filter (eligible (read_processed_names w)) all_products).
Proof.
  unfold _select_next_batch. rewrite select_loop_take. simpl.
  rewrite Z.sub_0_r. reflexivity.
Qed.

(** C2 fails on the size of the batch: asked for a batch of size 0, the
    selection returns one product. *)
Theorem select_next_batch_size_zero :
  _select_next_batch demo_world demo_products 0 = [product "Pantene SS" "" ""]
  /\ (0 < Z.of_nat (length (_select_next_batch demo_world demo_products 0)))%Z.
Proof. rewrite select_next_batch_take. vm_compute. split; reflexivity. Qed.

(** The names of the processed set are stripped lines. *)
Lemma processed_names_stripped (w : World) (n : string) :
  n ∈ read_processed_names w -> strip n = n.
Proof.
  unfold read_processed_names. destruct (processed_items_txt w) as [content|]; [|set_solver].
  rewrite elem_of_list_to_set. unfold stripped_lines.
  intros [_ Hin]%list_elem_of_filter.
  apply list_elem_of_fmap in Hin as (line & -> & _). apply strip_idem.
Qed.

(** X1.  For a batch size of at least one the selection is as specified: at most
    [batch_size] products, in catalog order, each with a non-empty name that
    is not in the processed set, and none that is eligible is skipped before
    the batch is full. *)
Theorem select_next_batch_positive (w : World) (all_products : list JSON) (batch_size : Z) :
  (1 <= batch_size)%Z ->
  let batch := _select_next_batch w all_products batch_size in
  (Z.of_nat (length batch) <= batch_size)%Z
  /\ batch `sublist_of` all_products
  /\ Forall (fun p => get_str p "name" <> EmptyString
                      /\ (get_str p "name" ∉ read_processed_names w)
                      /\ (strip (get_str p "name") ∉ read_processed_names w)) batch
  /\ batch = take (Z.to_nat batch_size)
                  (filter (eligible (read_processed_names w)) all_products).
Proof.
  intros Hsize batch. subst batch. rewrite select_next_batch_take.
  replace (Z.max 1 batch_size) with batch_size by lia.
  split_and!.
  - rewrite length_take. lia.
  - etrans; [apply sublist_take | apply sublist_filter].
  - apply Forall_take, Forall_forall. intros p [[Hne Hnot] _]%list_elem_of_filter.
    split_and!.
    + intros Hempty. rewrite Hempty in Hne. apply Hne. reflexivity.
    + intros Hin. apply Hnot. rewrite (processed_names_stripped w _ Hin). exact Hin.
    + exact Hnot.
  - reflexivity.
Qed.

Lemma select_next_batch_positive_witness :
  (Z.of_nat (length (_select_next_batch demo_world demo_products 2)) <= 2)%Z
  /\ _select_next_batch demo_world demo_products 2 `sublist_of` demo_products
  /\ Forall (fun p => get_str p "name" <> EmptyString
                      /\ (get_str p "name" ∉ read_processed_names demo_world)
                      /\ (strip (get_str p "name") ∉ read_processed_names demo_world))
            (_select_next_batch demo_world demo_products 2)
  /\ _select_next_batch demo_world demo_products 2
     = take (Z.to_nat 2)
            (filter (eligible (read_processed_names demo_world)) demo_products).
Proof. apply (select_next_batch_positive demo_world demo_products 2). lia. Defined.

End BatchSelection.

(** ** Applying the enrichment results *)

Section Enrichment.
Import PyStr DescriptionWriter.

Lemma first_named_Some (n : string) (ps : list JSON) (i : nat) :
  first_named n ps = Some i ->
  (exists p, ps !! i = Some p /\ get_str p "name" = n)
  /\ forall j p, (j < i)%nat -> ps !! j = Some p -> get_str p "name" <> n.
Proof.
  revert i. induction ps as [|p ps IH]; intros i; simpl; [discriminate|].
  destruct (String.eqb_spec (get_str p "name") n) as [Hn|Hn].
  - intros [= <-]. split; [exists p; auto | intros j q Hj; lia].
  - destruct (first_named n ps) as [k|]; [|discriminate]. intros [= <-].
    destruct (IH k eq_refl) as [Hhit Hbefore]. split; [exact Hhit|].
    intros [|j] q Hj; simpl; [intros [= <-]; exact Hn | apply Hbefore; lia].
Qed.

(** The index the code builds with [setdefault] finds the first product of
    each name. *)
Lemma index_names_lookup (n : string) (ps : list JSON) :
  n <> EmptyString ->
  forall (k : nat) (m : gmap string nat),
    index_names ps k m !! n
    = match m !! n with
      | Some i => Some i
      | None => (fun i => (k + i)%nat) <$> first_named n ps
      end.
Proof.
  intros Hn. induction ps as [|p ps IH]; intros k m; simpl.
  - destruct (m !! n); reflexivity.
  - rewrite IH. destruct (String.eqb_spec (get_str p "name") n) as [Heq|Hne].
    + rewrite Heq. rewrite (proj2 (nonempty_true n) Hn). unfold setdefault.
      destruct (m !! n) as [i|] eqn:Hm.
      * rewrite Hm. reflexivity.
      * rewrite lookup_insert_eq. simpl. f_equal. lia.
    + assert (Hsame : (if nonempty (get_str p "name")
                       then setdefault m (get_str p "name") k else m) !! n = m !! n).
      { destruct (nonempty (get_str p "name")); [|reflexivity]. unfold setdefault.
        destruct (m !! get_str p "name"); [reflexivity|].
        apply lookup_insert_ne, Hne. }
      rewrite Hsame. destruct (m !! n); [reflexivity|].
      destruct (first_named n ps); simpl; [f_equal; lia | reflexivity].
Qed.

(** The loop body of the code is [apply_entry]. *)
Lemma apply_item_entry (ps : list JSON) (st : Applied) (item : JSON) :
  apply_item (index_names ps 0 ∅) st item = apply_entry ps st item.
Proof.
  unfold apply_item, apply_entry, matched, overwrite, canonical_name.
  destruct (nonempty (get_str item "originalName")) eqn:Horig; simpl; [|reflexivity].
  rewrite index_names_lookup by (apply nonempty_true, Horig).
  rewrite lookup_empty.
  destruct (first_named (get_str item "originalName") ps) as [i|]; simpl; [|reflexivity].
  f_equal.
  destruct (nonempty (get_str item "enhancedName")),
           (nonempty (get_str item "enhancedDescription"));
    rewrite ?list_alter_alter_eq, ?(list_alter_id (fun p => p)) by reflexivity;
    reflexivity.
Qed.

Lemma apply_enhancements_entries (ps rs : list JSON) :
  _apply_enhancements_to_products ps rs
  = foldl (apply_entry ps) (mkApplied ps 0 []) rs.
Proof.
  unfold _apply_enhancements_to_products.
  generalize (mkApplied ps 0 []). induction rs as [|r rs IH]; intros st; simpl; [reflexivity|].
  rewrite apply_item_entry. apply IH.
Qed.

Lemma dict_get_set_eq {V : Type} (d : dict V) (k : string) (v : V) :
  dict_get (dict_set d k v) k = Some v.
Proof.
  induction d as [|[k' v'] d IH]; simpl.
  - rewrite String.eqb_refl. reflexivity.
  - destruct (String.eqb k' k) eqn:Hk; simpl; rewrite Hk; [reflexivity | exact IH].
Qed.

Lemma dict_get_set_ne {V : Type} (d : dict V) (k k' : string) (v : V) :
  k <> k' -> dict_get (dict_set d k v) k' = dict_get d k'.
Proof.
  intros Hne. induction d as [|[k0 v0] d IH]; simpl.
  - destruct (String.eqb_spec k k'); [contradiction | reflexivity].
  - destruct (String.eqb_spec k0 k) as [->|Hk0]; simpl.
    + destruct (String.eqb_spec k k'); [contradiction | reflexivity].
    + rewrite IH. reflexivity.
Qed.

Lemma get_set_str_ne (p : JSON) (k k' v : string) :
  k <> k' -> get_str (set_str p k v) k' = get_str p k'.
Proof. intros Hne. destruct p; try reflexivity. simpl. rewrite dict_get_set_ne by exact Hne. reflexivity. Qed.

Lemma overwrite_fields (item : JSON) (members : dict JSON) :
  let p' := overwrite item (JDict members) in
  get_str p' "name"
  = (if nonempty (get_str item "enhancedName") then get_str item "enhancedName"
     else get_str (JDict members) "name")
  /\ get_str p' "description"
     = (if nonempty (get_str item "enhancedDescription")
        then get_str item "enhancedDescription"
        else get_str (JDict members) "description")
  /\ forall k, k <> "name" -> k <> "description" ->
       get_str p' k = get_str (JDict members) k.
Proof.
  unfold overwrite.
  destruct (nonempty (get_str item "enhancedName")),
           (nonempty (get_str item "enhancedDescription")); split_and!;
    try reflexivity; intros; cbn [set_str get_str];
    rewrite ?dict_get_set_eq, ?dict_get_set_ne by (congruence || discriminate);
    rewrite ?dict_get_set_eq, ?dict_get_set_ne by (congruence || discriminate);
    reflexivity.
Qed.

Lemma first_named_absent (n : string) (ps : list JSON) :
  Forall (fun p => get_str p "name" <> n) ps -> first_named n ps = None.
Proof.
  induction 1 as [|p ps Hp _ IH]; simpl; [reflexivity|].
  destruct (String.eqb_spec (get_str p "name") n); [contradiction|].
  rewrite IH. reflexivity.
Qed.

Lemma matched_same_product (ps : list JSON) (x y : JSON) (i : nat) :
  matched ps x = Some i -> matched ps y = Some i ->
  get_str x "originalName" = get_str y "originalName".
Proof.
  unfold matched.
  destruct (nonempty (get_str x "originalName")); [|discriminate].
  destruct (nonempty (get_str y "originalName")); [|discriminate].
  intros [(p & Hp & Hx) _]%first_named_Some [(q & Hq & Hy) _]%first_named_Some.
  congruence.
Qed.

Lemma same_result_refl (a : Applied) : same_result a a.
Proof. unfold same_result. split_and!; reflexivity. Qed.

Lemma same_result_trans (a b c : Applied) :
  same_result a b -> same_result b c -> same_result a c.
Proof. intros (? & ? & ?) (? & ? & ?). repeat split; etrans; eauto. Qed.

Lemma apply_entry_same (ps : list JSON) (a b : Applied) (x : JSON) :
  same_result a b -> same_result (apply_entry ps a x) (apply_entry ps b x).
Proof.
  intros (Hp & Hu & Hn). unfold apply_entry.
  destruct (matched ps x); [|repeat split; assumption].
  repeat split; simpl; [rewrite Hp | rewrite Hu | rewrite Hn]; reflexivity.
Qed.

Lemma foldl_apply_entry_same (ps rs : list JSON) :
  forall a b, same_result a b ->
    same_result (foldl (apply_entry ps) a rs) (foldl (apply_entry ps) b rs).
Proof.
  induction rs as [|r rs IH]; intros a b Hab; simpl; [exact Hab|].
  apply IH, apply_entry_same, Hab.
Qed.

Lemma apply_entry_swap (ps : list JSON) (a b : Applied) (x y : JSON) :
  get_str x "originalName" <> get_str y "originalName" ->
  same_result a b ->
  same_result (apply_entry ps (apply_entry ps a x) y)
              (apply_entry ps (apply_entry ps b y) x).
Proof.
  intros Hxy (Hp & Hu & Hn). unfold apply_entry.
  destruct (matched ps x) as [i|] eqn:Hx, (matched ps y) as [j|] eqn:Hy; simpl.
  - assert (i <> j) by (intros ->; apply Hxy; eapply matched_same_product; eauto).
    repeat split; simpl.
    + rewrite Hp. apply list_alter_alter_ne. congruence.
    + rewrite Hu. reflexivity.
    + rewrite Hn, <- !app_assoc. apply Permutation_app_head, Permutation_swap.
  - repeat split; simpl; [rewrite Hp | rewrite Hu | rewrite Hn]; reflexivity.
  - repeat split; simpl; [rewrite Hp | rewrite Hu | rewrite Hn]; reflexivity.
  - repeat split; assumption.
Qed.

(** Entries with distinct names may come in any order. *)
Lemma foldl_apply_entry_perm (ps rs rs' : list JSON) :
  rs ≡ₚ rs' ->
  NoDup ((fun item => get_str item "originalName") <$> rs) ->
  forall a b, same_result a b ->
    same_result (foldl (apply_entry ps) a rs) (foldl (apply_entry ps) b rs').
Proof.
  induction 1 as [|x l l' _ IH|x y l|l l' l'' Hperm IH _ IH']; intros Hdup a b Hab.
  - exact Hab.
  - simpl. apply IH; [|apply apply_entry_same, Hab].
    rewrite fmap_cons in Hdup. apply NoDup_cons in Hdup as [_ Hdup]. exact Hdup.
  - simpl. apply foldl_apply_entry_same, apply_entry_swap; [|exact Hab].
    rewrite !fmap_cons in Hdup. apply NoDup_cons in Hdup as [Hy _].
    intros Heq. apply Hy. rewrite Heq. left.
  - eapply same_result_trans; [apply IH; [exact Hdup | exact Hab]|].
    apply IH'; [|apply same_result_refl].
    rewrite <- Hperm. exact Hdup.
Qed.

(** C5.  The apply step handles the entries of the response one by one, and
    each by name: an entry is matched to the first product whose name, when
    the step starts, equals its [originalName]; an entry with no
    [originalName] or with one that no product bears is dropped and changes
    nothing; a matched entry overwrites the name only with a non-empty
    [enhancedName] and the description only with a non-empty
    [enhancedDescription], and no other field; and the position of an entry
    in the array plays no part: the entries of a response with distinct
    names may be permuted without changing the products. *)
Theorem apply_enhancements_by_name (ps rs : list JSON) :
  _apply_enhancements_to_products ps rs
  = foldl (apply_entry ps) (mkApplied ps 0 []) rs
  /\ (forall item i,
        matched ps item = Some i ->
        get_str item "originalName" <> EmptyString
        /\ (exists p, ps !! i = Some p
                      /\ get_str p "name" = get_str item "originalName")
        /\ forall j p, (j < i)%nat -> ps !! j = Some p ->
             get_str p "name" <> get_str item "originalName")
  /\ (forall item st,
        get_str item "originalName" = EmptyString
        \/ Forall (fun p => get_str p "name" <> get_str item "originalName") ps ->
        apply_entry ps st item = st)
  /\ (forall item members,
        let p' := overwrite item (JDict members) in
        get_str p' "name"
        = (if nonempty (get_str item "enhancedName") then get_str item "enhancedName"
           else get_str (JDict members) "name")
        /\ get_str p' "description"
           = (if nonempty (get_str item "enhancedDescription")
              then get_str item "enhancedDescription"
              else get_str (JDict members) "description")
        /\ forall k, k <> "name" -> k <> "description" ->
             get_str p' k = get_str (JDict members) k)
  /\ (forall rs',
        rs ≡ₚ rs' ->
        NoDup ((fun item => get_str item "originalName") <$> rs) ->
        same_result (_apply_enhancements_to_products ps rs)
                    (_apply_enhancements_to_products ps rs')).
Proof.
  split_and!.
  - apply apply_enhancements_entries.
  - intros item i. unfold matched.
    destruct (nonempty (get_str item "originalName")) eqn:Horig; [|discriminate].
    intros [Hhit Hbefore]%first_named_Some. split_and!; [|exact Hhit|exact Hbefore].
    apply nonempty_true, Horig.
  - intros item st Hnone. unfold apply_entry, matched.
    destruct Hnone as [->|Hnone]; [reflexivity|].
    rewrite (first_named_absent _ _ Hnone).
    destruct (nonempty (get_str item "originalName")); reflexivity.
  - apply overwrite_fields.
  - intros rs' Hperm Hdup. rewrite !apply_enhancements_entries.
    apply foldl_apply_entry_perm; [exact Hperm | exact Hdup | apply same_result_refl].
Qed.

Example demo_apply :
  let st := _apply_enhancements_to_products demo_products (demo_service demo_products) in
  products st
  = [JDict [("name", JStr "Pantene Smooth & Shine Shampoo"); ("description", JStr "");
            ("image", JStr "")];
     JDict [("name", JStr "Coca-Cola");
            ("description", JStr "Cola soft drink (cold drink, soda)");
            ("image", JStr "")];
     product "Aloo Paratha" "" ""]
  /\ updated st = 2%Z
  /\ enhanced_names st = ["Coca-Cola"; "Pantene Smooth & Shine Shampoo"].
Proof. vm_compute. repeat split. Qed.

End Enrichment.

(** ** The catalog store *)

Section CatalogStore.
Import PyStr DescriptionWriter.

Lemma dict_set_keys {V : Type} (d : dict V) (k : string) (v : V) :
  is_Some (dict_get d k) -> dict_keys (dict_set d k v) = dict_keys d.
Proof.
  unfold dict_keys. induction d as [|[k' v'] d IH]; simpl.
  - intros [? [=]].
  - destruct (String.eqb k' k) eqn:Hk; simpl; [reflexivity|].
    intros Hsome. f_equal. apply IH, Hsome.
Qed.

(** Setting a key leaves every entry under another key where and as it
    is. *)
Lemma dict_set_elsewhere {V : Type} (d : dict V) (k : string) (v : V) (i : nat) k' v' :
  d !! i = Some (k', v') -> k' <> k -> dict_set d k v !! i = Some (k', v').
Proof.
  revert i. induction d as [|[k0 v0] d IH]; intros i; simpl; [discriminate|].
  destruct (String.eqb_spec k0 k) as [->|Hk0]; destruct i as [|i]; simpl;
    try congruence; auto.
Qed.

Lemma dict_set_same {V : Type} (d : dict V) (k : string) (v : V) :
  dict_get d k = Some v -> dict_set d k v = d.
Proof.
  induction d as [|[k' v'] d IH]; simpl; [discriminate|].
  destruct (String.eqb k' k); [intros [= ->]; reflexivity|].
  intros Hget. rewrite IH by exact Hget. reflexivity.
Qed.

Lemma find_wrapper_Some (members : dict JSON) (keys : list string) l key :
  find_wrapper members keys = Some (l, key) ->
  key ∈ keys /\ dict_get members key = Some (JList l).
Proof.
  induction keys as [|k keys IH]; simpl; [discriminate|].
  destruct (dict_get members k) as [[]|] eqn:Hk;
    try (intros H; destruct (IH H); split; [right|]; assumption).
  intros [= <- <-]. split; [left | exact Hk].
Qed.

(** C7.  When the catalog file is an object that wraps the product list
    under one of [menu], [items], [products], saving products under the
    wrapper key found by loading writes an object with the same keys in the
    same order, in which every sibling of the wrapper key keeps its place
    and its value, and the wrapper key holds the saved products; saving the
    very products that were loaded writes the object that was read. *)
Theorem save_preserves_wrapper_siblings (w : World) (filename : string)
    (members : dict JSON) (loaded : list JSON) (key : string)
    (saved : list JSON) (inplace : bool) :
  json_files w !! filename = Some (JDict members) ->
  load_products w filename = (loaded, Some key) ->
  key ∈ wrapper_keys
  /\ dict_get members key = Some (JList loaded)
  /\ exists members',
       let path := if inplace then filename else "updated_" +:+ filename in
       save_products w filename saved (Some key) inplace
       = (write_json w path (JDict members'), path)
       /\ json_files (write_json w path (JDict members')) !! path = Some (JDict members')
       /\ dict_keys members' = dict_keys members
       /\ dict_get members' key = Some (JList saved)
       /\ (forall sibling, sibling <> key ->
             dict_get members' sibling = dict_get members sibling)
       /\ (forall i sibling value, members !! i = Some (sibling, value) ->
             sibling <> key -> members' !! i = Some (sibling, value))
       /\ (saved = loaded -> members' = members).
Proof.
  intros Hfile. unfold load_products. rewrite Hfile.
  destruct (find_wrapper members wrapper_keys) as [[l k]|] eqn:Hfind; [|discriminate].
  intros [= -> ->]. destruct (find_wrapper_Some _ _ _ _ Hfind) as [Hkey Hget].
  split; [exact Hkey|]. split; [exact Hget|].
  exists (dict_set members key (JList saved)).
  unfold save_products. rewrite Hfile. split_and!.
  - reflexivity.
  - simpl. apply lookup_insert_eq.
  - apply dict_set_keys. eauto.
  - apply dict_get_set_eq.
  - intros sibling Hne. apply dict_get_set_ne. congruence.
  - intros i sibling value Hi Hne. apply dict_set_elsewhere; assumption.
  - intros ->. apply dict_set_same, Hget.
Qed.

Lemma save_preserves_wrapper_siblings_witness :
  "menu" ∈ wrapper_keys
  /\ dict_get [("restaurant", JStr "Nath"); ("menu", JList demo_products);
               ("currency", JStr "INR")] "menu" = Some (JList demo_products)
  /\ exists members',
       let path := "nath_menu.json" in
       save_products demo_world "nath_menu.json" demo_products
         (Some "menu") true
       = (write_json demo_world path (JDict members'), path)
       /\ json_files (write_json demo_world path (JDict members')) !! path
          = Some (JDict members')
       /\ dict_keys members' = ["restaurant"; "menu"; "currency"]
       /\ dict_get members' "menu" = Some (JList demo_products)
       /\ (forall sibling, sibling <> "menu" ->
             dict_get members' sibling
             = dict_get [("restaurant", JStr "Nath"); ("menu", JList demo_products);
                         ("currency", JStr "INR")] sibling)
       /\ (forall i sibling value,
             [("restaurant", JStr "Nath"); ("menu", JList demo_products);
              ("currency", JStr "INR")] !! i = Some (sibling, value) ->
             sibling <> "menu" -> members' !! i = Some (sibling, value))
       /\ (demo_products = demo_products ->
           members' = [("restaurant", JStr "Nath"); ("menu", JList demo_products);
                       ("currency", JStr "INR")]).
Proof.
  apply (save_preserves_wrapper_siblings demo_world "nath_menu.json"
           [("restaurant", JStr "Nath"); ("menu", JList demo_products);
            ("currency", JStr "INR")]
           demo_products "menu" demo_products true).
  - vm_compute. reflexivity.
  - vm_compute. reflexivity.
Defined.

Example load_each_wrapper (l : list JSON) :
  load_products (fresh_world {["c.json" := JDict [("v", JNum "1"); ("menu", JList l)]]}) "c.json"
  = (l, Some "menu")
  /\ load_products (fresh_world {["c.json" := JDict [("menu", JNull); ("items", JList l)]]}) "c.json"
     = (l, Some "items")
  /\ load_products (fresh_world {["c.json" := JDict [("products", JList l); ("v", JNum "1")]]}) "c.json"
     = (l, Some "products")
  /\ load_products (fresh_world {["c.json" := JList l]}) "c.json" = (l, None)
  /\ load_products (fresh_world {["c.json" := JDict [("v", JList l)]]}) "c.json" = ([], None)
  /\ load_products (fresh_world ∅) "c.json" = ([], None).
Proof. vm_compute. repeat split. Qed.

End CatalogStore.

(** ** Replacing the placeholder images *)

Section ImageReplacement.
Import PyStr DescriptionWriter.

Variable dummy : string.

Lemma dict_set_set_eq {V : Type} (d : dict V) (k : string) (v : V) :
  dict_set (dict_set d k v) k v = dict_set d k v.
Proof.
  induction d as [|[k' v'] d IH]; simpl.
  - rewrite String.eqb_refl. reflexivity.
  - destruct (String.eqb k' k) eqn:Hk; simpl; rewrite Hk; [reflexivity|].
    rewrite IH. reflexivity.
Qed.

Lemma set_str_set_str_eq (p : JSON) (k v : string) :
  set_str (set_str p k v) k v = set_str p k v.
Proof. destruct p; try reflexivity. simpl. rewrite dict_set_set_eq. reflexivity. Qed.

(** The two things one pass of the loop can do to a product. *)
Lemma replace_dummy_image_cases (names_lower : option (gset string))
    (base_to_url : dict string) (p : JSON) :
  replace_dummy_image dummy names_lower base_to_url p = (p, false)
  \/ (strip (get_str p "image") = dummy
      /\ strip (get_str p "name") <> EmptyString
      /\ (forall names, names_lower = Some names ->
            lower (strip (get_str p "name")) ∈ names)
      /\ exists url,
           url <> EmptyString
           /\ _match_url_for_name base_to_url (strip (get_str p "name")) = Some url
           /\ replace_dummy_image dummy names_lower base_to_url p
              = (set_str p "image" url, true)).
Proof.
  unfold replace_dummy_image.
  destruct (nonempty (strip (get_str p "name"))) eqn:Hname; simpl; [|left; reflexivity].
  destruct (match names_lower with
            | Some names => negb (bool_decide (lower (strip (get_str p "name")) ∈ names))
            | None => false
            end) eqn:Hbatch; [left; reflexivity|].
  destruct (String.eqb_spec (strip (get_str p "image")) dummy) as [Himage|Himage];
    simpl; [|left; reflexivity].
  destruct (_match_url_for_name base_to_url (strip (get_str p "name"))) as [url|] eqn:Hurl;
    [|left; reflexivity].
  destruct (nonempty url) eqn:Hne; [|left; reflexivity].
  right. split_and!.
  - exact Himage.
  - apply nonempty_true, Hname.
  - intros names ->. apply negb_false_iff, bool_decide_eq_true in Hbatch. exact Hbatch.
  - exists url. split_and!; [apply nonempty_true, Hne | reflexivity | reflexivity].
Qed.

(** A second pass over a product changes nothing: a product left alone is
    left alone again, and a product given a URL is either skipped or given
    the same URL. *)
Lemma replace_dummy_image_idem (names_lower : option (gset string))
    (base_to_url : dict string) (p : JSON) :
  (replace_dummy_image dummy names_lower base_to_url
     (replace_dummy_image dummy names_lower base_to_url p).1).1
  = (replace_dummy_image dummy names_lower base_to_url p).1.
Proof.
  destruct (replace_dummy_image_cases names_lower base_to_url p)
    as [Hsame|(_ & _ & _ & url & _ & Hurl & Hset)].
  - rewrite Hsame. simpl. rewrite Hsame. reflexivity.
  - rewrite Hset. simpl.
    destruct (replace_dummy_image_cases names_lower base_to_url (set_str p "image" url))
      as [Hsame|(_ & _ & _ & url' & _ & Hurl' & Hset')].
    + rewrite Hsame. reflexivity.
    + rewrite Hset'. simpl.
      rewrite get_set_str_ne in Hurl' by discriminate.
      rewrite Hurl in Hurl'. injection Hurl' as <-. apply set_str_set_str_eq.
Qed.

Lemma replace_loop_fmap (names_lower : option (gset string))
    (base_to_url : dict string) (ps : list JSON) :
  (replace_loop dummy names_lower base_to_url ps).1
  = (fun p => (replace_dummy_image dummy names_lower base_to_url p).1) <$> ps.
Proof.
  induction ps as [|p ps IH]; [reflexivity|]. simpl.
  destruct (replace_dummy_image dummy names_lower base_to_url p) as [p' hit].
  destruct (replace_loop dummy names_lower base_to_url ps) as [ps' n].
  simpl in *. rewrite IH. reflexivity.
Qed.

Lemma replace_loop_idem (names_lower : option (gset string))
    (base_to_url : dict string) (ps : list JSON) :
  (replace_loop dummy names_lower base_to_url
     (replace_loop dummy names_lower base_to_url ps).1).1
  = (replace_loop dummy names_lower base_to_url ps).1.
Proof.
  rewrite !replace_loop_fmap, <- list_fmap_compose.
  apply list_fmap_ext. intros i p _. apply replace_dummy_image_idem.
Qed.

(** The batch pass as a map over the catalog. *)
Lemma replace_batch_fmap (w : World) (ps : list JSON) (names : option (list string)) :
  (_replace_dummy_images_for_batch dummy w ps names).1 = ps
  \/ (_replace_dummy_images_for_batch dummy w ps names).1
     = (fun p =>
          (replace_dummy_image dummy
             ((fun names => list_to_set ((fun n => lower (strip n)) <$> names)) <$> names)
             (base_to_url_of (parse_s3_links_file w)) p).1) <$> ps.
Proof.
  unfold _replace_dummy_images_for_batch.
  destruct (parse_s3_links_file w) as [|l ls]; [left; reflexivity|].
  right. apply replace_loop_fmap.
Qed.

Lemma find_wrapper_after_set (members : dict JSON) (keys : list string) l key l' :
  find_wrapper members keys = Some (l, key) ->
  find_wrapper (dict_set members key (JList l')) keys = Some (l', key).
Proof.
  induction keys as [|k keys IH]; simpl; [discriminate|]. intros Hfind.
  assert (Hnext : match dict_get members k with Some (JList _) => False | _ => True end ->
                  find_wrapper members keys = Some (l, key) ->
                  match dict_get (dict_set members key (JList l')) k with
                  | Some (JList l0) => Some (l0, k)
                  | _ => find_wrapper (dict_set members key (JList l')) keys
                  end = Some (l', key)).
  { intros Hnot Htail. destruct (find_wrapper_Some _ _ _ _ Htail) as [_ Hget].
    assert (key <> k) by (intros ->; rewrite Hget in Hnot; exact Hnot).
    rewrite dict_get_set_ne by assumption.
    specialize (IH Htail). destruct (dict_get members k) as [[]|]; auto; contradiction. }
  destruct (dict_get members k) as [[]|] eqn:Hk; try (apply Hnext; [exact I | exact Hfind]).
  injection Hfind as <- <-. rewrite dict_get_set_eq. reflexivity.
Qed.

(** Loading what was just saved in place gives the products saved, under
    the same wrapper key, and saving them once more changes nothing. *)
Lemma load_after_save (w : World) (filename : string) p ps key (saved : list JSON) :
  load_products w filename = (p :: ps, key) ->
  let w1 := (save_products w filename saved key true).1 in
  load_products w1 filename = (saved, key)
  /\ (save_products w1 filename saved key true).1 = w1
  /\ s3_upload_links_txt w1 = s3_upload_links_txt w
  /\ image_batch_names_txt w1 = image_batch_names_txt w.
Proof.
  unfold load_products, save_products.
  destruct (json_files w !! filename) as [[| | | |l|members]|] eqn:Hfile; try discriminate.
  - intros [= -> <-]. simpl. rewrite lookup_insert_eq. split_and!; try reflexivity.
    unfold write_json. simpl. rewrite insert_insert_eq. reflexivity.
  - destruct (find_wrapper members wrapper_keys) as [[l k]|] eqn:Hfind; [|discriminate].
    intros [= -> <-]. unfold write_json. cbn [fst json_files].
    rewrite lookup_insert_eq, (find_wrapper_after_set _ _ _ _ saved Hfind).
    split_and!; try reflexivity.
    cbn [fst json_files processed_items_txt image_batch_names_txt s3_upload_links_txt].
    rewrite insert_insert_eq, dict_set_set_eq. reflexivity.
Qed.

Lemma replace_loop_length (names_lower : option (gset string))
    (base_to_url : dict string) (ps : list JSON) :
  length (replace_loop dummy names_lower base_to_url ps).1 = length ps.
Proof. rewrite replace_loop_fmap. apply length_fmap. Qed.

(** The pass over all products, run twice in a row, leaves the world as the
    first run left it. *)
Lemma replace_images_from_links_all_idem (input_filename : string) (w : World) :
  replace_images_from_links_all dummy input_filename
    (replace_images_from_links_all dummy input_filename w)
  = replace_images_from_links_all dummy input_filename w.
Proof.
  unfold replace_images_from_links_all at 2 3.
  destruct (load_products w input_filename) as [[|p ps] key] eqn:Hload.
  { unfold replace_images_from_links_all. rewrite Hload. reflexivity. }
  destruct (parse_s3_links_file w) as [|l ls] eqn:Hlinks.
  { unfold replace_images_from_links_all. rewrite Hload, Hlinks. reflexivity. }
  destruct (replace_loop dummy None (base_to_url_of (l :: ls)) (p :: ps)) as [ps' k] eqn:Hloop.
  assert (Hps' : ps' = (replace_loop dummy None (base_to_url_of (l :: ls)) (p :: ps)).1)
    by (rewrite Hloop; reflexivity).
  destruct (load_after_save w input_filename p ps key ps' Hload) as (Hload1 & Hsave1 & Hl1 & _).
  set (w1 := (save_products w input_filename ps' key true).1) in *.
  unfold replace_images_from_links_all. rewrite Hload1.
  assert (Hlen : length ps' = S (length ps)) by (rewrite Hps', replace_loop_length; reflexivity).
  destruct ps' as [|q qs]; [discriminate|].
  unfold parse_s3_links_file in *. rewrite Hl1, Hlinks.
  pose proof (replace_loop_idem None (base_to_url_of (l :: ls)) (p :: ps)) as Hidem.
  rewrite <- Hps' in Hidem.
  destruct (replace_loop dummy None (base_to_url_of (l :: ls)) (q :: qs)) as [ps'' k'].
  simpl in Hidem. subst ps''. exact Hsave1.
Qed.

(** What the pass over all products saves is what the batch pass computes
    without a batch. *)
Lemma replace_images_from_links_all_products (input_filename : string) (w : World)
    p ps key :
  load_products w input_filename = (p :: ps, key) ->
  load_products (replace_images_from_links_all dummy input_filename w) input_filename
  = ((_replace_dummy_images_for_batch dummy w (p :: ps) None).1, key).
Proof.
  intros Hload. unfold replace_images_from_links_all, _replace_dummy_images_for_batch.
  rewrite Hload. destruct (parse_s3_links_file w) as [|l ls]; [exact Hload|].
  simpl fmap.
  destruct (replace_loop dummy None (base_to_url_of (l :: ls)) (p :: ps)) as [ps' k].
  apply (load_after_save w input_filename p ps key ps' Hload).
Qed.

(** C3, as amended.  The replacement pass gives a product a new image only
    if its image, stripped of surrounding white space, equals the
    placeholder, and its name, stripped and lower-cased, is the stripped
    lower-cased form of a name of the given set (no such condition when the
    pass is not restricted to a batch); the new image is then the non-empty
    URL the matcher finds for the stripped name.  A product whose stripped
    image is not the placeholder is left as it is.  Running the pass again
    on its own result changes nothing, and so does running the pass over all
    products a second time. *)
Theorem replace_images_only_placeholders (w : World) (names : option (list string))
    (ps : list JSON) :
  let ps' := (_replace_dummy_images_for_batch dummy w ps names).1 in
  length ps' = length ps
  /\ (forall i p p', ps !! i = Some p -> ps' !! i = Some p' ->
        p' = p
        \/ (strip (get_str p "image") = dummy
            /\ strip (get_str p "name") <> EmptyString
            /\ (forall ns, names = Some ns ->
                  exists n, n ∈ ns
                            /\ lower (strip n) = lower (strip (get_str p "name")))
            /\ exists url,
                 url <> EmptyString
                 /\ _match_url_for_name (base_to_url_of (parse_s3_links_file w))
                      (strip (get_str p "name")) = Some url
                 /\ p' = set_str p "image" url))
  /\ (forall i p, ps !! i = Some p -> strip (get_str p "image") <> dummy ->
        ps' !! i = Some p)
  /\ (_replace_dummy_images_for_batch dummy w ps' names).1 = ps'
  /\ (forall input_filename,
        replace_images_from_links_all dummy input_filename
          (replace_images_from_links_all dummy input_filename w)
        = replace_images_from_links_all dummy input_filename w)
  /\ (forall input_filename p0 rest key,
        load_products w input_filename = (p0 :: rest, key) ->
        load_products (replace_images_from_links_all dummy input_filename w) input_filename
        = ((_replace_dummy_images_for_batch dummy w (p0 :: rest) None).1, key)).
Proof.
  intros ps'.
  assert (Hcases : forall i p p', ps !! i = Some p -> ps' !! i = Some p' ->
            p' = p
            \/ (strip (get_str p "image") = dummy
                /\ strip (get_str p "name") <> EmptyString
                /\ (forall ns, names = Some ns ->
                      exists n, n ∈ ns
                                /\ lower (strip n) = lower (strip (get_str p "name")))
                /\ exists url,
                     url <> EmptyString
                     /\ _match_url_for_name (base_to_url_of (parse_s3_links_file w))
                          (strip (get_str p "name")) = Some url
                     /\ p' = set_str p "image" url)).
  { intros i p p' Hp Hp'. subst ps'.
    destruct (replace_batch_fmap w ps names) as [Hsame|Hmap].
    - rewrite Hsame in Hp'. left. congruence.
    - rewrite Hmap, list_lookup_fmap, Hp in Hp'. simpl in Hp'. injection Hp' as <-.
      destruct (replace_dummy_image_cases
                  ((fun names => list_to_set ((fun n => lower (strip n)) <$> names)) <$> names)
                  (base_to_url_of (parse_s3_links_file w)) p)
        as [Hsame|(Himage & Hname & Hbatch & url & Hurl & Hmatch & Hset)].
      + left. rewrite Hsame. reflexivity.
      + right. split_and!; [exact Himage | exact Hname | |].
        * intros ns ->. specialize (Hbatch _ eq_refl).
          apply elem_of_list_to_set, list_elem_of_fmap in Hbatch as (n & Hn & Hin).
          exists n. split; [exact Hin | symmetry; exact Hn].
        * exists url. split_and!; [exact Hurl | exact Hmatch |]. rewrite Hset. reflexivity. }
  split_and!.
  - subst ps'. destruct (replace_batch_fmap w ps names) as [->| ->];
      [reflexivity | apply length_fmap].
  - exact Hcases.
  - intros i p Hp Himage.
    assert (is_Some (ps' !! i)) as [p' Hp'].
    { apply lookup_lt_is_Some. subst ps'.
      destruct (replace_batch_fmap w ps names) as [->| ->];
        rewrite ?length_fmap; eapply lookup_lt_Some; exact Hp. }
    destruct (Hcases i p p' Hp Hp') as [->|(Hdummy & _)]; [exact Hp'|contradiction].
  - subst ps'. unfold _replace_dummy_images_for_batch.
    destruct (parse_s3_links_file w) as [|l ls]; [reflexivity|]. apply replace_loop_idem.
  - intros input_filename. apply replace_images_from_links_all_idem.
  - intros input_filename p0 rest key. apply replace_images_from_links_all_products.
Qed.

End ImageReplacement.

(** C3 as stated fails: with the shipped placeholder (the empty string), a
    product named "COKE" whose image is a single blank is given the URL of
    "coke.jpg" in a pass restricted to the name "coke", although its image
    is not the placeholder and its name is not in the set. *)
Lemma replace_images_counterexample :
  (DescriptionWriter._replace_dummy_images_for_batch
     DescriptionWriter.shipped_DUMMY_IMAGE_URL
     (mkWorld ∅ None None (Some "coke.jpg,https://cdn/coke.jpeg"))
     [product "COKE" "" " "] (Some ["coke"])).1
  = [product "COKE" "" "https://cdn/coke.jpeg"]
  /\ get_str (product "COKE" "" " ") "image" <> DescriptionWriter.shipped_DUMMY_IMAGE_URL
  /\ get_str (product "COKE" "" " ") "name" ∉ ["coke"].
Proof.
  split_and!.
  - vm_compute. reflexivity.
  - discriminate.
  - rewrite list_elem_of_singleton. discriminate.
Qed.

Example demo_replace :
  (DescriptionWriter._replace_dummy_images_for_batch
     DescriptionWriter.shipped_DUMMY_IMAGE_URL demo_world
     [product "Coca-Cola" "" ""; product "Aloo Paratha" "" "https://own/aloo.png";
      product "Pantene Smooth & Shine Shampoo" "" ""]
     (Some ["Coca-Cola"; "Pantene Smooth & Shine Shampoo"; "Aloo Paratha"]))
  = ([product "Coca-Cola" "" "https://cdn/Coca-Cola.jpeg";
      product "Aloo Paratha" "" "https://own/aloo.png";
      product "Pantene Smooth & Shine Shampoo" "" ""], 1%Z).
Proof. vm_compute. reflexivity. Qed.

(** ** The ledger file *)

Section LedgerFile.
Import PyStr DescriptionWriter.

Lemma split_first_spec (sep : ascii) (s l r : string) :
  split_first sep s = Some (l, r) ->
  s = l +:+ String sep r /\ contains_char sep l = false.
Proof.
  revert l. induction s as [|c s IH]; intros l; simpl; [discriminate|].
  destruct (Ascii.eqb_spec c sep) as [->|Hc].
  - intros [= <- <-]. split; reflexivity.
  - destruct (split_first sep s) as [[l' r']|]; [|discriminate].
    intros [= <- <-]. destruct (IH l' eq_refl) as [-> Hl']. split; [reflexivity|].
    simpl. rewrite Hl'. destruct (Ascii.eqb_spec c sep); [contradiction | reflexivity].
Qed.

Lemma contains_char_lstrip (c : ascii) (s : string) :
  contains_char c (lstrip s) = true -> contains_char c s = true.
Proof.
  induction s as [|a s IH]; simpl; [discriminate|].
  destruct (isspace a); [|auto]. intros H. rewrite (IH H). apply orb_true_r.
Qed.

Lemma contains_char_rstrip (c : ascii) (s : string) :
  contains_char c (rstrip s) = true -> contains_char c s = true.
Proof.
  induction s as [|a s IH]; simpl; [discriminate|].
  destruct (rstrip s) as [|b r] eqn:Hr.
  - destruct (isspace a); simpl; [discriminate|]. rewrite orb_false_r. intros ->. reflexivity.
  - simpl. intros [->|H]%orb_true_iff; [reflexivity|]. rewrite IH; [apply orb_true_r | exact H].
Qed.

Lemma contains_char_strip (c : ascii) (s : string) :
  contains_char c s = false -> contains_char c (strip s) = false.
Proof.
  intros Hs. unfold strip. destruct (contains_char c (rstrip (lstrip s))) eqn:H; [|reflexivity].
  apply contains_char_rstrip, contains_char_lstrip in H. congruence.
Qed.

(** The first character of a stripped prefix is the first character of the
    text when that one is not white space. *)
Lemma strip_head (c : ascii) (s : string) :
  isspace c = false -> exists t, strip (String c s) = String c t.
Proof.
  intros Hc. unfold strip. simpl. rewrite Hc. simpl.
  destruct (rstrip s); [rewrite Hc|]; eexists; reflexivity.
Qed.

Lemma dict_set_Forall {V : Type} (P : string * V -> Prop) (d : dict V) k v :
  Forall P d -> P (k, v) -> Forall P (dict_set d k v).
Proof.
  intros Hd Hkv. induction Hd as [|[k' v'] d Hk' Hd IH]; simpl.
  - repeat constructor. exact Hkv.
  - destruct (String.eqb_spec k' k) as [->|Hne]; constructor; auto.
Qed.

Lemma dict_get_None_keys {V : Type} (d : dict V) (k : string) :
  dict_get d k = None -> k ∉ dict_keys d.
Proof.
  unfold dict_keys. induction d as [|[k' v'] d IH]; simpl.
  - intros _. apply not_elem_of_nil.
  - destruct (String.eqb_spec k' k) as [->|Hne]; [discriminate|].
    intros Hget. apply not_elem_of_cons. split; [congruence | apply IH, Hget].
Qed.

Lemma dict_set_keys_cases {V : Type} (d : dict V) (k : string) (v : V) :
  dict_keys (dict_set d k v)
  = match dict_get d k with
    | Some _ => dict_keys d
    | None => dict_keys d ++ [k]
    end.
Proof.
  unfold dict_keys. induction d as [|[k' v'] d IH]; simpl; [reflexivity|].
  destruct (String.eqb_spec k' k) as [->|Hne]; simpl; [reflexivity|].
  destruct (dict_get d k); simpl; f_equal; exact IH.
Qed.

(** Assignment keeps the keys of a dictionary distinct. *)
Lemma dict_set_NoDup {V : Type} (d : dict V) (k : string) (v : V) :
  NoDup (dict_keys d) -> NoDup (dict_keys (dict_set d k v)).
Proof.
  intros Hd. rewrite dict_set_keys_cases.
  destruct (dict_get d k) eqn:Hget; [exact Hd|].
  apply NoDup_app. split_and!; [exact Hd | | apply NoDup_singleton].
  intros x Hx ->%list_elem_of_singleton. exact (dict_get_None_keys d k Hget Hx).
Qed.

Lemma universal_newlines_drops_CR (s : string) :
  contains_char CR (universal_newlines s) = false.
Proof.
  induction s as [|c s IH]; [reflexivity|].
  destruct s as [|c' s].
  - simpl. destruct (Ascii.eqb_spec c CR) as [->|Hc]; [reflexivity|]. simpl.
    destruct (Ascii.eqb_spec c CR); [contradiction | reflexivity].
  - rewrite universal_newlines_cons.
    destruct (Ascii.eqb_spec c CR) as [->|Hc].
    + destruct (Ascii.eqb c' LF); [exact IH|]. simpl. exact IH.
    + change (contains_char CR (String c (universal_newlines (String c' s))))
        with (Ascii.eqb c CR || contains_char CR (universal_newlines (String c' s))).
      rewrite IH. destruct (Ascii.eqb_spec c CR); [contradiction | reflexivity].
Qed.

(** Every line is a body without a line break, with or without the newline
    that ends it. *)
Lemma split_keepends_shape (s : string) :
  contains_char CR s = false ->
  Forall (fun l => exists body,
            (l = body \/ l = body +:+ String LF EmptyString)
            /\ contains_char LF body = false /\ contains_char CR body = false)
         (split_keepends s).
Proof.
  induction s as [|c s IH]; intros Hs; [constructor|].
  simpl in Hs. apply orb_false_elim in Hs as [Hc Hs]. specialize (IH Hs).
  rewrite split_keepends_cons. destruct (Ascii.eqb c LF) eqn:HLF.
  - constructor; [|exact IH]. exists EmptyString. split_and!; auto.
  - destruct (split_keepends s) as [|l ls].
    + constructor; [|constructor]. exists (String c EmptyString).
      split_and!; [left; reflexivity | simpl; rewrite HLF; reflexivity
                  | simpl; rewrite Hc; reflexivity].
    + inversion IH as [|? ? (body & Hl & HbLF & HbCR) Hls]; subst.
      constructor; [|exact Hls]. exists (String c body). split_and!.
      * destruct Hl as [->| ->]; [left | right]; reflexivity.
      * simpl. rewrite HLF, HbLF. reflexivity.
      * simpl. rewrite Hc, HbCR. reflexivity.
Qed.

Lemma file_lines_clean (content : string) :
  Forall (fun l => contains_char LF (strip l) = false
                   /\ contains_char CR (strip l) = false) (file_lines content).
Proof.
  unfold file_lines.
  eapply Forall_impl; [apply split_keepends_shape, universal_newlines_drops_CR|].
  intros l (body & Hl & HLF & HCR). simpl.
  destruct Hl as [->| ->]; rewrite ?strip_app_LF; split; apply contains_char_strip; assumption.
Qed.

Lemma startswith_char (c a : ascii) (s : string) :
  startswith (String c s) (String a EmptyString) = Ascii.eqb a c.
Proof. cbn [startswith]. apply andb_true_r. Qed.

Lemma parse_link_line_ok (links : dict string) (raw : string) :
  contains_char LF (strip raw) = false ->
  contains_char CR (strip raw) = false ->
  Forall ledger_entry_ok links ->
  Forall ledger_entry_ok (parse_link_line links raw).
Proof.
  intros HLF HCR Hlinks. unfold parse_link_line.
  destruct (nonempty (strip raw)) eqn:Hne; cbn [negb orb]; [|exact Hlinks].
  destruct (startswith (strip raw) "-") eqn:Hdash; cbn [orb]; [exact Hlinks|].
  destruct (startswith (strip raw) "=") eqn:Hequal; cbn [orb]; [exact Hlinks|].
  destruct (split_first "," (strip raw)) as [[l r]|] eqn:Hsplit; [|exact Hlinks].
  destruct (nonempty (strip l)) eqn:Hl; cbn [andb]; [|exact Hlinks].
  destruct (nonempty (strip r)) eqn:Hr; [|exact Hlinks].
  apply dict_set_Forall; [exact Hlinks|].
  destruct (split_first_spec _ _ _ _ Hsplit) as [Hline Hcomma].
  rewrite Hline, contains_char_app in HLF, HCR. simpl in HLF, HCR.
  apply orb_false_elim in HLF as [HlLF HrLF].
  apply orb_false_elim in HCR as [HlCR HrCR].
  assert (Hhead : startswith (strip l) "-" = false /\ startswith (strip l) "=" = false).
  { pose proof (lstrip_rstrip_head raw) as Hraw. fold (strip raw) in Hraw.
    rewrite Hline in Hraw, Hdash, Hequal.
    destruct l as [|c l]; [discriminate Hl|].
    rewrite append_cons in Hraw, Hdash, Hequal.
    destruct (strip_head c l Hraw) as [t ->].
    rewrite !startswith_char in *. split; assumption. }
  unfold ledger_entry_ok. split_and!;
    try (apply nonempty_true; assumption); try apply strip_idem;
    try (apply contains_char_strip; assumption); apply Hhead.
Qed.

(** X3.  Whatever the ledger file holds, the ledger read from it has
    distinct file names, and every entry is well formed: file name and URL
    are non-empty and stripped, neither holds a line break, and the file
    name holds no comma and does not start with [-] or [=], the marks of the
    header lines. *)
Theorem parse_s3_links_file_well_formed (w : World) :
  Forall ledger_entry_ok (parse_s3_links_file w)
  /\ NoDup (dict_keys (parse_s3_links_file w)).
Proof.
  unfold parse_s3_links_file. destruct (s3_upload_links_txt w) as [content|].
  2: { split; [constructor | apply NoDup_nil_2]. }
  assert (Hgen : forall lines acc,
            Forall (fun l => contains_char LF (strip l) = false
                             /\ contains_char CR (strip l) = false) lines ->
            Forall ledger_entry_ok acc -> NoDup (dict_keys acc) ->
            Forall ledger_entry_ok (foldl parse_link_line acc lines)
            /\ NoDup (dict_keys (foldl parse_link_line acc lines))).
  { induction lines as [|l lines IH]; intros acc Hlines Hacc Hdup; [split; assumption|].
    inversion Hlines as [|? ? [HLF HCR] Hrest]; subst. simpl. apply IH; [exact Hrest| |].
    - apply parse_link_line_ok; assumption.
    - unfold parse_link_line.
      destruct (negb _ || _ || _); [exact Hdup|].
      destruct (split_first "," (strip l)) as [[a b]|]; [|exact Hdup].
      destruct (nonempty (strip a) && nonempty (strip b)); [|exact Hdup].
      apply dict_set_NoDup, Hdup. }
  apply Hgen; [apply file_lines_clean | constructor | apply NoDup_nil_2].
Qed.

End LedgerFile.

Section LedgerRoundTrip.
Import PyStr DescriptionWriter.

Example str_of_Z_examples :
  str_of_Z 0 = "0" /\ str_of_Z 50 = "50" /\ str_of_Z 1234567 = "1234567"
  /\ str_of_Z (-7) = "-7".
Proof. vm_compute. repeat split. Qed.

Example generate_output_batches_example :
  s3_upload_links_txt
    (ImageUploader.generate_output_batches
       [("a.jpg", "https://cdn/a.jpeg"); ("b.jpg", "https://cdn/b.jpeg");
        ("c.jpg", "https://cdn/c.jpeg")] 2 (fresh_world ∅)).1
  = Some "--- S3 Upload Links Batch Output ---

===== BATCH 1 (Images 1 to 2) =====
a.jpg,https://cdn/a.jpeg
b.jpg,https://cdn/b.jpeg

===== BATCH 2 (Images 3 to 3) =====
c.jpg,https://cdn/c.jpeg

".
Proof. vm_compute. reflexivity. Qed.

Lemma append_nil_r (s : string) : s +:+ EmptyString = s.
Proof. induction s as [|c s IH]; [reflexivity|]. rewrite append_cons, IH. reflexivity. Qed.

Lemma write_lines_app (a b : list string) :
  write_lines (a ++ b) = write_lines a +:+ write_lines b.
Proof.
  induction a as [|n a IH]; [reflexivity|]. simpl. rewrite IH, !append_assoc. reflexivity.
Qed.

(** A text written line by line is read back line by line. *)
Lemma file_lines_write_lines (bodies : list string) :
  Forall (fun b => contains_char LF b = false /\ contains_char CR b = false) bodies ->
  file_lines (write_lines bodies) = (fun b => b +:+ String LF EmptyString) <$> bodies.
Proof.
  induction 1 as [|n bodies [HLF HCR] _ IH]; [reflexivity|]. simpl.
  rewrite <- append_assoc. unfold file_lines in *.
  rewrite universal_newlines_app by apply terminated_line.
  rewrite split_keepends_app by apply terminated_universal_newlines, terminated_line.
  rewrite IH. f_equal.
  rewrite universal_newlines_no_CR by (rewrite contains_char_app, HCR; reflexivity).
  rewrite split_keepends_no_LF by exact HLF. reflexivity.
Qed.

Lemma rstrip_app_fixed (x v : string) :
  v <> EmptyString -> rstrip v = v -> rstrip (x +:+ v) = x +:+ v.
Proof.
  intros Hne Hv. induction x as [|c x IH]; [exact Hv|].
  rewrite append_cons. simpl. rewrite IH.
  destruct (x +:+ v) eqn:Hxv; [|reflexivity].
  destruct x; [rewrite append_nil_l in Hxv; contradiction | discriminate].
Qed.

Lemma strip_fixed_head (s : string) :
  s <> EmptyString -> strip s = s ->
  exists c t, s = String c t /\ isspace c = false /\ rstrip s = s.
Proof.
  intros Hne Hs. pose proof (lstrip_rstrip_head s) as Hhead. fold (strip s) in Hhead.
  rewrite Hs in Hhead. destruct s as [|c t]; [contradiction|].
  exists c, t. split_and!; [reflexivity | exact Hhead|].
  unfold strip in Hs. simpl in Hs. rewrite Hhead in Hs. exact Hs.
Qed.

Lemma split_first_app (sep : ascii) (l r : string) :
  contains_char sep l = false -> split_first sep (l +:+ String sep r) = Some (l, r).
Proof.
  induction l as [|c l IH]; intros Hl.
  - rewrite append_nil_l. simpl. rewrite Ascii.eqb_refl. reflexivity.
  - simpl in Hl. apply orb_false_elim in Hl as [Hc Hl]. rewrite append_cons. simpl.
    rewrite Hc, IH by exact Hl. reflexivity.
Qed.

(** The line of a well-formed entry is read back as that entry. *)
Lemma parse_entry_line (links : dict string) (filename url : string) :
  ledger_entry_ok (filename, url) ->
  parse_link_line links ((filename +:+ "," +:+ url) +:+ String LF EmptyString)
  = dict_set links filename url.
Proof.
  intros (Hk & Hv & Hsk & Hsv & Hcomma & Hdash & Hequal & _).
  destruct (strip_fixed_head filename Hk Hsk) as (c & t & -> & Hc & _).
  destruct (strip_fixed_head url Hv Hsv) as (c' & t' & Hurl & _ & Hrv).
  assert (Hline : strip ((String c t +:+ "," +:+ url) +:+ String LF EmptyString)
                  = String c t +:+ "," +:+ url).
  { rewrite strip_app_LF. unfold strip. rewrite append_cons. simpl lstrip. rewrite Hc.
    rewrite <- append_cons.
    replace (String c t +:+ "," +:+ url) with ((String c t +:+ ",") +:+ url)
      by apply append_assoc.
    apply rstrip_app_fixed; assumption. }
  unfold parse_link_line. rewrite Hline.
  rewrite (append_cons c t), !startswith_char.
  rewrite !startswith_char in Hdash, Hequal. rewrite Hdash, Hequal. cbn [nonempty negb orb].
  rewrite <- (append_cons c t).
  change ("," +:+ url) with (String "," url).
  rewrite split_first_app by exact Hcomma.
  rewrite Hsk, Hsv. rewrite Hurl. cbn [nonempty andb]. reflexivity.
Qed.

(** Title, header and blank lines leave the ledger as it is. *)
Lemma parse_skip_line (links : dict string) (body : string) :
  body = EmptyString
  \/ (exists t, body = String "-" t) \/ (exists t, body = String "=" t) ->
  parse_link_line links (body +:+ String LF EmptyString) = links.
Proof.
  intros Hbody. unfold parse_link_line. rewrite strip_app_LF.
  destruct Hbody as [->|[[t ->]|[t ->]]]; [reflexivity| |].
  - destruct (strip_head "-" t eq_refl) as [t' ->]. rewrite startswith_char. reflexivity.
  - destruct (strip_head "=" t eq_refl) as [t' ->]. rewrite !startswith_char. reflexivity.
Qed.

Lemma dict_set_fresh {V : Type} (d : dict V) (k : string) (v : V) :
  k ∉ dict_keys d -> dict_set d k v = d ++ [(k, v)].
Proof.
  unfold dict_keys. induction d as [|[k' v'] d IH]; simpl; [reflexivity|].
  intros [Hne Hd]%not_elem_of_cons.
  destruct (String.eqb_spec k' k); [congruence|]. rewrite IH by exact Hd. reflexivity.
Qed.

(** Assigning the entries of a dictionary one by one builds it again. *)
Lemma foldl_dict_set_NoDup {V : Type} (links : dict V) :
  forall acc : dict V,
    NoDup (dict_keys acc ++ dict_keys links) ->
    foldl (fun d kv => dict_set d kv.1 kv.2) acc links = acc ++ links.
Proof.
  induction links as [|[k v] links IH]; intros acc Hdup; simpl.
  - rewrite app_nil_r. reflexivity.
  - assert (Hk : k ∉ dict_keys acc).
    { apply NoDup_app in Hdup as (_ & Hdisj & _). intros Hin.
      apply (Hdisj k Hin). left. }
    rewrite dict_set_fresh by exact Hk. rewrite IH.
    + rewrite <- app_assoc. reflexivity.
    + unfold dict_keys in *. rewrite fmap_app, <- app_assoc. exact Hdup.
Qed.

Local Open Scope Z_scope.

(** Decimal digits are neither line breaks nor commas. *)
Lemma string_of_uint_no (c : ascii) (d : Decimal.uint) :
  between 48 57 (code c) = false ->
  contains_char c (NilEmpty.string_of_uint d) = false.
Proof.
  intros Hc.
  induction d; cbn [NilEmpty.string_of_uint contains_char]; [reflexivity|..];
    rewrite IHd, orb_false_r; apply Ascii.eqb_neq; intros <-; vm_compute in Hc;
    discriminate.
Qed.

Lemma str_of_Z_no (c : ascii) (n : Z) :
  between 48 57 (code c) = false -> c <> "-"%char ->
  contains_char c (str_of_Z n) = false.
Proof.
  intros Hc Hminus. unfold str_of_Z, NilZero.string_of_int, NilZero.string_of_uint.
  assert (Hzero : contains_char c "0" = false).
  { cbn [contains_char]. rewrite orb_false_r. apply Ascii.eqb_neq. intros <-.
    vm_compute in Hc. discriminate. }
  assert (Hsign : Ascii.eqb "-" c = false) by (apply Ascii.eqb_neq; congruence).
  destruct (Z.to_int n) as [d|d]; cbn [contains_char]; rewrite ?Hsign, ?orb_false_l;
    (destruct d; [exact Hzero|..]; apply string_of_uint_no; exact Hc).
Qed.

(** One written line, read back: the parser sees it, then the rest. *)
Lemma parse_lines_cons (acc : dict string) (body rest : string) :
  contains_char LF body = false -> contains_char CR body = false ->
  foldl parse_link_line acc (file_lines ((body +:+ String LF EmptyString) +:+ rest))
  = foldl parse_link_line (parse_link_line acc (body +:+ String LF EmptyString))
      (file_lines rest).
Proof.
  intros HLF HCR. unfold file_lines.
  rewrite universal_newlines_app by apply terminated_line.
  rewrite split_keepends_app by apply terminated_universal_newlines, terminated_line.
  rewrite universal_newlines_no_CR by (rewrite contains_char_app, HCR; reflexivity).
  rewrite split_keepends_no_LF by exact HLF. reflexivity.
Qed.

(** The entry lines of one batch, read back, are assigned in order. *)
Lemma parse_entry_lines (batch : dict string) :
  Forall ledger_entry_ok batch ->
  forall (acc : dict string) (rest : string),
    foldl parse_link_line acc
      (file_lines
         (foldr (fun kv text => (kv.1 +:+ "," +:+ kv.2 +:+ ImageUploader.newline) +:+ text)
            EmptyString batch +:+ rest))
    = foldl parse_link_line (foldl (fun d kv => dict_set d kv.1 kv.2) acc batch)
        (file_lines rest).
Proof.
  induction 1 as [|[filename url] batch Hok _ IH]; intros acc rest; [reflexivity|].
  cbn [foldr foldl fst snd].
  rewrite (append_assoc (filename +:+ "," +:+ url +:+ ImageUploader.newline)).
  replace (filename +:+ "," +:+ url +:+ ImageUploader.newline)
    with ((filename +:+ "," +:+ url) +:+ String LF EmptyString)
    by (unfold ImageUploader.newline; rewrite !append_assoc; reflexivity).
  pose proof Hok as (_ & _ & _ & _ & Hcomma & _ & _ & HkLF & HkCR & HvLF & HvCR).
  rewrite parse_lines_cons.
  - rewrite parse_entry_line by exact Hok. apply IH.
  - rewrite !contains_char_app, HkLF, HvLF. reflexivity.
  - rewrite !contains_char_app, HkCR, HvCR. reflexivity.
Qed.

(** One block of the file, read back: its header and its closing blank
    line are skipped, its entries assigned. *)
Lemma parse_batch_text (items : dict string) (batch_size num_items i : Z) :
  Forall ledger_entry_ok items ->
  forall (acc : dict string) (rest : string),
    foldl parse_link_line acc
      (file_lines (ImageUploader.batch_text items batch_size num_items i +:+ rest))
    = foldl parse_link_line
        (foldl (fun d kv => dict_set d kv.1 kv.2) acc
           (ImageUploader.batch_slice items i batch_size))
        (file_lines rest).
Proof.
  intros Hok acc rest. unfold ImageUploader.batch_text.
  set (header := "===== BATCH " +:+ str_of_Z (i / batch_size + 1) +:+ " (Images "
                 +:+ str_of_Z (i + 1) +:+ " to "
                 +:+ str_of_Z (Z.min (i + batch_size) num_items) +:+ ") =====").
  replace ("===== BATCH " +:+ str_of_Z (i / batch_size + 1) +:+ " (Images "
           +:+ str_of_Z (i + 1) +:+ " to "
           +:+ str_of_Z (Z.min (i + batch_size) num_items) +:+ ") ====="
           +:+ ImageUploader.newline)
    with (header +:+ String LF EmptyString)
    by (unfold header, ImageUploader.newline; rewrite !append_assoc; reflexivity).
  rewrite !append_assoc, <- (append_assoc header).
  rewrite parse_lines_cons.
  - rewrite parse_skip_line by (right; right; eexists; reflexivity).
    rewrite parse_entry_lines.
    + unfold ImageUploader.newline.
      change (String LF EmptyString +:+ rest)
        with ((EmptyString +:+ String LF EmptyString) +:+ rest).
      rewrite parse_lines_cons by reflexivity.
      rewrite parse_skip_line by (left; reflexivity). reflexivity.
    + unfold ImageUploader.batch_slice.
      apply Forall_take, Forall_drop, Hok.
  - unfold header. rewrite !contains_char_app, !str_of_Z_no by (reflexivity || discriminate).
    reflexivity.
  - unfold header. rewrite !contains_char_app, !str_of_Z_no by (reflexivity || discriminate).
    reflexivity.
Qed.

Lemma foldl_dict_set_slice (items acc : dict string) (i batch_size : Z) :
  0 <= i -> 0 < batch_size ->
  foldl (fun d kv => dict_set d kv.1 kv.2)
    (foldl (fun d kv => dict_set d kv.1 kv.2) acc (ImageUploader.batch_slice items i batch_size))
    (drop (Z.to_nat (i + batch_size)) items)
  = foldl (fun d kv => dict_set d kv.1 kv.2) acc (drop (Z.to_nat i) items).
Proof.
  intros Hi Hb. unfold ImageUploader.batch_slice. rewrite <- foldl_app.
  replace (Z.to_nat (i + batch_size)) with (Z.to_nat i + Z.to_nat batch_size)%nat by lia.
  rewrite <- drop_drop, take_drop. reflexivity.
Qed.

(** All blocks from index [i] on, read back, assign the items from [i] on. *)
Lemma parse_blocks (items : dict string) (batch_size : Z) :
  Forall ledger_entry_ok items -> 0 < batch_size ->
  forall (fuel : nat) (i : Z) (acc : dict string),
    0 <= i -> (Z.to_nat (Z.of_nat (length items) - i) <= fuel)%nat ->
    foldl parse_link_line acc
      (file_lines
         (foldr (fun i text =>
                   ImageUploader.batch_text items batch_size (Z.of_nat (length items)) i
                   +:+ text)
            EmptyString
            (ImageUploader.range_up fuel i (Z.of_nat (length items)) batch_size)))
    = foldl (fun d kv => dict_set d kv.1 kv.2) acc (drop (Z.to_nat i) items).
Proof.
  intros Hok Hb. induction fuel as [|fuel IH]; intros i acc Hi Hfuel.
  - rewrite drop_ge by lia. reflexivity.
  - cbn [ImageUploader.range_up]. destruct (Z.ltb_spec i (Z.of_nat (length items))).
    + cbn [foldr]. rewrite parse_batch_text by exact Hok.
      rewrite IH by lia. apply foldl_dict_set_slice; lia.
    + rewrite drop_ge by lia. reflexivity.
Qed.

(** The ledger file written for [links], read back. *)
Lemma parse_generated (links : dict string) (batch_size : Z) (w : World) :
  Forall ledger_entry_ok links -> 0 < batch_size ->
  parse_s3_links_file (ImageUploader.generate_output_batches links batch_size w).1
  = foldl (fun d kv => dict_set d kv.1 kv.2) [] links.
Proof.
  intros Hok Hb. unfold ImageUploader.generate_output_batches, ImageUploader.batch_starts.
  destruct (Z.eqb_spec batch_size 0); [lia|]. destruct (Z.ltb_spec batch_size 0); [lia|].
  unfold parse_s3_links_file. cbn [fst s3_upload_links_txt].
  unfold ImageUploader.newline at 1 2.
  rewrite !append_assoc, <- (append_assoc "--- S3 Upload Links Batch Output ---").
  rewrite parse_lines_cons by reflexivity.
  rewrite parse_skip_line by (right; left; eexists; reflexivity).
  match goal with
  | |- context [String LF EmptyString +:+ ?rest] =>
      change (String LF EmptyString +:+ rest)
        with ((EmptyString +:+ String LF EmptyString) +:+ rest)
  end.
  rewrite parse_lines_cons by reflexivity.
  rewrite parse_skip_line by (left; reflexivity).
  rewrite parse_blocks by (assumption || lia). reflexivity.
Qed.

(** X4.  Round trip of the ledger file between the two scripts: when the
    uploader writes a dictionary of links whose entries are well formed (file
    names and URLs non-empty, without surrounding white space or line
    breaks, the file name without a comma and not starting with "-" or "=")
    in batches of a positive size, the call does not raise and the
    description writer reads back exactly that dictionary, entries in the
    same order, whatever the batch size. *)
Theorem ledger_roundtrip (links : dict string) (batch_size : Z) (w : World) :
  Forall ledger_entry_ok links -> NoDup (dict_keys links) -> 0 < batch_size ->
  (ImageUploader.generate_output_batches links batch_size w).2 = false
  /\ parse_s3_links_file (ImageUploader.generate_output_batches links batch_size w).1
     = links.
Proof.
  intros Hok Hdup Hb. split.
  - unfold ImageUploader.generate_output_batches, ImageUploader.batch_starts.
    destruct (Z.eqb_spec batch_size 0); [lia|]. destruct (batch_size <? 0); reflexivity.
  - rewrite parse_generated by assumption.
    rewrite foldl_dict_set_NoDup by exact Hdup. reflexivity.
Qed.

Lemma ledger_roundtrip_witness :
  let links := [("Masala_Dosa.jpg", "https://cdn/Masala_Dosa.jpeg");
                ("Idli.jpg", "https://cdn/Idli.jpeg");
                ("Vada_1.jpg", "https://cdn/Vada_1.jpeg")] in
  parse_s3_links_file (ImageUploader.generate_output_batches links 2 (fresh_world ∅)).1
  = links.
Proof.
  intros links.
  refine (proj2 (ledger_roundtrip links 2 (fresh_world ∅) _ _ _)).
  - repeat constructor; vm_compute; congruence.
  - apply (bool_decide_unpack _). vm_compute. exact I.
  - lia.
Defined.

End LedgerRoundTrip.

(** ** The call to the text generation service *)

Section ServiceCall.
Import DescriptionWriter.
Local Open Scope Z_scope.

Lemma retry_loop_bounds (post : nat -> Response) (n_keys : Z) (remaining : nat) :
  forall (attempt : nat) (index : Z) (sent : nat),
    0 <= index < n_keys ->
    let call := retry_loop post n_keys remaining attempt index sent in
    (sent <= requests_sent call <= sent + remaining)%nat
    /\ index <= key_index call < n_keys
    /\ key_index call - index <= Z.of_nat (requests_sent call - sent)
    /\ exists response, api_result call = ApiReturn response.
Proof.
  induction remaining as [|remaining IH]; intros attempt index sent Hindex; cbn [retry_loop].
  - cbn. split_and!; try lia. eexists; reflexivity.
  - destruct (Z.ltb_spec index (- n_keys)); [lia|]. destruct (Z.leb_spec n_keys index); [lia|].
    cbn [orb]. destruct (post attempt) as [|body|].
    + unfold switch_api_key. destruct (Z.ltb_spec index (n_keys - 1)).
      * specialize (IH (S attempt) (index + 1) (S sent) ltac:(lia)).
        cbn zeta in IH. destruct IH as (Hsent & Hkey & Hstep & Hres).
        split_and!; try lia. exact Hres.
      * cbn. split_and!; try lia. eexists; reflexivity.
    + cbn. split_and!; try lia. eexists; reflexivity.
    + specialize (IH (S attempt) index (S sent) Hindex).
      cbn zeta in IH. destruct IH as (Hsent & Hkey & Hstep & Hres).
      split_and!; try lia. exact Hres.
Qed.

(** Every answer the call returns is one the service gave, or one of the
    two error reports. *)
Lemma retry_loop_answer (post : nat -> Response) (n_keys : Z) (remaining : nat) :
  forall (attempt : nat) (index : Z) (sent : nat) (response : JSON),
    api_result (retry_loop post n_keys remaining attempt index sent) = ApiReturn response ->
    (exists k, (attempt <= k < attempt + remaining)%nat /\ post k = Answer response)
    \/ own_error_report response.
Proof.
  induction remaining as [|remaining IH]; intros attempt index sent response;
    cbn [retry_loop].
  - cbn. intros [= <-]. right. right. reflexivity.
  - destruct ((index <? - n_keys) || (n_keys <=? index)); [discriminate|].
    destruct (post attempt) as [|body|] eqn:Hpost.
    + destruct (switch_api_key n_keys index) as [index' [|]].
      * intros Hres. destruct (IH _ _ _ _ Hres) as [(k & Hk & Hans)|Herr]; [left|right; exact Herr].
        exists k. split; [lia | exact Hans].
      * cbn. intros [= <-]. right. left. reflexivity.
    + cbn. intros [= <-]. left. exists attempt. split; [lia | exact Hpost].
    + intros Hres. destruct (IH _ _ _ _ Hres) as [(k & Hk & Hans)|Herr]; [left|right; exact Herr].
      exists k. split; [lia | exact Hans].
Qed.

(** X5.  A call to the text generation service that starts on a valid key
    sends at most [MAX_RETRIES] (five) requests, rate-limited ones included;
    it never raises: it returns an answer of the service or one of its two
    error reports; the key index only moves forward, by at most one per
    request sent, and stays a valid index. *)
Theorem call_gemini_api_bounded (post : nat -> Response) (n_keys CURRENT_KEY_INDEX : Z) :
  0 <= CURRENT_KEY_INDEX < n_keys ->
  let call := call_gemini_api_with_retry post n_keys CURRENT_KEY_INDEX in
  (requests_sent call <= 5)%nat
  /\ CURRENT_KEY_INDEX <= key_index call < n_keys
  /\ key_index call - CURRENT_KEY_INDEX <= Z.of_nat (requests_sent call)
  /\ exists response,
       api_result call = ApiReturn response
       /\ ((exists k, (k < 5)%nat /\ post k = Answer response)
           \/ own_error_report response).
Proof.
  intros Hindex call. subst call. unfold call_gemini_api_with_retry.
  destruct (retry_loop_bounds post n_keys MAX_RETRIES 0 CURRENT_KEY_INDEX 0 Hindex)
    as (Hsent & Hkey & Hstep & response & Hres).
  unfold MAX_RETRIES in *. split_and!; try lia.
  exists response. split; [exact Hres|].
  destruct (retry_loop_answer post n_keys 5 0 CURRENT_KEY_INDEX 0 response Hres)
    as [(k & Hk & Hans)|Herr]; [left|right; exact Herr].
  exists k. split; [lia | exact Hans].
Qed.

Lemma call_gemini_api_bounded_witness :
  let post := fun k : nat => if (k <? 2)%nat then Status429 else Answer (JList []) in
  key_index (call_gemini_api_with_retry post 3 0) = 2
  /\ requests_sent (call_gemini_api_with_retry post 3 0) = 3%nat
  /\ 0 <= key_index (call_gemini_api_with_retry post 3 0) < 3.
Proof.
  intros post. split; [reflexivity|]. split; [reflexivity|].
  destruct (call_gemini_api_bounded post 3 0 ltac:(lia)) as (_ & Hkey & _). exact Hkey.
Defined.

(** X6.  Rate-limited requests use up the attempts of a call: when every
    request is answered with status 429 and more than [MAX_RETRIES] keys lie
    ahead, the call gives up after five requests with the report of failed
    retries, five keys further on, although keys are left; without any key
    configured, or with the key index past the last key, it raises
    [IndexError] before sending anything. *)
Theorem call_gemini_api_rate_limited (post : nat -> Response) (n_keys CURRENT_KEY_INDEX : Z) :
  (forall k, post k = Status429) ->
  (0 <= CURRENT_KEY_INDEX /\ CURRENT_KEY_INDEX + 5 < n_keys ->
   call_gemini_api_with_retry post n_keys CURRENT_KEY_INDEX
   = mkApiCall (ApiReturn (error_response "API call failed after multiple retries."))
       (CURRENT_KEY_INDEX + 5) 5)
  /\ (0 <= CURRENT_KEY_INDEX /\ n_keys <= CURRENT_KEY_INDEX ->
      call_gemini_api_with_retry post n_keys CURRENT_KEY_INDEX
      = mkApiCall ApiIndexError CURRENT_KEY_INDEX 0).
Proof.
  intros Hpost. split.
  - intros [Hlo Hhi]. unfold call_gemini_api_with_retry, MAX_RETRIES.
    assert (Hstep : forall remaining attempt index sent,
               0 <= index -> index + Z.of_nat remaining < n_keys ->
               retry_loop post n_keys remaining attempt index sent
               = mkApiCall
                   (ApiReturn (error_response "API call failed after multiple retries."))
                   (index + Z.of_nat remaining) (sent + remaining)).
    { induction remaining as [|remaining IH]; intros attempt index sent Hindex Hroom;
        cbn [retry_loop].
      - f_equal; [lia | lia].
      - destruct (Z.ltb_spec index (- n_keys)); [lia|].
        destruct (Z.leb_spec n_keys index); [lia|]. cbn [orb]. rewrite Hpost.
        unfold switch_api_key. destruct (Z.ltb_spec index (n_keys - 1)); [|lia].
        rewrite IH by lia. f_equal; lia. }
    rewrite Hstep by (cbn; lia). reflexivity.
  - intros [Hlo Hhi]. unfold call_gemini_api_with_retry, MAX_RETRIES. cbn [retry_loop].
    destruct (Z.leb_spec n_keys CURRENT_KEY_INDEX); [|lia]. rewrite orb_true_r. reflexivity.
Qed.

Lemma call_gemini_api_rate_limited_witness :
  call_gemini_api_with_retry (fun _ => Status429) 8 1
  = mkApiCall (ApiReturn (error_response "API call failed after multiple retries.")) 6 5
  /\ call_gemini_api_with_retry (fun _ => Status429) 0 0 = mkApiCall ApiIndexError 0 0.
Proof.
  destruct (call_gemini_api_rate_limited (fun _ => Status429) 8 1 (fun _ => eq_refl))
    as [Hgive_up _].
  destruct (call_gemini_api_rate_limited (fun _ => Status429) 0 0 (fun _ => eq_refl))
    as [_ Hraise].
  split; [apply Hgive_up; lia | apply Hraise; lia].
Defined.

End ServiceCall.

(** ** What the description writer leaves alone *)

Section CatalogEffects.
Import PyStr DescriptionWriter.
Local Open Scope Z_scope.

Variable dummy : string.

Lemma field_set_str_ne (p : JSON) (k k' v : string) :
  k <> k' -> field (set_str p k v) k' = field p k'.
Proof. intros Hne. destruct p; try reflexivity. simpl. apply dict_get_set_ne, Hne. Qed.

Lemma replace_dummy_image_frame (names_lower : option (gset string))
    (base_to_url : dict string) (p : JSON) :
  let result := replace_dummy_image dummy names_lower base_to_url p in
  (result.2 = false -> result.1 = p)
  /\ forall key, key <> "image" -> field result.1 key = field p key.
Proof.
  destruct (replace_dummy_image_cases dummy names_lower base_to_url p)
    as [->|(_ & _ & _ & url & _ & _ & ->)]; cbn [fst snd].
  - split; reflexivity.
  - split; [discriminate|]. intros key Hkey. apply field_set_str_ne. congruence.
Qed.

Lemma replace_loop_frame (names_lower : option (gset string))
    (base_to_url : dict string) (ps : list JSON) :
  let result := replace_loop dummy names_lower base_to_url ps in
  0 <= result.2 <= Z.of_nat (length ps)
  /\ (result.2 = 0 -> result.1 = ps)
  /\ Forall2 (fun p p' => forall key, key <> "image" -> field p' key = field p key)
       ps result.1.
Proof.
  induction ps as [|p ps IH]; cbn [replace_loop].
  - cbn. split_and!; [lia | lia | reflexivity | constructor].
  - pose proof (replace_dummy_image_frame names_lower base_to_url p) as [Hmiss Hframe].
    destruct (replace_dummy_image dummy names_lower base_to_url p) as [p' hit].
    destruct (replace_loop dummy names_lower base_to_url ps) as [ps' n].
    cbn [fst snd length] in *. destruct IH as (Hn & Hzero & Hall).
    split_and!.
    + destruct hit; lia.
    + destruct hit; lia.
    + intros Hcount. destruct hit; [lia|]. rewrite Hmiss, Hzero by auto. reflexivity.
    + constructor; [exact Hframe | exact Hall].
Qed.

(** X7.  The replacement pass touches nothing but images: it returns as
    many products as it was given, each with every field other than [image]
    as before; the count it returns lies between zero and the number of
    products, and a count of zero means that no product was changed at
    all. *)
Theorem replacement_touches_images_only (w : World) (all_products : list JSON)
    (batch_names : option (list string)) :
  let result := _replace_dummy_images_for_batch dummy w all_products batch_names in
  0 <= result.2 <= Z.of_nat (length all_products)
  /\ (result.2 = 0 -> result.1 = all_products)
  /\ length result.1 = length all_products
  /\ forall i p p' key,
       all_products !! i = Some p -> result.1 !! i = Some p' -> key <> "image" ->
       field p' key = field p key.
Proof.
  unfold _replace_dummy_images_for_batch. destruct (parse_s3_links_file w) as [|l ls].
  - cbn. split_and!; [lia | lia | reflexivity | reflexivity |].
    intros i p p' key Hp Hp' _. congruence.
  - set (names_lower := _ <$> batch_names). set (base_to_url := base_to_url_of (l :: ls)).
    destruct (replace_loop_frame names_lower base_to_url all_products)
      as (Hn & Hzero & Hall).
    split_and!; [lia | lia | exact Hzero | symmetry; eapply Forall2_length, Hall |].
    intros i p p' key Hp Hp' Hkey.
    destruct (Forall2_lookup_l _ _ _ _ _ Hall Hp) as (q & Hq & Hframe).
    rewrite Hq in Hp'. injection Hp' as <-. apply Hframe, Hkey.
Qed.

Lemma load_products_same_files (w w' : World) (filename : string) :
  json_files w' = json_files w -> load_products w' filename = load_products w filename.
Proof. unfold load_products. intros ->. reflexivity. Qed.

Lemma catalog_stage_ok_refl (filename : string) (w : World) : catalog_stage_ok filename w w.
Proof. unfold catalog_stage_ok. auto. Qed.

(** Saving a list of the same length in place. *)
Lemma save_in_place_ok (w w0 : World) (filename : string) p ps key (saved : list JSON) :
  json_files w0 = json_files w -> s3_upload_links_txt w0 = s3_upload_links_txt w ->
  load_products w filename = (p :: ps, key) ->
  length saved = length (p :: ps) ->
  catalog_stage_ok filename w (save_products w0 filename saved key true).1.
Proof.
  intros Hfiles Hledger Hload Hlen.
  assert (Hload0 : load_products w0 filename = (p :: ps, key))
    by (rewrite (load_products_same_files w w0) by exact Hfiles; exact Hload).
  destruct (load_after_save w0 filename p ps key saved Hload0) as (Hload1 & _ & Hs3 & _).
  unfold catalog_stage_ok. rewrite Hload1, Hload. cbn [fst snd].
  split_and!; [congruence | | exact Hlen | reflexivity].
  intros other Hother. rewrite <- Hfiles. unfold save_products.
  destruct key as [key|].
  - destruct (json_files w0 !! filename) as [[]|]; try reflexivity.
    cbn. apply lookup_insert_ne. congruence.
  - cbn. apply lookup_insert_ne. congruence.
Qed.

Lemma replace_batch_length (w : World) (ps : list JSON) (names : option (list string)) :
  length (_replace_dummy_images_for_batch dummy w ps names).1 = length ps.
Proof.
  destruct (replace_batch_fmap dummy w ps names) as [->| ->];
    [reflexivity | apply length_fmap].
Qed.

Lemma foldl_apply_entry_length (ps rs : list JSON) :
  forall st, length (products (foldl (apply_entry ps) st rs)) = length (products st).
Proof.
  induction rs as [|r rs IH]; intros st; [reflexivity|]. cbn [foldl]. rewrite IH.
  unfold apply_entry. destruct (matched ps r); [|reflexivity]. cbn. apply length_alter.
Qed.

(** X8.  The three entry points of the description writer write to one
    catalog only: the ledger file and every other JSON file are left as they
    were, and the catalog comes out with the same wrapper key and the same
    number of products, whatever the service answers; the two replacement
    entry points leave the two tracker files alone as well. *)
Theorem description_writer_file_effects (service : list JSON -> list JSON)
    (input_filename : string) (batch_size : option Z) (w : World) :
  catalog_stage_ok input_filename w (main dummy service input_filename batch_size w)
  /\ catalog_stage_ok input_filename w (replace_images_for_last_batch dummy input_filename w)
  /\ catalog_stage_ok input_filename w (replace_images_from_links_all dummy input_filename w)
  /\ processed_items_txt (replace_images_for_last_batch dummy input_filename w)
     = processed_items_txt w
  /\ image_batch_names_txt (replace_images_for_last_batch dummy input_filename w)
     = image_batch_names_txt w
  /\ processed_items_txt (replace_images_from_links_all dummy input_filename w)
     = processed_items_txt w
  /\ image_batch_names_txt (replace_images_from_links_all dummy input_filename w)
     = image_batch_names_txt w.
Proof.
  split_and!; try apply replace_images_for_last_batch_tracker;
    try apply replace_images_from_links_all_tracker.
  - unfold main.
    destruct (load_products w input_filename) as [[|p ps] key] eqn:Hload;
      [apply catalog_stage_ok_refl|].
    destruct (_select_next_batch w (p :: ps) _) as [|b batch].
    + destruct (read_batch_names w) as [|n ns]; [apply catalog_stage_ok_refl|].
      pose proof (replace_batch_length w (p :: ps) (Some (n :: ns))) as Hlen.
      destruct (_replace_dummy_images_for_batch _ _ _ _) as [ps' k].
      eapply save_in_place_ok; [reflexivity | reflexivity | exact Hload | exact Hlen].
    + destruct (service (b :: batch)) as [|r results]; [apply catalog_stage_ok_refl|].
      set (st := _apply_enhancements_to_products (p :: ps) (r :: results)).
      set (w2 := append_processed_names (enhanced_names st)
                   (write_batch_names (enhanced_names st) w)).
      pose proof (replace_batch_length w2 (products st) (Some (enhanced_names st))) as Hlen.
      destruct (_replace_dummy_images_for_batch _ _ _ _) as [ps' k].
      eapply save_in_place_ok; [reflexivity | reflexivity | exact Hload |].
      cbn [fst] in Hlen. rewrite Hlen. unfold st.
      rewrite apply_enhancements_entries. apply foldl_apply_entry_length.
  - unfold replace_images_for_last_batch.
    destruct (load_products w input_filename) as [[|p ps] key] eqn:Hload;
      [apply catalog_stage_ok_refl|].
    destruct (read_batch_names w) as [|n ns]; [apply catalog_stage_ok_refl|].
    pose proof (replace_batch_length w (p :: ps) (Some (n :: ns))) as Hlen.
    destruct (_replace_dummy_images_for_batch _ _ _ _) as [ps' k].
    eapply save_in_place_ok; [reflexivity | reflexivity | exact Hload | exact Hlen].
  - unfold replace_images_from_links_all.
    destruct (load_products w input_filename) as [[|p ps] key] eqn:Hload;
      [apply catalog_stage_ok_refl|].
    destruct (parse_s3_links_file w) as [|l ls]; [apply catalog_stage_ok_refl|].
    pose proof (replace_loop_length dummy None (base_to_url_of (l :: ls)) (p :: ps)) as Hlen.
    destruct (replace_loop _ _ _ _) as [ps' k].
    eapply save_in_place_ok; [reflexivity | reflexivity | exact Hload | exact Hlen].
Qed.

End CatalogEffects.

(** ** Progress from run to run *)

Section Progress.
Import PyStr DescriptionWriter.

Variable dummy : string.

Lemma named_is_dict (p : JSON) :
  get_str p "name" <> EmptyString -> exists members, p = JDict members.
Proof. destruct p; try (intros []; reflexivity). eexists; reflexivity. Qed.

Lemma recorded_apply_entry (ps : list JSON) (st : Applied) (item : JSON) (i : nat) :
  recorded st i -> recorded (apply_entry ps st item) i.
Proof.
  intros (p & Hp & Hne & Hin). unfold apply_entry.
  destruct (matched ps item) as [j|]; [|exists p; auto].
  unfold recorded. cbn [products enhanced_names].
  destruct (decide (j = i)) as [->|Hji].
  - exists (overwrite item p). rewrite list_lookup_alter_eq, Hp. split; [reflexivity|].
    destruct (named_is_dict p Hne) as [members ->].
    destruct (overwrite_fields item members) as (-> & _). unfold canonical_name.
    destruct (nonempty (get_str item "enhancedName")) eqn:Hnew.
    + split; [apply nonempty_true, Hnew | apply elem_of_app; right; left].
    + split; [exact Hne | apply elem_of_app; left; exact Hin].
  - exists p. rewrite list_lookup_alter_ne by exact Hji.
    split_and!; [exact Hp | exact Hne | apply elem_of_app; left; exact Hin].
Qed.

Lemma recorded_matched (ps : list JSON) (st : Applied) (item : JSON) (i : nat) :
  products st !! i = ps !! i \/ recorded st i ->
  matched ps item = Some i -> recorded (apply_entry ps st item) i.
Proof.
  intros [Hsame|Hrec] Hmatch; [|apply recorded_apply_entry, Hrec].
  unfold apply_entry. rewrite Hmatch. unfold recorded. cbn [products enhanced_names].
  unfold matched in Hmatch.
  destruct (nonempty (get_str item "originalName")) eqn:Horig; [|discriminate].
  apply first_named_Some in Hmatch as [(p & Hp & Hname) _].
  apply nonempty_true in Horig.
  exists (overwrite item p). rewrite list_lookup_alter_eq, Hsame, Hp. split; [reflexivity|].
  destruct (named_is_dict p ltac:(congruence)) as [members ->].
  destruct (overwrite_fields item members) as (-> & _). unfold canonical_name.
  destruct (nonempty (get_str item "enhancedName")) eqn:Hnew.
  - split; [apply nonempty_true, Hnew | apply elem_of_app; right; left].
  - rewrite Hname. split; [exact Horig | apply elem_of_app; right; left].
Qed.

Lemma untouched_or_recorded (ps : list JSON) (st : Applied) (item : JSON) :
  (forall i, products st !! i = ps !! i \/ recorded st i) ->
  forall i, products (apply_entry ps st item) !! i = ps !! i
            \/ recorded (apply_entry ps st item) i.
Proof.
  intros Hinv i. destruct (matched ps item) as [j|] eqn:Hmatch.
  - destruct (decide (j = i)) as [->|Hji].
    + right. apply recorded_matched; [apply Hinv | exact Hmatch].
    + destruct (Hinv i) as [Hsame|Hrec]; [left|right; apply recorded_apply_entry, Hrec].
      unfold apply_entry. rewrite Hmatch. cbn [products].
      rewrite list_lookup_alter_ne by exact Hji. exact Hsame.
  - unfold apply_entry. rewrite Hmatch. apply Hinv.
Qed.

(** Every product an entry of the answer is matched to ends up with a name
    that is on the list. *)
Lemma foldl_apply_entry_recorded (ps rs : list JSON) :
  forall st,
    (forall i, products st !! i = ps !! i \/ recorded st i) ->
    forall item i, item ∈ rs -> matched ps item = Some i ->
      recorded (foldl (apply_entry ps) st rs) i.
Proof.
  induction rs as [|r rs IH]; intros st Hinv item i Hin Hmatch.
  - apply elem_of_nil in Hin as [].
  - cbn [foldl]. apply elem_of_cons in Hin as [->|Hin].
    + clear IH. pose proof (recorded_matched ps st r i (Hinv i) Hmatch) as Hrec.
      generalize dependent (apply_entry ps st r). clear.
      induction rs as [|r' rs IH]; intros st Hrec; [exact Hrec|].
      cbn [foldl]. apply IH, recorded_apply_entry, Hrec.
    + apply (IH _ (untouched_or_recorded ps st r Hinv) item i Hin Hmatch).
Qed.

(** A name written on a line of its own is read back stripped. *)
Lemma stripped_lines_one (n : string) :
  contains_char LF n = false -> contains_char CR n = false ->
  stripped_lines (n +:+ String LF EmptyString)
  = if nonempty (strip n) then [strip n] else [].
Proof.
  intros HLF HCR. unfold stripped_lines, file_lines.
  rewrite universal_newlines_no_CR by (rewrite contains_char_app, HCR; reflexivity).
  rewrite split_keepends_no_LF by exact HLF.
  rewrite fmap_cons, fmap_nil, strip_app_LF.
  destruct (nonempty (strip n)) eqn:Hne.
  - rewrite filter_cons_True by exact Hne. rewrite filter_nil. reflexivity.
  - rewrite filter_cons_False by congruence. rewrite filter_nil. reflexivity.
Qed.

Lemma stripped_lines_write_lines_elem (names : list string) (n : string) :
  n ∈ names -> contains_char LF n = false -> contains_char CR n = false ->
  strip n <> EmptyString ->
  strip n ∈ stripped_lines (write_lines names).
Proof.
  intros Hin HLF HCR Hne. induction names as [|m names IH]; [apply elem_of_nil in Hin as []|].
  cbn [write_lines]. rewrite <- append_assoc.
  rewrite stripped_lines_app by apply terminated_line.
  apply elem_of_app. apply elem_of_cons in Hin as [<-|Hin]; [left|right; apply IH, Hin].
  rewrite stripped_lines_one by assumption.
  rewrite (proj2 (nonempty_true _) Hne). left.
Qed.

Lemma replace_dummy_image_name (names_lower : option (gset string))
    (base_to_url : dict string) (p : JSON) :
  get_str (replace_dummy_image dummy names_lower base_to_url p).1 "name"
  = get_str p "name".
Proof.
  destruct (replace_dummy_image_cases dummy names_lower base_to_url p)
    as [->|(_ & _ & _ & url & _ & _ & ->)]; [reflexivity|].
  apply get_set_str_ne. discriminate.
Qed.

Lemma replace_batch_name (w : World) (ps : list JSON) (names : option (list string))
    (i : nat) (p : JSON) :
  ps !! i = Some p ->
  exists p', (_replace_dummy_images_for_batch dummy w ps names).1 !! i = Some p'
             /\ get_str p' "name" = get_str p "name".
Proof.
  intros Hp. destruct (replace_batch_fmap dummy w ps names) as [->| ->].
  - exists p. auto.
  - rewrite list_lookup_fmap, Hp. eexists. split; [reflexivity|].
    apply replace_dummy_image_name.
Qed.

(** X9.  A product a run has enriched is not eligible for selection when
    the run ends.  Take a run of [main] on a tracker file that is absent or
    ends with a newline, in which a batch is selected and the service
    answers.  Every product that an entry of the answer is matched to ends
    the run, in the saved catalog, with a non-empty name; and unless that
    name contains a line break, the product is not eligible in the world
    the run leaves: its stripped name is empty or among the processed names
    read back from the tracker file. *)
Theorem enriched_product_not_eligible (service : list JSON -> list JSON)
    (input_filename : string) (batch_size : option Z) (w : World)
    (all_products : list JSON) (wrapper_key : option string) (item : JSON) (i : nat) :
  terminated (default EmptyString (processed_items_txt w)) = true ->
  load_products w input_filename = (all_products, wrapper_key) ->
  item ∈ service (_select_next_batch w all_products (default BATCH_SIZE batch_size)) ->
  _select_next_batch w all_products (default BATCH_SIZE batch_size) <> [] ->
  matched all_products item = Some i ->
  let w' := main dummy service input_filename batch_size w in
  exists p,
    (load_products w' input_filename).1 !! i = Some p
    /\ get_str p "name" <> EmptyString
    /\ (contains_char LF (get_str p "name") = false ->
        contains_char CR (get_str p "name") = false ->
        strip (get_str p "name") = EmptyString
        \/ strip (get_str p "name") ∈ read_processed_names w').
Proof.
  intros Hterm Hload Hitem Hbatch Hmatch. unfold main. rewrite Hload.
  destruct all_products as [|p0 ps]; [contradiction Hbatch; reflexivity|].
  destruct (_select_next_batch w (p0 :: ps) _) as [|b batch]; [contradiction|].
  destruct (service (b :: batch)) as [|r results] eqn:Hanswer;
    [apply elem_of_nil in Hitem as []|].
  set (st := _apply_enhancements_to_products (p0 :: ps) (r :: results)).
  set (w2 := append_processed_names (enhanced_names st)
               (write_batch_names (enhanced_names st) w)).
  assert (Hrec : recorded st i).
  { unfold st. rewrite apply_enhancements_entries.
    apply (foldl_apply_entry_recorded (p0 :: ps) (r :: results) (mkApplied (p0 :: ps) 0 [])
             (fun _ => or_introl eq_refl) item i Hitem Hmatch). }
  destruct Hrec as (q & Hq & Hne & Hin).
  destruct (replace_batch_name w2 (products st) (Some (enhanced_names st)) i q Hq)
    as (q' & Hq' & Hname).
  destruct (_replace_dummy_images_for_batch dummy w2 (products st) _) as [ps' k].
  cbn [fst] in Hq'. cbn zeta.
  assert (Hload2 : load_products w2 input_filename = (p0 :: ps, wrapper_key)) by exact Hload.
  destruct (load_after_save w2 input_filename p0 ps wrapper_key ps' Hload2) as (-> & _).
  destruct (save_products_tracker w2 input_filename ps' wrapper_key true) as (Hproc & _).
  exists q'. cbn [fst]. rewrite Hname. split_and!; [exact Hq' | exact Hne |].
  intros HLF HCR.
  destruct (nonempty (strip (get_str q "name"))) eqn:Hstrip;
    [right | left; apply nonempty_false, Hstrip].
  unfold read_processed_names. rewrite Hproc. cbn [w2 append_processed_names processed_items_txt].
  rewrite elem_of_list_to_set, stripped_lines_app by exact Hterm.
  apply elem_of_app. right.
  apply stripped_lines_write_lines_elem; [exact Hin | exact HLF | exact HCR |].
  apply nonempty_true, Hstrip.
Qed.

(** X10.  The processed set only grows: on a tracker file that is absent or
    ends with a newline, a run of [main] keeps every processed name,
    whatever the service answers. *)
Theorem processed_names_grow (service : list JSON -> list JSON)
    (input_filename : string) (batch_size : option Z) (w : World) :
  terminated (default EmptyString (processed_items_txt w)) = true ->
  read_processed_names w
  ⊆ read_processed_names (main dummy service input_filename batch_size w).
Proof.
  intros Hterm. unfold main.
  destruct (load_products w input_filename) as [[|p ps] key]; [reflexivity|].
  destruct (_select_next_batch w (p :: ps) _) as [|b batch].
  - destruct (read_batch_names w) as [|n ns]; [reflexivity|].
    destruct (_replace_dummy_images_for_batch _ _ _ _) as [ps' k].
    destruct (save_products_tracker w input_filename ps' key true) as (Hproc & _).
    unfold read_processed_names. rewrite Hproc. reflexivity.
  - destruct (service (b :: batch)) as [|r results]; [reflexivity|].
    set (st := _apply_enhancements_to_products (p :: ps) (r :: results)).
    set (w2 := append_processed_names (enhanced_names st)
                 (write_batch_names (enhanced_names st) w)).
    destruct (_replace_dummy_images_for_batch _ _ _ _) as [ps' k].
    destruct (save_products_tracker w2 input_filename ps' key true) as (Hproc & _).
    unfold read_processed_names at 2. rewrite Hproc.
    cbn [w2 append_processed_names write_batch_names processed_items_txt].
    rewrite stripped_lines_app by exact Hterm. unfold read_processed_names.
    destruct (processed_items_txt w) as [content|]; cbn [default];
      [|apply empty_subseteq].
    intros n Hn. apply elem_of_list_to_set, elem_of_app. left.
    apply elem_of_list_to_set in Hn. exact Hn.
Qed.

End Progress.

Lemma enriched_product_not_eligible_witness :
  exists p,
    (DescriptionWriter.load_products
       (DescriptionWriter.main EmptyString demo_service "nath_menu.json" (Some 2%Z) demo_world)
       "nath_menu.json").1 !! 1%nat = Some p
    /\ get_str p "name" <> EmptyString
    /\ (PyStr.contains_char PyStr.LF (get_str p "name") = false ->
        PyStr.contains_char PyStr.CR (get_str p "name") = false ->
        PyStr.strip (get_str p "name") = EmptyString
        \/ PyStr.strip (get_str p "name")
           ∈ DescriptionWriter.read_processed_names
               (DescriptionWriter.main EmptyString demo_service "nath_menu.json" (Some 2%Z)
                  demo_world)).
Proof.
  apply (enriched_product_not_eligible EmptyString demo_service "nath_menu.json" (Some 2%Z)
           demo_world demo_products (Some "menu")
           (result_entry "Coke" "Coca-Cola" "Cola soft drink (cold drink, soda)") 1).
  - reflexivity.
  - reflexivity.
  - left.
  - rewrite select_next_batch_take. vm_compute. discriminate.
  - reflexivity.
Defined.

Lemma processed_names_grow_witness :
  DescriptionWriter.read_processed_names demo_world_resumed
  ⊆ DescriptionWriter.read_processed_names
      (DescriptionWriter.main EmptyString demo_service "nath_menu.json" (Some 2%Z)
         demo_world_resumed).
Proof.
  apply (processed_names_grow EmptyString demo_service "nath_menu.json" (Some 2%Z)
           demo_world_resumed).
  reflexivity.
Defined.

Example processed_names_kept :
  elements (DescriptionWriter.read_processed_names demo_world_resumed) = ["Masala Dosa"]
  /\ processed_items_txt
       (DescriptionWriter.main EmptyString demo_service "nath_menu.json" (Some 2%Z)
          demo_world_resumed)
     = Some "Masala Dosa
Coca-Cola
Pantene Smooth & Shine Shampoo
".
Proof. vm_compute. split; reflexivity. Qed.

(** ** The image search and its keys *)

Section SearchRotation.
Import PyStr ImageFetcher.
Local Open Scope Z_scope.

Variable API_KEYS : list string.
Variable CSE_IDS : string.
Variable api : nat -> SearchResponse.

Lemma search_loop_spec (num_images : Z) (remaining : nat) :
  forall s : Session,
    0 <= CURRENT_KEY_INDEX s < Z.of_nat (length API_KEYS) ->
    Z.of_nat (length API_KEYS) - CURRENT_KEY_INDEX s <= Z.of_nat remaining ->
    exists s' image_urls,
      search_loop API_KEYS api num_images remaining s = (s', SearchReturn image_urls)
      /\ CURRENT_KEY_INDEX s <= CURRENT_KEY_INDEX s' <= Z.of_nat (length API_KEYS)
      /\ (requests s < requests s')%nat
      /\ (CURRENT_KEY_INDEX s' = Z.of_nat (length API_KEYS) ->
          image_urls = []
          /\ Z.of_nat (requests s')
             = Z.of_nat (requests s) + (CURRENT_KEY_INDEX s' - CURRENT_KEY_INDEX s))
      /\ (CURRENT_KEY_INDEX s' < Z.of_nat (length API_KEYS) ->
          Z.of_nat (requests s')
          = Z.of_nat (requests s) + (CURRENT_KEY_INDEX s' - CURRENT_KEY_INDEX s) + 1
          /\ exists found,
               api (requests s' - 1) = Found found
               /\ image_urls = slice_to found num_images).
Proof.
  induction remaining as [|remaining IH]; intros s Hindex Hroom; [lia|].
  cbn [search_loop].
  destruct (Z.ltb_spec (CURRENT_KEY_INDEX s) (- Z.of_nat (length API_KEYS))); [lia|].
  destruct (Z.leb_spec (Z.of_nat (length API_KEYS)) (CURRENT_KEY_INDEX s)); [lia|].
  cbn [orb].
  assert (Hfailed :
    exists s' image_urls,
      (if CURRENT_KEY_INDEX s + 1 <? Z.of_nat (length API_KEYS)
       then search_loop API_KEYS api num_images remaining
              (mkSession (CURRENT_KEY_INDEX s + 1) (S (requests s)))
       else (mkSession (CURRENT_KEY_INDEX s + 1) (S (requests s)), SearchReturn []))
      = (s', SearchReturn image_urls)
      /\ CURRENT_KEY_INDEX s <= CURRENT_KEY_INDEX s' <= Z.of_nat (length API_KEYS)
      /\ (requests s < requests s')%nat
      /\ (CURRENT_KEY_INDEX s' = Z.of_nat (length API_KEYS) ->
          image_urls = []
          /\ Z.of_nat (requests s')
             = Z.of_nat (requests s) + (CURRENT_KEY_INDEX s' - CURRENT_KEY_INDEX s))
      /\ (CURRENT_KEY_INDEX s' < Z.of_nat (length API_KEYS) ->
          Z.of_nat (requests s')
          = Z.of_nat (requests s) + (CURRENT_KEY_INDEX s' - CURRENT_KEY_INDEX s) + 1
          /\ exists found,
               api (requests s' - 1) = Found found
               /\ image_urls = slice_to found num_images)).
  { destruct (Z.ltb_spec (CURRENT_KEY_INDEX s + 1) (Z.of_nat (length API_KEYS))) as [Hmore|Hlast].
    - destruct (IH (mkSession (CURRENT_KEY_INDEX s + 1) (S (requests s))))
        as (s' & image_urls & Hrun & Hkey & Hsent & Hout & Hin); cbn; [lia | lia |].
      cbn in Hkey, Hsent, Hout, Hin.
      exists s', image_urls. split_and!; [exact Hrun | lia | lia | lia | |].
      + intros Hend. destruct (Hout Hend) as [-> Hcount]. split; [reflexivity | lia].
      + intros Hleft. destruct (Hin Hleft) as [Hcount Hfound]. split; [lia | exact Hfound].
    - eexists _, _. split; [reflexivity|]. cbn. split_and!; try lia.
      intros _. split; [reflexivity | lia]. }
  destruct (api (requests s)) as [found| | | |] eqn:Hresponse; try exact Hfailed.
  eexists _, _. split; [reflexivity|]. cbn. split_and!; try lia.
  intros _. split; [lia|]. exists found.
  rewrite Nat.sub_0_r. split; [exact Hresponse | reflexivity].
Qed.

Lemma search_loop_past (num_images : Z) (remaining : nat) (s : Session) :
  Z.of_nat (length API_KEYS) <= CURRENT_KEY_INDEX s ->
  search_loop API_KEYS api num_images (S remaining) s = (s, SearchIndexError).
Proof.
  intros Hpast. cbn [search_loop].
  destruct (Z.leb_spec (Z.of_nat (length API_KEYS)) (CURRENT_KEY_INDEX s)); [|lia].
  rewrite orb_true_r. reflexivity.
Qed.

(** X11.  The search uses its keys up for good.  With keys and a search
    engine configured: a call that starts on a valid key returns, sending at
    least one request and one more request per key it abandons; it returns
    the first [num_images] links of the first request that is answered, or,
    when every remaining key has failed, the empty list with the key index
    left one past the last key.  The index never goes back, and a call that
    starts with the index past the last key raises [IndexError] without
    sending a request: after a call that used up the keys, the next call
    raises. *)
Theorem search_key_rotation (product_name : string) (num_images : Z) (s : Session) :
  API_KEYS <> [] -> CSE_IDS <> EmptyString -> 0 <= CURRENT_KEY_INDEX s ->
  let n_keys := Z.of_nat (length API_KEYS) in
  (n_keys <= CURRENT_KEY_INDEX s ->
   search_product_images_api API_KEYS CSE_IDS api product_name num_images s
   = (s, SearchIndexError))
  /\ (CURRENT_KEY_INDEX s < n_keys ->
      exists s' image_urls,
        search_product_images_api API_KEYS CSE_IDS api product_name num_images s
        = (s', SearchReturn image_urls)
        /\ CURRENT_KEY_INDEX s <= CURRENT_KEY_INDEX s' <= n_keys
        /\ (requests s < requests s')%nat
        /\ Z.of_nat (requests s') - Z.of_nat (requests s) <= n_keys - CURRENT_KEY_INDEX s
        /\ (CURRENT_KEY_INDEX s' < n_keys ->
            exists found,
              api (requests s' - 1) = Found found
              /\ image_urls = slice_to found num_images)
        /\ (CURRENT_KEY_INDEX s' = n_keys ->
            image_urls = []
            /\ forall product_name' num_images',
                 search_product_images_api API_KEYS CSE_IDS api product_name' num_images' s'
                 = (s', SearchIndexError))).
Proof.
  intros Hkeys Hcse Hindex n_keys. subst n_keys.
  assert (Hconfigured :
            negb (bool_decide (API_KEYS <> [])) || negb (nonempty CSE_IDS) = false).
  { rewrite bool_decide_eq_true_2 by exact Hkeys.
    rewrite (proj2 (nonempty_true CSE_IDS) Hcse). reflexivity. }
  assert (Hpast : forall (t : Session) name num,
            Z.of_nat (length API_KEYS) <= CURRENT_KEY_INDEX t ->
            search_product_images_api API_KEYS CSE_IDS api name num t = (t, SearchIndexError)).
  { intros t name num Hpast. unfold search_product_images_api. rewrite Hconfigured.
    assert (exists m, length API_KEYS = S m) as [m Hlength]
      by (destruct API_KEYS; [contradiction | eexists; reflexivity]).
    generalize (search_loop_past num m t Hpast). rewrite <- Hlength. auto. }
  split; [apply Hpast|].
  intros Hvalid.
  destruct (search_loop_spec num_images (length API_KEYS) s ltac:(lia) ltac:(lia))
    as (s' & image_urls & Hrun & Hkey & Hsent & Hout & Hin).
  exists s', image_urls.
  split_and!; try lia.
  - unfold search_product_images_api. rewrite Hconfigured. exact Hrun.
  - intros Hleft. apply Hin, Hleft.
  - intros Hend. split; [exact (proj1 (Hout Hend))|].
    intros name num. apply Hpast. lia.
Qed.

End SearchRotation.

Lemma search_key_rotation_witness :
  let api := fun k : nat =>
               if (k <? 2)%nat then ImageFetcher.RateLimitExceeded
               else ImageFetcher.Found ["https://img/1.jpg"; "https://img/2.jpg"] in
  ImageFetcher.search_product_images_api ["key-a"; "key-b"] "engine" api "Coke" 5
    (ImageFetcher.mkSession 0 0)
  = (ImageFetcher.mkSession 2 2, ImageFetcher.SearchReturn [])
  /\ ImageFetcher.search_product_images_api ["key-a"; "key-b"] "engine" api "Pepsi" 5
       (ImageFetcher.mkSession 2 2)
     = (ImageFetcher.mkSession 2 2, ImageFetcher.SearchIndexError).
Proof.
  intros api. split; [reflexivity|].
  apply (search_key_rotation ["key-a"; "key-b"] "engine" api "Pepsi" 5
           (ImageFetcher.mkSession 2 2)); [discriminate | discriminate | cbn; lia | cbn; lia].
Defined.

(** ** The file names of the fetcher *)

Section UniqueFilename.
Import PyStr ImageFetcher.
Local Open Scope Z_scope.

Lemma append_inv_head (s a b : string) : s +:+ a = s +:+ b -> a = b.
Proof.
  induction s as [|c s IH]; [auto|]. rewrite !append_cons. intros [= Heq]. apply IH, Heq.
Qed.

Lemma str_of_Z_inj (n m : Z) : str_of_Z n = str_of_Z m -> n = m.
Proof.
  unfold str_of_Z. intros Heq. apply DecimalZ.to_int_inj.
  assert (Hnorm : forall z, Z.to_int z <> Decimal.Pos Decimal.Nil
                            /\ Z.to_int z <> Decimal.Neg Decimal.Nil).
  { intros [|p|p]; cbn; split; try discriminate; intros [= Hnil];
      apply (DecimalPos.Unsigned.to_uint_nonnil p Hnil). }
  assert (Hsome : Some (Z.to_int n) = Some (Z.to_int m)).
  { rewrite <- (NilZero.isi (Z.to_int n)) by apply Hnorm.
    rewrite <- (NilZero.isi (Z.to_int m)) by apply Hnorm.
    rewrite Heq. reflexivity. }
  injection Hsome as Hsome. exact Hsome.
Qed.

(** The numbered candidate of [save_selected_image]. *)
Lemma candidate_inj (filename_base : string) (j k : Z) :
  filename_base +:+ "_" +:+ str_of_Z j +:+ ".jpg"
  = filename_base +:+ "_" +:+ str_of_Z k +:+ ".jpg" -> j = k.
Proof.
  intros Heq. apply append_inv_head in Heq. injection Heq as Heq.
  rewrite !append_nil_l in Heq. apply str_of_Z_inj.
  assert (Hsplit : forall n, split_first "." (str_of_Z n +:+ ".jpg") = Some (str_of_Z n, "jpg")).
  { intros n. change ".jpg" with (String "." "jpg").
    apply split_first_app, str_of_Z_no; [reflexivity | discriminate]. }
  pose proof (Hsplit j) as Hj. rewrite Heq, Hsplit in Hj. congruence.
Qed.

Lemma candidate_not_plain (filename_base : string) (k : Z) :
  filename_base +:+ "_" +:+ str_of_Z k +:+ ".jpg" <> filename_base +:+ ".jpg".
Proof. intros Heq. apply append_inv_head in Heq. discriminate. Qed.

(** What the loop returns is not in the folder, and every candidate it
    passed over is. *)
Lemma unique_loop_Some (folder : gset string) (filename_base : string) (fuel : nat) :
  forall (filename : string) (counter : Z) (result : string),
    unique_loop fuel folder filename_base filename counter = Some result ->
    (result ∉ folder)
    /\ (result = filename
        \/ filename ∈ folder
           /\ exists k, counter <= k
                /\ result = filename_base +:+ "_" +:+ str_of_Z k +:+ ".jpg"
                /\ forall j, counter <= j < k ->
                     filename_base +:+ "_" +:+ str_of_Z j +:+ ".jpg" ∈ folder).
Proof.
  induction fuel as [|fuel IH]; intros filename counter result; cbn [unique_loop];
    [discriminate|].
  destruct (decide (filename ∈ folder)) as [Hin|Hout].
  - rewrite bool_decide_eq_true_2 by exact Hin. intros Hrun.
    destruct (IH _ _ _ Hrun) as [Hfresh [->|(Hnext & k & Hk & -> & Hbelow)]].
    + split; [exact Hfresh|]. right. split; [exact Hin|].
      exists counter. split_and!; [lia | reflexivity | intros j Hj; lia].
    + split; [exact Hfresh|]. right. split; [exact Hin|].
      exists k. split_and!; [lia | reflexivity |].
      intros j Hj. destruct (Z.eq_dec j counter) as [->|Hne]; [exact Hnext|].
      apply Hbelow. lia.
  - rewrite bool_decide_eq_false_2 by exact Hout. intros [= <-].
    split; [exact Hout | left; reflexivity].
Qed.

(** A loop that runs out of passes has found every candidate taken. *)
Lemma unique_loop_None (folder : gset string) (filename_base : string) (fuel : nat) :
  forall (filename : string) (counter : Z),
    unique_loop fuel folder filename_base filename counter = None ->
    forall j, counter <= j < counter + Z.of_nat fuel - 1 ->
      filename_base +:+ "_" +:+ str_of_Z j +:+ ".jpg" ∈ folder.
Proof.
  induction fuel as [|fuel IH]; intros filename counter; cbn [unique_loop].
  - intros _ j Hj. lia.
  - destruct (decide (filename ∈ folder)) as [Hin|Hout].
    + rewrite bool_decide_eq_true_2 by exact Hin. intros Hrun j Hj.
      destruct fuel as [|fuel']; [lia|].
      destruct (Z.eq_dec j counter) as [->|Hne].
      * cbn [unique_loop] in Hrun.
        destruct (decide (filename_base +:+ "_" +:+ str_of_Z counter +:+ ".jpg" ∈ folder))
          as [Hcand|Hcand]; [exact Hcand|].
        rewrite bool_decide_eq_false_2 in Hrun by exact Hcand. discriminate.
      * apply (IH _ _ Hrun). lia.
    + rewrite bool_decide_eq_false_2 by exact Hout. discriminate.
Qed.

Lemma unique_loop_None_first (folder : gset string) (filename_base : string) (fuel : nat)
    (filename : string) (counter : Z) :
  unique_loop (S fuel) folder filename_base filename counter = None -> filename ∈ folder.
Proof.
  cbn [unique_loop]. destruct (decide (filename ∈ folder)) as [Hin|Hout]; [auto|].
  rewrite bool_decide_eq_false_2 by exact Hout. discriminate.
Qed.

(** More names than the folder holds cannot all be taken. *)
Lemma unique_filename_total (folder : gset string) (filename_base : string) (fuel : nat) :
  (size folder < fuel)%nat ->
  exists filename, unique_filename fuel folder filename_base = Some filename.
Proof.
  intros Hfuel. unfold unique_filename.
  destruct (unique_loop fuel folder filename_base (filename_base +:+ ".jpg") 1)
    as [filename|] eqn:Hrun; [eexists; reflexivity|].
  exfalso. destruct fuel as [|fuel]; [lia|].
  pose proof (unique_loop_None_first _ _ _ _ _ Hrun) as Hplain.
  pose proof (unique_loop_None _ _ _ _ _ Hrun) as Hnumbered.
  set (candidate := fun k : nat =>
         filename_base +:+ "_" +:+ str_of_Z (Z.of_nat k + 1) +:+ ".jpg").
  set (names := (filename_base +:+ ".jpg") :: (candidate <$> seq 0 fuel)).
  assert (Hdup : NoDup names).
  { apply NoDup_cons. split.
    - intros (k & Heq & _)%list_elem_of_fmap. symmetry in Heq.
      apply candidate_not_plain in Heq. exact Heq.
    - apply NoDup_fmap_2; [|apply NoDup_seq].
      intros j k Heq. apply candidate_inj in Heq. lia. }
  assert (Hsub : list_to_set names ⊆ folder).
  { intros name [->|(k & -> & Hk)%list_elem_of_fmap]%elem_of_list_to_set%elem_of_cons;
      [exact Hplain|].
    apply elem_of_seq in Hk. apply Hnumbered. lia. }
  apply subseteq_size in Hsub. rewrite size_list_to_set in Hsub by exact Hdup.
  unfold names in Hsub. cbn [length] in Hsub. rewrite length_fmap, length_seq in Hsub. lia.
Qed.

(** X12.  The file name the fetcher picks for an image is always a new one.
    Given more passes than the folder holds names, the search for a name
    ends, and the name it ends on is not in the folder: it is the clean name
    with the extension [.jpg] or, when that one is taken, the clean name
    with the first free number from 1 on, every smaller number being
    taken. *)
Theorem unique_filename_fresh (folder : gset string) (filename_base : string) (fuel : nat) :
  (size folder < fuel)%nat ->
  exists filename,
    unique_filename fuel folder filename_base = Some filename
    /\ (filename ∉ folder)
    /\ (filename = filename_base +:+ ".jpg"
        \/ filename_base +:+ ".jpg" ∈ folder
           /\ exists k, 1 <= k
                /\ filename = filename_base +:+ "_" +:+ str_of_Z k +:+ ".jpg"
                /\ forall j, 1 <= j < k ->
                     filename_base +:+ "_" +:+ str_of_Z j +:+ ".jpg" ∈ folder).
Proof.
  intros Hfuel. destruct (unique_filename_total folder filename_base fuel Hfuel)
    as [filename Hrun].
  exists filename. split; [exact Hrun|]. apply (unique_loop_Some _ _ _ _ _ _ Hrun).
Qed.

End UniqueFilename.

Lemma unique_filename_fresh_witness :
  exists filename,
    ImageFetcher.unique_filename 3 {["Coke.jpg"; "Coke_1.jpg"]} "Coke" = Some filename
    /\ (filename ∉ ({["Coke.jpg"; "Coke_1.jpg"]} : gset string))
    /\ (filename = "Coke" +:+ ".jpg"
        \/ "Coke" +:+ ".jpg" ∈ ({["Coke.jpg"; "Coke_1.jpg"]} : gset string)
           /\ exists k, (1 <= k)%Z
                /\ filename = "Coke" +:+ "_" +:+ PyStr.str_of_Z k +:+ ".jpg"
                /\ forall j, (1 <= j < k)%Z ->
                     "Coke" +:+ "_" +:+ PyStr.str_of_Z j +:+ ".jpg"
                     ∈ ({["Coke.jpg"; "Coke_1.jpg"]} : gset string)).
Proof.
  apply (unique_filename_fresh {["Coke.jpg"; "Coke_1.jpg"]} "Coke" 3).
  vm_compute. lia.
Defined.

Example unique_filename_example :
  ImageFetcher.unique_filename 3 {["Coke.jpg"; "Coke_1.jpg"]} "Coke" = Some "Coke_2.jpg".
Proof. vm_compute. reflexivity. Qed.

(** ** The fetcher's files in the ledger *)

Section FetcherFiles.
Import PyStr.
Local Open Scope Z_scope.

Lemma all_chars_app (P : ascii -> bool) (s t : string) :
  all_chars P (s +:+ t) = all_chars P s && all_chars P t.
Proof.
  induction s as [|c s IH]; [reflexivity|].
  rewrite append_cons. cbn [all_chars]. rewrite IH, andb_assoc. reflexivity.
Qed.

Lemma all_chars_weaken (P Q : ascii -> bool) (s : string) :
  (forall c, P c = true -> Q c = true) -> all_chars P s = true -> all_chars Q s = true.
Proof.
  intros HPQ. induction s as [|c s IH]; [reflexivity|]. cbn [all_chars].
  intros [Hc Hs]%andb_true_iff. rewrite (HPQ c Hc), (IH Hs). reflexivity.
Qed.

Lemma all_chars_filter (keep : ascii -> bool) (s : string) :
  all_chars keep (filter_chars keep s) = true.
Proof.
  induction s as [|c s IH]; [reflexivity|]. cbn [filter_chars].
  destruct (keep c) eqn:Hc; [|exact IH]. cbn [all_chars]. rewrite Hc, IH. reflexivity.
Qed.

Lemma all_chars_rstrip (P : ascii -> bool) (s : string) :
  all_chars P s = true -> all_chars P (rstrip s) = true.
Proof.
  induction s as [|c s IH]; [reflexivity|]. cbn [all_chars rstrip].
  intros [Hc Hs]%andb_true_iff. specialize (IH Hs).
  destruct (rstrip s) as [|c' r].
  - destruct (isspace c); [reflexivity|]. cbn [all_chars]. rewrite Hc. reflexivity.
  - cbn [all_chars] in *. rewrite Hc, IH. reflexivity.
Qed.

Lemma all_chars_map (P Q : ascii -> bool) (f : ascii -> ascii) (s : string) :
  (forall c, P c = true -> Q (f c) = true) ->
  all_chars P s = true -> all_chars Q (map_chars f s) = true.
Proof.
  intros HPQ. induction s as [|c s IH]; [reflexivity|]. cbn [all_chars map_chars].
  intros [Hc Hs]%andb_true_iff. rewrite (HPQ c Hc), (IH Hs). reflexivity.
Qed.

Lemma all_chars_no (P : ascii -> bool) (x : ascii) (s : string) :
  P x = false -> all_chars P s = true -> contains_char x s = false.
Proof.
  intros Hx. induction s as [|c s IH]; [reflexivity|]. cbn [all_chars contains_char].
  intros [Hc Hs]%andb_true_iff. rewrite (IH Hs), orb_false_r.
  apply Ascii.eqb_neq. intros ->. congruence.
Qed.

Lemma rstrip_no_space (s : string) :
  all_chars (fun c => negb (isspace c)) s = true -> rstrip s = s.
Proof.
  induction s as [|c s IH]; [reflexivity|]. cbn [all_chars rstrip].
  intros [Hc Hs]%andb_true_iff. rewrite (IH Hs). apply negb_true_iff in Hc.
  destruct s; [rewrite Hc|]; reflexivity.
Qed.

Lemma strip_no_space (s : string) :
  all_chars (fun c => negb (isspace c)) s = true -> strip s = s.
Proof.
  intros Hs. unfold strip.
  assert (Hl : lstrip s = s).
  { destruct s as [|c s]; [reflexivity|]. cbn [all_chars] in Hs.
    apply andb_true_iff in Hs as [Hc _]. apply negb_true_iff in Hc.
    cbn [lstrip]. rewrite Hc. reflexivity. }
  rewrite Hl. apply rstrip_no_space, Hs.
Qed.

(** The characters a clean name is made of. *)
Lemma kept_char_clean (c : ascii) :
  ImageFetcher.keep_in_filename c = true ->
  stem_char (if Ascii.eqb c " " then "_"%char else c) = true.
Proof.
  unfold ImageFetcher.keep_in_filename, stem_char.
  destruct (Ascii.eqb c " ") eqn:Hspace; [reflexivity|].
  destruct (isalnum c), (Ascii.eqb c "-"), (Ascii.eqb c "_"); cbn;
    intros Hc; first [reflexivity | discriminate Hc].
Qed.

Lemma filename_char_not_space (c : ascii) :
  filename_char c = true -> negb (isspace c) = true.
Proof.
  destruct c as [[] [] [] [] [] [] [] []]; vm_compute;
    intros Hc; first [reflexivity | discriminate Hc].
Qed.

Lemma clean_name_stem (product_name : string) :
  all_chars stem_char (ImageFetcher.clean_name product_name) = true.
Proof.
  unfold ImageFetcher.clean_name, replace_char.
  apply (all_chars_map ImageFetcher.keep_in_filename); [apply kept_char_clean|].
  apply all_chars_rstrip, all_chars_filter.
Qed.

Lemma stem_filename_char (c : ascii) : stem_char c = true -> filename_char c = true.
Proof. unfold filename_char. intros ->. reflexivity. Qed.

Lemma clean_name_chars (product_name : string) :
  all_chars filename_char (ImageFetcher.clean_name product_name) = true.
Proof. apply (all_chars_weaken stem_char); [apply stem_filename_char | apply clean_name_stem]. Qed.

Lemma string_of_uint_chars (d : Decimal.uint) :
  all_chars filename_char (NilEmpty.string_of_uint d) = true.
Proof. induction d; cbn [NilEmpty.string_of_uint all_chars]; auto. Qed.

Lemma str_of_Z_chars (n : Z) : all_chars filename_char (str_of_Z n) = true.
Proof.
  unfold str_of_Z, NilZero.string_of_int, NilZero.string_of_uint.
  destruct (Z.to_int n) as [d|d]; cbn [all_chars];
    (destruct d; [reflexivity|..]); rewrite ?andb_true_l; apply string_of_uint_chars.
Qed.

Lemma startswith_app_char (s t : string) (a b : ascii) :
  Ascii.eqb a b = false ->
  startswith (s +:+ String b t) (String a EmptyString)
  = startswith s (String a EmptyString).
Proof.
  intros Hab. destruct s as [|c s]; [|rewrite append_cons, !startswith_char; reflexivity].
  rewrite append_nil_l, startswith_char. exact Hab.
Qed.

(** The names [save_selected_image] can pick for a clean name. *)
Lemma picked_filename_chars (filename_base filename : string) (k : Z) :
  all_chars filename_char filename_base = true ->
  filename = filename_base +:+ ".jpg"
  \/ filename = filename_base +:+ "_" +:+ str_of_Z k +:+ ".jpg" ->
  all_chars filename_char filename = true
  /\ filename <> EmptyString
  /\ startswith filename "-" = startswith filename_base "-".
Proof.
  intros Hbase [->| ->].
  - split_and!.
    + rewrite all_chars_app, Hbase. reflexivity.
    + destruct filename_base; discriminate.
    + apply (startswith_app_char filename_base "jpg" "-" "."). reflexivity.
  - split_and!.
    + rewrite !all_chars_app, Hbase, str_of_Z_chars. reflexivity.
    + destruct filename_base; discriminate.
    + apply (startswith_app_char filename_base (str_of_Z k +:+ ".jpg") "-" "_").
      reflexivity.
Qed.

(** A name made of file name characters is a well-formed ledger key,
    unless it starts with a dash. *)
Lemma filename_chars_ledger_ok (filename url : string) :
  all_chars filename_char filename = true -> filename <> EmptyString ->
  startswith filename "-" = false ->
  url <> EmptyString -> strip url = url ->
  contains_char LF url = false -> contains_char CR url = false ->
  ledger_entry_ok (filename, url).
Proof.
  intros Hchars Hne Hdash Hurl Hstrip HLF HCR. unfold ledger_entry_ok.
  split_and!; try assumption.
  - apply strip_no_space. eapply all_chars_weaken; [apply filename_char_not_space | exact Hchars].
  - apply (all_chars_no filename_char); [reflexivity | exact Hchars].
  - destruct filename as [|c t]; [reflexivity|]. rewrite startswith_char.
    cbn [all_chars] in Hchars. apply andb_true_iff in Hchars as [Hc _].
    apply Ascii.eqb_neq. intros <-. discriminate Hc.
  - apply (all_chars_no filename_char); [reflexivity | exact Hchars].
  - apply (all_chars_no filename_char); [reflexivity | exact Hchars].
Qed.

(** A line that starts with a dash is skipped, whatever follows. *)
Lemma parse_dash_line (links : dict string) (filename rest : string) :
  startswith filename "-" = true ->
  DescriptionWriter.parse_link_line links (filename +:+ rest) = links.
Proof.
  intros Hdash. destruct filename as [|c t]; [discriminate|].
  rewrite startswith_char in Hdash. apply Ascii.eqb_eq in Hdash as <-.
  unfold DescriptionWriter.parse_link_line. rewrite append_cons.
  destruct (strip_head "-" (t +:+ rest) eq_refl) as [t' ->].
  rewrite startswith_char. reflexivity.
Qed.

(** X13.  The files of the fetcher, as the ledger takes them.  Let
    [filename] be the name [save_selected_image] picks for a product name
    in some folder, and [url] a non-empty URL without white space around it
    or a line break in it.  If the clean name of the product does not start
    with a dash, the pair is a well-formed ledger entry, and the line the
    uploader writes for it is read back as that entry.  If the clean name
    starts with a dash, the line is skipped like a header: the file never
    reaches the ledger that the description writer reads. *)
Theorem fetcher_file_in_ledger (fuel : nat) (folder : gset string)
    (product_name filename url : string) (links : dict string) :
  ImageFetcher.unique_filename fuel folder (ImageFetcher.clean_name product_name)
  = Some filename ->
  url <> EmptyString -> strip url = url ->
  contains_char LF url = false -> contains_char CR url = false ->
  let line := (filename +:+ "," +:+ url) +:+ ImageUploader.newline in
  if startswith (ImageFetcher.clean_name product_name) "-"
  then DescriptionWriter.parse_link_line links line = links
  else ledger_entry_ok (filename, url)
       /\ DescriptionWriter.parse_link_line links line = dict_set links filename url.
Proof.
  intros Hpick Hurl Hstrip HLF HCR line. subst line.
  destruct (unique_loop_Some _ _ _ _ _ _ Hpick) as [_ Hform].
  assert (Hshape : exists k,
            filename = ImageFetcher.clean_name product_name +:+ ".jpg"
            \/ filename = ImageFetcher.clean_name product_name +:+ "_" +:+ str_of_Z k
                          +:+ ".jpg").
  { destruct Hform as [->|(_ & k & _ & -> & _)]; [exists 0; left | exists k; right];
      reflexivity. }
  destruct Hshape as [k Hshape].
  destruct (picked_filename_chars _ _ k (clean_name_chars product_name) Hshape)
    as (Hchars & Hne & Hdash).
  destruct (startswith (ImageFetcher.clean_name product_name) "-") eqn:Hstart.
  - rewrite append_assoc. apply parse_dash_line. exact Hdash.
  - assert (Hok : ledger_entry_ok (filename, url))
      by (apply filename_chars_ledger_ok; assumption).
    split; [exact Hok|]. apply parse_entry_line, Hok.
Qed.

End FetcherFiles.

Lemma fetcher_file_in_ledger_witness :
  ledger_entry_ok ("Masala_Dosa.jpg", "https://cdn/Masala_Dosa.jpeg")
  /\ DescriptionWriter.parse_link_line []
       (("Masala_Dosa.jpg" +:+ "," +:+ "https://cdn/Masala_Dosa.jpeg")
        +:+ ImageUploader.newline)
     = [("Masala_Dosa.jpg", "https://cdn/Masala_Dosa.jpeg")].
Proof.
  apply (fetcher_file_in_ledger 1 ∅ "Masala Dosa " "Masala_Dosa.jpg"
           "https://cdn/Masala_Dosa.jpeg" []); reflexivity || discriminate.
Defined.

Example dash_file_is_skipped :
  ImageFetcher.unique_filename 1 ∅ (ImageFetcher.clean_name "-50% Combo") = Some "-50_Combo.jpg"
  /\ DescriptionWriter.parse_link_line []
       (("-50_Combo.jpg" +:+ "," +:+ "https://cdn/-50_Combo.jpeg") +:+ ImageUploader.newline)
     = [].
Proof. split; vm_compute; reflexivity. Qed.

(** ** From the fetcher's file to the product's image *)

Section NameJoin.
Import PyStr DescriptionWriter.
Local Open Scope Z_scope.

Lemma rfind_from_absent (c : ascii) (s : string) :
  contains_char c s = false -> forall i last, rfind_from c s i last = last.
Proof.
  induction s as [|a s IH]; [reflexivity|]. cbn [contains_char rfind_from].
  intros [Ha Hs]%orb_false_elim i last. rewrite Ha. apply IH, Hs.
Qed.

Lemma rfind_from_app (c : ascii) (a b : string) :
  forall i last,
    rfind_from c (a +:+ b) i last
    = rfind_from c b (i + len a) (rfind_from c a i last).
Proof.
  induction a as [|x a IH]; intros i last.
  - rewrite append_nil_l. unfold len. cbn. rewrite Z.add_0_r. reflexivity.
  - rewrite append_cons. cbn [rfind_from]. rewrite IH. f_equal. unfold len. cbn [String.length].
    lia.
Qed.

Lemma substring_prefix (a b : string) :
  String.substring 0 (String.length a) (a +:+ b) = a.
Proof.
  induction a as [|c a IH]; [destruct b; reflexivity|].
  rewrite append_cons. cbn [String.length String.substring]. rewrite IH. reflexivity.
Qed.

Lemma substring_suffix (a b : string) :
  String.substring (String.length a) (String.length b) (a +:+ b) = b.
Proof.
  induction a as [|c a IH].
  - rewrite append_nil_l. cbn [String.length].
    induction b as [|c b IH]; [reflexivity|].
    cbn [String.length String.substring]. rewrite IH. reflexivity.
  - rewrite append_cons. cbn [String.length String.substring]. exact IH.
Qed.

Lemma filter_chars_all (keep : ascii -> bool) (s : string) :
  all_chars keep s = true -> filter_chars keep s = s.
Proof.
  induction s as [|c s IH]; [reflexivity|]. cbn [all_chars filter_chars].
  intros [-> Hs]%andb_true_iff. rewrite (IH Hs). reflexivity.
Qed.

Lemma length_append (a b : string) :
  String.length (a +:+ b) = (String.length a + String.length b)%nat.
Proof. induction a as [|c a IH]; [reflexivity|]. rewrite append_cons. cbn. rewrite IH. reflexivity. Qed.

(** The extension [.jpg] comes off a stem of letters, digits, [-] and [_]. *)
Lemma splitext_stem (stem : string) :
  all_chars stem_char stem = true -> stem <> EmptyString ->
  splitext (stem +:+ ".jpg") = (stem, ".jpg").
Proof.
  intros Hchars Hne. unfold splitext.
  assert (Hslash : rfind "/" (stem +:+ ".jpg") = -1).
  { unfold rfind. apply rfind_from_absent. rewrite contains_char_app.
    rewrite (all_chars_no stem_char "/" stem eq_refl Hchars). reflexivity. }
  assert (Hdot : rfind "." (stem +:+ ".jpg") = len stem).
  { unfold rfind. rewrite rfind_from_app.
    rewrite (rfind_from_absent "." stem (all_chars_no stem_char "." stem eq_refl Hchars)).
    cbn. lia. }
  rewrite Hslash, Hdot. unfold slice, len.
  replace (Z.to_nat (-1 + 1)) with 0%nat by reflexivity.
  replace (Z.to_nat 0) with 0%nat by reflexivity.
  replace (Z.to_nat (Z.of_nat (String.length stem) - (-1 + 1))) with (String.length stem)
    by lia.
  replace (Z.to_nat (Z.of_nat (String.length stem) - 0)) with (String.length stem) by lia.
  replace (Z.to_nat (Z.of_nat (String.length stem)))  with (String.length stem) by lia.
  replace (Z.to_nat (Z.of_nat (String.length (stem +:+ ".jpg"))
                     - Z.of_nat (String.length stem)))
    with (String.length ".jpg") by (rewrite length_append; lia).
  rewrite substring_prefix, substring_suffix.
  rewrite filter_chars_all.
  - destruct (Z.ltb_spec (-1) (Z.of_nat (String.length stem))); [|lia].
    destruct stem; [contradiction | reflexivity].
  - eapply all_chars_weaken; [|exact Hchars].
    intros c Hc. apply negb_true_iff, Ascii.eqb_neq. intros ->. discriminate Hc.
Qed.

(** The lookup table, entry by entry. *)
Lemma foldl_rekey_get (links : dict string) (key : string) :
  forall acc : dict string,
    dict_get (foldl (fun d kv => dict_set d (lower (splitext kv.1).1) kv.2) acc links) key
    = match ledger_url links key with
      | Some url => Some url
      | None => dict_get acc key
      end.
Proof.
  induction links as [|[filename url] links IH]; intros acc; [reflexivity|].
  cbn [foldl ledger_url fst snd]. rewrite IH.
  destruct (ledger_url links key) as [later|]; [reflexivity|].
  destruct (String.eqb_spec (lower (splitext filename).1) key) as [->|Hne].
  - apply dict_get_set_eq.
  - apply dict_get_set_ne, Hne.
Qed.

Lemma base_to_url_get (links : dict string) (key : string) :
  dict_get (base_to_url_of links) key = ledger_url links key.
Proof.
  unfold base_to_url_of. rewrite foldl_rekey_get.
  destruct (ledger_url links key); reflexivity.
Qed.

Lemma ledger_url_Some (links : dict string) (key url : string) :
  ledger_url links key = Some url ->
  exists filename, (filename, url) ∈ links /\ lower (splitext filename).1 = key.
Proof.
  induction links as [|[f v] links IH]; cbn [ledger_url]; [discriminate|].
  destruct (ledger_url links key) as [later|].
  - intros [= <-]. destruct (IH eq_refl) as (filename & Hin & Hkey).
    exists filename. split; [right; exact Hin | exact Hkey].
  - destruct (String.eqb_spec (lower (splitext f).1) key) as [Hkey|]; [|discriminate].
    intros [= <-]. exists f. split; [left | exact Hkey].
Qed.

Lemma ledger_url_present (links : dict string) (filename url : string) :
  (filename, url) ∈ links ->
  is_Some (ledger_url links (lower (splitext filename).1)).
Proof.
  induction links as [|[f v] links IH]; [intros []%elem_of_nil|].
  intros [[= <- <-]|Hin]%elem_of_cons; cbn [ledger_url].
  - destruct (ledger_url links _); [eexists; reflexivity|].
    rewrite String.eqb_refl. eexists; reflexivity.
  - destruct (IH Hin) as [later ->]. eexists; reflexivity.
Qed.

Lemma ledger_url_unique (links : dict string) (filename url : string) :
  NoDup ((fun kv => lower (splitext kv.1).1) <$> links) ->
  (filename, url) ∈ links ->
  ledger_url links (lower (splitext filename).1) = Some url.
Proof.
  induction links as [|[f v] links IH]; [intros _ []%elem_of_nil|].
  rewrite fmap_cons. cbn [fst]. intros [Hfresh Hdup]%NoDup_cons.
  intros [[= <- <-]|Hin]%elem_of_cons; cbn [ledger_url].
  - destruct (ledger_url links _) as [later|] eqn:Hlater.
    + exfalso. apply ledger_url_Some in Hlater as (f' & Hin' & Hkey). apply Hfresh.
      apply list_elem_of_fmap. exists (f', later). split; [symmetry; exact Hkey | exact Hin'].
    + rewrite String.eqb_refl. reflexivity.
  - rewrite (IH Hdup Hin). reflexivity.
Qed.

(** The two scripts clean a product name alike, up to the case. *)
Lemma sanitize_is_lower_clean (product_name : string) :
  _sanitize_name_for_filename product_name = lower (ImageFetcher.clean_name product_name).
Proof. reflexivity. Qed.

(** X14.  The image the fetcher saves for a product is the one the
    description writer finds for it.  Let the clean name of a product name
    be non-empty, and let the ledger hold the file the fetcher saves first
    under that name, the clean name with [.jpg].  Then the matcher answers,
    by its first rule, with the URL of a ledger file whose name without the
    extension is the sanitized product name up to the case: the last such
    file of the ledger, which is the fetcher's file itself when no two
    ledger files agree up to the case and the extension. *)
Theorem matcher_finds_fetcher_file (links : dict string) (product_name url0 : string) :
  ImageFetcher.clean_name product_name <> EmptyString ->
  dict_get links (ImageFetcher.clean_name product_name +:+ ".jpg") = Some url0 ->
  exists url filename,
    _match_url_for_name (base_to_url_of links) product_name = Some url
    /\ ledger_url links (_sanitize_name_for_filename product_name) = Some url
    /\ (filename, url) ∈ links
    /\ lower (splitext filename).1 = _sanitize_name_for_filename product_name
    /\ (NoDup ((fun kv => lower (splitext kv.1).1) <$> links) -> url = url0).
Proof.
  intros Hne Hfile. apply dict_get_elem_of in Hfile.
  pose proof (splitext_stem _ (clean_name_stem product_name) Hne) as Hsplit.
  assert (Hkey : lower (splitext (ImageFetcher.clean_name product_name +:+ ".jpg")).1
                 = _sanitize_name_for_filename product_name)
    by (rewrite Hsplit; reflexivity).
  destruct (ledger_url_present links _ _ Hfile) as [url Hurl]. rewrite Hkey in Hurl.
  destruct (ledger_url_Some links _ _ Hurl) as (filename & Hin & Hstem).
  exists url, filename. split_and!; [| exact Hurl | exact Hin | exact Hstem |].
  - unfold _match_url_for_name. cbn [first_present].
    rewrite base_to_url_get, Hurl. reflexivity.
  - intros Hdup. pose proof (ledger_url_unique links _ _ Hdup Hfile) as Hown.
    rewrite Hkey in Hown. congruence.
Qed.

End NameJoin.

Lemma matcher_finds_fetcher_file_witness :
  exists url filename,
    DescriptionWriter._match_url_for_name
      (DescriptionWriter.base_to_url_of
         [("Masala_Dosa.jpg", "https://cdn/Masala_Dosa.jpeg"); ("Idli.jpg", "https://cdn/Idli.jpeg")])
      "Masala Dosa!" = Some url
    /\ ledger_url
         [("Masala_Dosa.jpg", "https://cdn/Masala_Dosa.jpeg"); ("Idli.jpg", "https://cdn/Idli.jpeg")]
         (DescriptionWriter._sanitize_name_for_filename "Masala Dosa!") = Some url
    /\ (filename, url)
       ∈ [("Masala_Dosa.jpg", "https://cdn/Masala_Dosa.jpeg"); ("Idli.jpg", "https://cdn/Idli.jpeg")]
    /\ PyStr.lower (PyStr.splitext filename).1
       = DescriptionWriter._sanitize_name_for_filename "Masala Dosa!"
    /\ (NoDup ((fun kv => PyStr.lower (PyStr.splitext kv.1).1)
                 <$> [("Masala_Dosa.jpg", "https://cdn/Masala_Dosa.jpeg");
                      ("Idli.jpg", "https://cdn/Idli.jpeg")]) ->
        url = "https://cdn/Masala_Dosa.jpeg").
Proof.
  apply (matcher_finds_fetcher_file
           [("Masala_Dosa.jpg", "https://cdn/Masala_Dosa.jpeg"); ("Idli.jpg", "https://cdn/Idli.jpeg")]
           "Masala Dosa!" "https://cdn/Masala_Dosa.jpeg"); [discriminate | reflexivity].
Defined.

(** ** Saving and fetching *)

Section SavingImages.
Context {Image : Type} `{Imaging Image}.
Import PyStr ImageFetcher.
Local Open Scope Z_scope.

Variable image_save : Image -> Z -> string -> SaveAttempt.

Hypothesis lanczos_size :
  forall (image : Image) (w h : Z), image_size (lanczos image w h) = (w, h).

(** X15.  Saving never overwrites a file.  Given passes enough for its two
    loops, [save_selected_image] comes to an end, and the only name it may
    add to the folder is the one it picked, which was not there: it returns
    the path of that file, written; or ["Save failed."], with the file
    written or not; or the compressor raises and the folder is as it was. *)
Theorem save_selected_image_effects (fuel : nat) (image : Image)
    (product_name folder_name : string) (folder : gset string) :
  (size folder < fuel)%nat ->
  (14 * (Z.to_nat (image_size (normalize_mode image)).1 + 1) <= fuel)%nat ->
  exists filename folder' saved,
    unique_filename fuel folder (clean_name product_name) = Some filename
    /\ save_selected_image image_save fuel image product_name folder_name folder
       = Some (folder', saved)
    /\ (filename ∉ folder)
    /\ (saved = SaveRaise /\ folder' = folder
        \/ saved = SaveReturn (folder_name +:+ "/" +:+ filename)
           /\ folder' = folder ∪ {[filename]}
        \/ saved = SaveReturn "Save failed."
           /\ (folder' = folder \/ folder' = folder ∪ {[filename]})).
Proof.
  intros Hnames Hpasses. unfold save_selected_image.
  destruct (unique_filename_total folder (clean_name product_name) fuel Hnames)
    as [filename Hpick].
  destruct (unique_loop_Some _ _ _ _ _ _ Hpick) as [Hfresh _].
  destruct (fetcher_halts lanczos_size (MAX_COMPRESSION_KB * 1024)
              (Z.to_nat (image_size (normalize_mode image)).1) (normalize_mode image) 90
              on_grid_90 ltac:(lia)) as [outcome Hrun].
  exists filename. rewrite Hpick. unfold resize_image_for_size. rewrite (Hrun fuel Hpasses).
  destruct outcome as [exit resized_image quality|].
  - destruct (image_save resized_image quality (folder_name +:+ "/" +:+ filename));
      eexists _, _; (split; [reflexivity|]); (split; [reflexivity|]);
      (split; [exact Hfresh|]); auto.
  - eexists _, _. split_and!; [reflexivity | reflexivity | exact Hfresh | auto].
Qed.

End SavingImages.

Lemma save_selected_image_effects_witness :
  exists filename folder' saved,
    ImageFetcher.unique_filename 1414 {["Coke.jpg"]} (ImageFetcher.clean_name "Coke")
    = Some filename
    /\ @ImageFetcher.save_selected_image _ synthetic_imaging
         (fun _ _ _ => ImageFetcher.SaveCompleted) 1414 (100, 80)%Z "Coke" "product_image"
         {["Coke.jpg"]}
       = Some (folder', saved)
    /\ (filename ∉ ({["Coke.jpg"]} : gset string))
    /\ (saved = ImageFetcher.SaveRaise /\ folder' = {["Coke.jpg"]}
        \/ saved = ImageFetcher.SaveReturn ("product_image" +:+ "/" +:+ filename)
           /\ folder' = {["Coke.jpg"]} ∪ {[filename]}
        \/ saved = ImageFetcher.SaveReturn "Save failed."
           /\ (folder' = {["Coke.jpg"]} \/ folder' = {["Coke.jpg"]} ∪ {[filename]})).
Proof.
  apply (@save_selected_image_effects _ synthetic_imaging
           (fun _ _ _ => ImageFetcher.SaveCompleted) (fun _ _ _ => eq_refl)
           1414 (100, 80)%Z "Coke" "product_image" {["Coke.jpg"]}).
  - vm_compute. lia.
  - vm_compute. lia.
Defined.

Section ExhaustedKeys.
Context {Image : Type} `{Imaging Image}.
Import PyStr ImageFetcher.
Local Open Scope Z_scope.

Variable image_save : Image -> Z -> string -> SaveAttempt.
Variable Score : Type.
Variable score_lt : Score -> Score -> bool.
Variable _score_image : Image -> Score.
Variable API_KEYS : list string.
Variable CSE_IDS : string.
Variable api : nat -> SearchResponse.
Variable download_image : nat -> string -> option Image.
Variable makedirs : bool.

Hypothesis keys_configured : API_KEYS <> [].
Hypothesis engine_configured : CSE_IDS <> EmptyString.

(** Every request fails. *)
Hypothesis no_answer : forall k image_urls, api k <> Found image_urls.

Lemma search_configured (product_name : string) (num_images : Z) (s : Session) :
  search_product_images_api API_KEYS CSE_IDS api product_name num_images s
  = search_loop API_KEYS api num_images (length API_KEYS) s.
Proof.
  unfold search_product_images_api.
  rewrite bool_decide_eq_true_2 by exact keys_configured.
  rewrite (proj2 (nonempty_true CSE_IDS) engine_configured). reflexivity.
Qed.

(** A search on a valid key runs through the keys that are left. *)
Lemma search_runs_out (product_name : string) (num_images : Z) (s : Session) :
  0 <= CURRENT_KEY_INDEX s < Z.of_nat (length API_KEYS) ->
  search_product_images_api API_KEYS CSE_IDS api product_name num_images s
  = (mkSession (Z.of_nat (length API_KEYS))
       (requests s + Z.to_nat (Z.of_nat (length API_KEYS) - CURRENT_KEY_INDEX s)),
     SearchReturn []).
Proof.
  intros Hindex. rewrite search_configured.
  destruct (search_loop_spec API_KEYS api num_images (length API_KEYS) s Hindex ltac:(lia))
    as (s' & image_urls & -> & Hkey & _ & Hout & Hin).
  destruct (Z.eq_dec (CURRENT_KEY_INDEX s') (Z.of_nat (length API_KEYS))) as [Hend|Hleft].
  - destruct (Hout Hend) as [-> Hcount]. destruct s' as [index' sent'].
    cbn [CURRENT_KEY_INDEX requests] in *. subst index'. do 2 f_equal. lia.
  - destruct (Hin ltac:(lia)) as (_ & found & Hfound & _).
    contradiction (no_answer _ _ Hfound).
Qed.

Lemma search_past_keys (product_name : string) (num_images : Z) (s : Session) :
  Z.of_nat (length API_KEYS) <= CURRENT_KEY_INDEX s ->
  search_product_images_api API_KEYS CSE_IDS api product_name num_images s
  = (s, SearchIndexError).
Proof.
  intros Hpast. rewrite search_configured.
  assert (exists m, length API_KEYS = S m) as [m Hlength]
    by (destruct API_KEYS; [contradiction | eexists; reflexivity]).
  generalize (search_loop_past API_KEYS api num_images m s Hpast).
  rewrite <- Hlength. auto.
Qed.

Lemma gather_raises (fuel : nat) (product_name : string) (num_candidates : Z)
    (st : Fetcher) :
  0 <= CURRENT_KEY_INDEX (session st) ->
  gather API_KEYS CSE_IDS api download_image (S (S fuel)) product_name num_candidates 0 st
  = Some (mkFetcher (run_out API_KEYS (session st)) (downloads st) (product_image st), LoopRaise).
Proof.
  intros Hindex. unfold run_out.
  destruct (Z.lt_ge_cases (CURRENT_KEY_INDEX (session st)) (Z.of_nat (length API_KEYS)))
    as [Hvalid|Hpast].
  - cbn [gather]. change (0 <? 3) with true. cbv iota.
    rewrite search_runs_out by lia. change (3 <=? 0 + 1) with false. cbv iota.
    change (0 + 1 <? 3) with true. cbv iota.
    rewrite search_past_keys by (cbn; lia). cbn [downloads product_image].
    rewrite Z.max_l by lia. reflexivity.
  - cbn [gather]. change (0 <? 3) with true. cbv iota.
    rewrite search_past_keys by exact Hpast.
    destruct (session st) as [index sent]. cbn [CURRENT_KEY_INDEX requests] in *.
    rewrite Z.max_r by lia.
    replace (Z.to_nat (Z.of_nat (length API_KEYS) - index)) with 0%nat by lia.
    rewrite Nat.add_0_r. reflexivity.
Qed.

Lemma fetch_raises (fuel : nat) (product_name : string) (num_candidates : Z)
    (session0 : Session) (downloads0 : nat) (folder : gset string) :
  0 <= CURRENT_KEY_INDEX session0 ->
  fetch_and_save_best_image image_save Score score_lt _score_image API_KEYS CSE_IDS api
    download_image makedirs (S (S fuel)) product_name num_candidates
    (mkFetcher session0 downloads0 (Some folder))
  = Some (mkFetcher (run_out API_KEYS session0) downloads0 (Some folder), FetchRaise).
Proof.
  intros Hindex. unfold fetch_and_save_best_image, ensure_product_image_folder.
  cbn [product_image]. rewrite gather_raises by exact Hindex. reflexivity.
Qed.

(** X16.  When the keys run out, the batch run stops.  With keys and a
    search engine configured, the [product_image] folder there or
    [os.makedirs] able to create it, and every request failing, a fetch does
    not come back with a failure to report: its first search runs through
    the keys that are left and finds nothing, its second raises
    [IndexError] (its first, if the keys had run out before).  So [main_cli],
    given a batch file with a name in it, stops at the first name, with
    nothing downloaded and nothing saved. *)
Theorem exhausted_keys_stop_the_run (fuel : nat) (w : World) (st : Fetcher)
    (name : string) (names : list string) :
  0 <= CURRENT_KEY_INDEX (session st) ->
  is_Some (product_image st) \/ makedirs = true ->
  DescriptionWriter.read_batch_names w = name :: names ->
  let st' := mkFetcher (run_out API_KEYS (session st)) (downloads st)
               (Some (default ∅ (product_image st))) in
  (forall product_name num_candidates,
     fetch_and_save_best_image image_save Score score_lt _score_image API_KEYS CSE_IDS api
       download_image makedirs (S (S fuel)) product_name num_candidates st
     = Some (st', FetchRaise))
  /\ main_cli image_save Score score_lt _score_image API_KEYS CSE_IDS api download_image
       makedirs (S (S fuel)) w st
     = Some (st', Stopped).
Proof.
  intros Hindex Hfolder Hnames st'. destruct st as [session0 downloads0 folder0].
  cbn [session downloads product_image] in *.
  assert (Hensure :
            ensure_product_image_folder makedirs (mkFetcher session0 downloads0 folder0)
            = (mkFetcher session0 downloads0 (Some (default ∅ folder0)), Some "product_image")).
  { unfold ensure_product_image_folder. cbn [product_image session downloads].
    destruct folder0 as [folder|]; [reflexivity|].
    destruct Hfolder as [[? [=]]| ->]. reflexivity. }
  assert (Hfetch : forall product_name num_candidates,
            fetch_and_save_best_image image_save Score score_lt _score_image API_KEYS CSE_IDS
              api download_image makedirs (S (S fuel)) product_name num_candidates
              (mkFetcher session0 downloads0 (Some (default ∅ folder0)))
            = Some (st', FetchRaise))
    by (intros; apply fetch_raises; exact Hindex).
  split.
  - intros product_name num_candidates.
    destruct folder0 as [folder|]; [apply Hfetch|].
    unfold fetch_and_save_best_image. rewrite Hensure.
    rewrite gather_raises by exact Hindex. reflexivity.
  - unfold main_cli. rewrite Hensure.
    unfold DescriptionWriter.read_batch_names in Hnames.
    destruct (image_batch_names_txt w) as [content|]; [|discriminate].
    rewrite Hnames. cbn [fetch_names]. rewrite Hfetch. reflexivity.
Qed.

End ExhaustedKeys.

Lemma exhausted_keys_stop_the_run_witness :
  let w := mkWorld ∅ None (Some "Coca-Cola
Sweet Lassi
") None in
  let st := ImageFetcher.mkFetcher (ImageFetcher.mkSession 0 0) 0 None in
  @ImageFetcher.main_cli _ synthetic_imaging (fun _ _ _ => ImageFetcher.SaveCompleted)
    Z Z.ltb (fun image => Z.min image.1 image.2) ["key-a"; "key-b"] "engine"
    (fun _ => ImageFetcher.RateLimitExceeded) (fun _ _ => Some (640, 480)%Z) true 2 w st
  = Some (ImageFetcher.mkFetcher (ImageFetcher.mkSession 2 2) 0 (Some ∅), ImageFetcher.Stopped).
Proof.
  intros w st.
  apply (@exhausted_keys_stop_the_run _ synthetic_imaging
           (fun _ _ _ => ImageFetcher.SaveCompleted) Z Z.ltb (fun image => Z.min image.1 image.2)
           ["key-a"; "key-b"] "engine" (fun _ => ImageFetcher.RateLimitExceeded)
           (fun _ _ => Some (640, 480)%Z) true
           ltac:(discriminate) ltac:(discriminate) ltac:(discriminate)
           0 w st "Coca-Cola" ["Sweet Lassi"]).
  - cbn. lia.
  - right. reflexivity.
  - reflexivity.
Defined.

(** ** The links of an upload *)

Section UploadedLinks.
Import PyStr ImageUploader.

Variable S3_BUCKET_NAME : string.
Variable AWS_REGION : string.
Variable S3_UPLOAD_FOLDER : string.
Variable compresses : string -> bool.
Variable uploads : string -> bool.

Local Notation "'url_of' f" :=
  (s3_url S3_BUCKET_NAME AWS_REGION (S3_UPLOAD_FOLDER +:+ (splitext f).1 +:+ ".jpeg"))
  (at level 10, f at level 9).
Local Notation "'upload_file_'" :=
  (upload_file S3_BUCKET_NAME AWS_REGION S3_UPLOAD_FOLDER compresses uploads).

Lemma foldl_upload_Forall (P : string * string -> Prop) (fs : list string) :
  forall acc,
    Forall P acc ->
    Forall (fun f => compresses f = true -> uploads f = true -> P (f, url_of f)) fs ->
    Forall P (foldl upload_file_ acc fs).
Proof.
  induction fs as [|f fs IH]; intros acc Hacc Hfs; [exact Hacc|].
  apply Forall_cons in Hfs as [Hf Hfs]. cbn [foldl]. apply IH; [|exact Hfs].
  unfold upload_file. destruct (compresses f); [|exact Hacc].
  destruct (uploads f); [|exact Hacc]. apply dict_set_Forall; auto.
Qed.

Lemma foldl_upload_NoDup (fs : list string) :
  forall acc, NoDup (dict_keys acc) -> NoDup (dict_keys (foldl upload_file_ acc fs)).
Proof.
  induction fs as [|f fs IH]; intros acc Hacc; [exact Hacc|].
  cbn [foldl]. apply IH. unfold upload_file.
  destruct (compresses f); [|exact Hacc]. destruct (uploads f); [|exact Hacc].
  apply dict_set_NoDup, Hacc.
Qed.

Lemma upload_file_keeps (acc : dict string) (f k : string) :
  is_Some (dict_get acc k) -> is_Some (dict_get (upload_file_ acc f) k).
Proof.
  intros Hk. unfold upload_file. destruct (compresses f); [|exact Hk].
  destruct (uploads f); [|exact Hk].
  destruct (String.eqb_spec f k) as [->|Hne].
  - rewrite dict_get_set_eq. eexists; reflexivity.
  - rewrite dict_get_set_ne by exact Hne. exact Hk.
Qed.

Lemma foldl_upload_keeps (fs : list string) (k : string) :
  forall acc, is_Some (dict_get acc k) -> is_Some (dict_get (foldl upload_file_ acc fs) k).
Proof.
  induction fs as [|f fs IH]; intros acc Hk; [exact Hk|].
  cbn [foldl]. apply IH, upload_file_keeps, Hk.
Qed.

Lemma foldl_upload_has (fs : list string) (f : string) :
  f ∈ fs -> compresses f = true -> uploads f = true ->
  forall acc, is_Some (dict_get (foldl upload_file_ acc fs) f).
Proof.
  intros Hin Hc Hu. induction fs as [|g fs IH]; [apply elem_of_nil in Hin as []|].
  intros acc. cbn [foldl]. apply elem_of_cons in Hin as [<-|Hin]; [|apply IH, Hin].
  apply foldl_upload_keeps. unfold upload_file. rewrite Hc, Hu, dict_get_set_eq.
  eexists; reflexivity.
Qed.

Lemma contains_char_substring (c : ascii) (s : string) :
  contains_char c s = false ->
  forall i n, contains_char c (String.substring i n s) = false.
Proof.
  induction s as [|a s IH]; intros Hs i n.
  - destruct i, n; reflexivity.
  - cbn [contains_char] in Hs. apply orb_false_elim in Hs as [Ha Hs].
    destruct i as [|i]; [destruct n as [|n]; [reflexivity|]|].
    + cbn [String.substring contains_char]. rewrite Ha, IH by exact Hs. reflexivity.
    + cbn [String.substring]. apply IH, Hs.
Qed.

Lemma splitext_stem_no (c : ascii) (f : string) :
  contains_char c f = false -> contains_char c (splitext f).1 = false.
Proof.
  intros Hf. unfold splitext. destruct (_ && _); cbn [fst]; [|exact Hf].
  apply contains_char_substring, Hf.
Qed.

(** The URL of an upload is a well-formed ledger value. *)
Lemma s3_url_ok (stem : string) :
  (forall c, c = LF \/ c = CR ->
     contains_char c S3_BUCKET_NAME = false /\ contains_char c AWS_REGION = false
     /\ contains_char c S3_UPLOAD_FOLDER = false /\ contains_char c stem = false) ->
  let url := s3_url S3_BUCKET_NAME AWS_REGION (S3_UPLOAD_FOLDER +:+ stem +:+ ".jpeg") in
  url <> EmptyString /\ strip url = url
  /\ contains_char LF url = false /\ contains_char CR url = false.
Proof.
  intros Hclean url. subst url. unfold s3_url.
  assert (Hno : forall c, c = LF \/ c = CR ->
            contains_char c
              ("https://" +:+ S3_BUCKET_NAME +:+ ".s3." +:+ AWS_REGION +:+ ".amazonaws.com/"
               +:+ S3_UPLOAD_FOLDER +:+ stem +:+ ".jpeg") = false).
  { intros c Hc. destruct (Hclean c Hc) as (HB & HR & HF & Hstem).
    rewrite !contains_char_app, HB, HR, HF, Hstem.
    destruct Hc as [-> | ->]; reflexivity. }
  split_and!; [discriminate | | apply Hno; auto | apply Hno; auto].
  unfold strip. rewrite append_cons. cbn [lstrip].
  change (isspace "h") with false. cbv iota. rewrite <- append_cons.
  rewrite <- !append_assoc. apply rstrip_app_fixed; [discriminate | reflexivity].
Qed.

Lemma is_image_file_nonempty (f : string) : is_image_file f = true -> f <> EmptyString.
Proof. intros Hf ->. discriminate Hf. Qed.

(** X17.  What an upload returns.  The dictionary of [upload_folder_images]
    has one entry for each file of the listing that has an image extension,
    was compressed and was uploaded, and no other; the URL of a file is
    made of the bucket, the region, the upload folder and the file name with
    [.jpeg] for its extension, so that files that differ in the extension
    only share their URL.  If bucket, region and folder are free of line
    breaks and the image files bear names of letters, digits, [-], [_] and
    [.] that do not start with a dash, as the fetcher's do, every entry is a
    well-formed ledger entry. *)
Theorem upload_folder_images_links (listing : option (list string)) (links : dict string) :
  upload_folder_images S3_BUCKET_NAME AWS_REGION S3_UPLOAD_FOLDER compresses uploads listing
  = Some links ->
  NoDup (dict_keys links)
  /\ (forall f url, (f, url) ∈ links ->
        (exists names, listing = Some names /\ f ∈ names)
        /\ is_image_file f = true /\ compresses f = true /\ uploads f = true
        /\ url = url_of f)
  /\ (forall names f, listing = Some names -> f ∈ names -> is_image_file f = true ->
        compresses f = true -> uploads f = true -> is_Some (dict_get links f))
  /\ ((forall c, c = LF \/ c = CR ->
         contains_char c S3_BUCKET_NAME = false /\ contains_char c AWS_REGION = false
         /\ contains_char c S3_UPLOAD_FOLDER = false) ->
      (forall names f, listing = Some names -> f ∈ names -> is_image_file f = true ->
         all_chars filename_char f = true /\ startswith f "-" = false) ->
      Forall ledger_entry_ok links).
Proof.
  unfold upload_folder_images. destruct listing as [names|].
  2:{ intros [= <-]. split_and!.
      - constructor.
      - intros f url []%elem_of_nil.
      - intros names f [=].
      - intros _ _. constructor. }
  assert (Hlisted : Forall (fun f => f ∈ names /\ is_image_file f = true)
                      (filter (fun f => is_image_file f = true) names)).
  { apply Forall_forall. intros f [Himg Hin]%list_elem_of_filter. auto. }
  assert (Hfound : forall f, f ∈ names -> is_image_file f = true ->
                     f ∈ filter (fun f => is_image_file f = true) names).
  { intros f Hin Himg. apply list_elem_of_filter. auto. }
  revert Hlisted Hfound.
  generalize (filter (fun f => is_image_file f = true) names). intros fs Hlisted Hfound.
  destruct fs as [|g image_files] eqn:Hshape; [discriminate|]. rewrite <- Hshape in *.
  clear Hshape g image_files. intros [= <-].
  split_and!.
  - apply foldl_upload_NoDup. constructor.
  - intros f url Hin.
    assert (Hall : Forall (fun entry =>
                     (exists names0, Some names = Some names0 /\ entry.1 ∈ names0)
                     /\ is_image_file entry.1 = true /\ compresses entry.1 = true
                     /\ uploads entry.1 = true /\ entry.2 = url_of entry.1)
                     (foldl upload_file_ [] fs)).
    { apply foldl_upload_Forall; [constructor|].
      eapply Forall_impl; [exact Hlisted|]. cbn. intros g [Hg Himg] Hc Hu.
      split_and!; auto. exists names. auto. }
    rewrite Forall_forall in Hall. apply (Hall (f, url) Hin).
  - intros names0 f [= <-] Hin Himg Hc Hu.
    apply foldl_upload_has; [|exact Hc | exact Hu]. apply Hfound; assumption.
  - intros Hconfig Hnames. apply foldl_upload_Forall; [constructor|].
    eapply Forall_impl; [exact Hlisted|]. cbn. intros f [Hin Himg] _ _.
    destruct (Hnames names f eq_refl Hin Himg) as [Hchars Hdash].
    destruct (s3_url_ok (splitext f).1) as (Hurl & Hstrip & HLF & HCR).
    { intros c Hc. destruct (Hconfig c Hc) as (HB & HR & HF). split_and!; auto.
      apply splitext_stem_no, (all_chars_no filename_char); [|exact Hchars].
      destruct Hc as [-> | ->]; reflexivity. }
    apply filename_chars_ledger_ok; auto. apply is_image_file_nonempty, Himg.
Qed.

End UploadedLinks.

Lemma upload_folder_images_links_witness :
  let links := [("Coke.jpg", "https://shop.s3.eu-north-1.amazonaws.com/menu/Coke.jpeg");
                ("Idli.PNG", "https://shop.s3.eu-north-1.amazonaws.com/menu/Idli.jpeg")] in
  NoDup (dict_keys links) /\ Forall ledger_entry_ok links.
Proof.
  intros links.
  destruct (upload_folder_images_links "shop" "eu-north-1" "menu/"
              (fun _ => true) (fun f => negb (String.eqb f "Vada.jpg"))
              (Some ["Coke.jpg"; "notes.txt"; "Vada.jpg"; "Idli.PNG"]) links eq_refl)
    as (Hdup & _ & _ & Hok).
  split; [exact Hdup|]. apply Hok.
  - intros c [-> | ->]; split_and!; reflexivity.
  - intros names f [= <-] Hin _.
    repeat (apply elem_of_cons in Hin as [->|Hin]; [split; reflexivity|]).
    apply elem_of_nil in Hin as [].
Defined.

(** ** From the upload to the catalog *)

Section Publishing.
Import PyStr DescriptionWriter.
Local Open Scope Z_scope.

Variable dummy : string.

Lemma match_first_rule (links : dict string) (name url : string) :
  ledger_url links (_sanitize_name_for_filename name) = Some url ->
  _match_url_for_name (base_to_url_of links) name = Some url.
Proof.
  intros Hurl. unfold _match_url_for_name. cbn [first_present].
  rewrite base_to_url_get, Hurl. reflexivity.
Qed.

(** The ledger holds a URL for the product whose image the fetcher saved. *)
Lemma fetcher_file_ledger_url (links : dict string) (product_name url0 : string) :
  ImageFetcher.clean_name product_name <> EmptyString ->
  dict_get links (ImageFetcher.clean_name product_name +:+ ".jpg") = Some url0 ->
  exists url,
    ledger_url links (_sanitize_name_for_filename product_name) = Some url
    /\ (NoDup ((fun kv => lower (splitext kv.1).1) <$> links) -> url = url0).
Proof.
  intros Hne Hfile. apply dict_get_elem_of in Hfile.
  pose proof (splitext_stem _ (clean_name_stem product_name) Hne) as Hsplit.
  assert (Hkey : lower (splitext (ImageFetcher.clean_name product_name +:+ ".jpg")).1
                 = _sanitize_name_for_filename product_name)
    by (rewrite Hsplit; reflexivity).
  destruct (ledger_url_present links _ _ Hfile) as [url Hurl]. rewrite Hkey in Hurl.
  exists url. split; [exact Hurl|].
  intros Hdup. pose proof (ledger_url_unique links _ _ Hdup Hfile) as Hown.
  rewrite Hkey in Hown. congruence.
Qed.

Lemma get_set_str_eq (p : JSON) (k v : string) :
  (exists members, p = JDict members) -> get_str (set_str p k v) k = v.
Proof. intros [members ->]. cbn. rewrite dict_get_set_eq. reflexivity. Qed.

(** The pass over all products on a product for which the ledger has a
    URL. *)
Lemma replace_dummy_image_all (base_to_url : dict string) (q : JSON) (url : string) :
  strip (get_str q "name") <> EmptyString ->
  _match_url_for_name base_to_url (strip (get_str q "name")) = Some url ->
  url <> EmptyString ->
  (replace_dummy_image dummy None base_to_url q).1
  = if String.eqb (strip (get_str q "image")) dummy then set_str q "image" url else q.
Proof.
  intros Hname Hmatch Hurl. unfold replace_dummy_image.
  rewrite (proj2 (nonempty_true _) Hname), Hmatch, (proj2 (nonempty_true _) Hurl).
  cbn [negb]. destruct (String.eqb (strip (get_str q "image")) dummy); reflexivity.
Qed.

Lemma replace_dummy_image_either (names_lower : option (gset string))
    (base_to_url : dict string) (q : JSON) (url : string) :
  _match_url_for_name base_to_url (strip (get_str q "name")) = Some url ->
  (replace_dummy_image dummy names_lower base_to_url q).1 = q
  \/ (replace_dummy_image dummy names_lower base_to_url q).1 = set_str q "image" url.
Proof.
  intros Hmatch.
  destruct (replace_dummy_image_cases dummy names_lower base_to_url q)
    as [->|(_ & _ & _ & url' & _ & Hmatch' & ->)]; [left; reflexivity|].
  right. cbn [fst]. congruence.
Qed.

(** After the two passes the product bears the URL. *)
Lemma two_passes_give_url (names_lower : option (gset string)) (links : dict string)
    (p : JSON) (url : string) :
  strip (get_str p "image") = dummy ->
  strip (get_str p "name") <> EmptyString ->
  ledger_url links (_sanitize_name_for_filename (strip (get_str p "name"))) = Some url ->
  url <> EmptyString ->
  forall q,
    q = p \/ q = (replace_dummy_image dummy names_lower (base_to_url_of links) p).1 ->
    (replace_dummy_image dummy None (base_to_url_of links) q).1 = set_str p "image" url.
Proof.
  intros Himage Hname Hurl Hne q Hq.
  pose proof (match_first_rule _ _ _ Hurl) as Hmatch.
  assert (Hcases : q = p \/ q = set_str p "image" url).
  { destruct Hq as [->| ->]; [left; reflexivity|].
    apply replace_dummy_image_either, Hmatch. }
  destruct Hcases as [->| ->].
  - rewrite (replace_dummy_image_all _ _ url) by assumption.
    rewrite Himage, String.eqb_refl. reflexivity.
  - rewrite (replace_dummy_image_all _ _ url);
      rewrite ?get_set_str_ne by discriminate; try assumption.
    destruct (String.eqb _ dummy); [apply set_str_set_str_eq | reflexivity].
Qed.

Lemma generate_keeps_files (links : dict string) (batch_size : Z) (w : World) :
  let w' := (ImageUploader.generate_output_batches links batch_size w).1 in
  json_files w' = json_files w
  /\ processed_items_txt w' = processed_items_txt w
  /\ image_batch_names_txt w' = image_batch_names_txt w.
Proof.
  unfold ImageUploader.generate_output_batches.
  destruct (ImageUploader.batch_starts _ _); cbn; auto.
Qed.

(** The pass over the last batch, as a map over the catalog. *)
Lemma last_batch_pass (input_filename : string) (w : World) p0 ps key :
  load_products w input_filename = (p0 :: ps, key) ->
  let w' := replace_images_for_last_batch dummy input_filename w in
  s3_upload_links_txt w' = s3_upload_links_txt w
  /\ exists ps',
       load_products w' input_filename = (ps', key)
       /\ length ps' = length (p0 :: ps)
       /\ forall i q, (p0 :: ps) !! i = Some q ->
            exists q', ps' !! i = Some q'
              /\ (q' = q
                  \/ exists names_lower,
                       q' = (replace_dummy_image dummy names_lower
                               (base_to_url_of (parse_s3_links_file w)) q).1).
Proof.
  intros Hload. unfold replace_images_for_last_batch. rewrite Hload.
  destruct (read_batch_names w) as [|n ns].
  { cbn zeta. split; [reflexivity|]. exists (p0 :: ps).
    split_and!; [exact Hload | reflexivity |]. intros i q Hq. exists q. auto. }
  pose proof (replace_batch_fmap dummy w (p0 :: ps) (Some (n :: ns))) as Hmap.
  pose proof (replace_batch_length dummy w (p0 :: ps) (Some (n :: ns))) as Hlen.
  destruct (_replace_dummy_images_for_batch dummy w (p0 :: ps) (Some (n :: ns))) as [ps' k].
  cbn [fst] in Hmap, Hlen. cbn zeta.
  destruct (load_after_save w input_filename p0 ps key ps' Hload) as (Hload' & _ & Hs3 & _).
  split; [exact Hs3|]. exists ps'. split_and!; [exact Hload' | exact Hlen |].
  intros i q Hq. destruct Hmap as [->| ->].
  - exists q. auto.
  - rewrite list_lookup_fmap, Hq. eexists. split; [reflexivity|]. right. eexists. reflexivity.
Qed.

(** Writing the ledger and running the two replacement passes. *)
Lemma publish_gives_url (input_filename : string) (w : World) (links : dict string)
    p0 ps key (i : nat) (p : JSON) (url : string) :
  Forall ledger_entry_ok links -> NoDup (dict_keys links) -> links <> [] ->
  load_products w input_filename = (p0 :: ps, key) ->
  (p0 :: ps) !! i = Some p ->
  strip (get_str p "image") = dummy ->
  strip (get_str p "name") <> EmptyString ->
  ledger_url links (_sanitize_name_for_filename (strip (get_str p "name"))) = Some url ->
  let w2 := (ImageUploader.generate_output_batches links ImageUploader.BATCH_SIZE w).1 in
  let w4 := replace_images_from_links_all dummy input_filename
              (replace_images_for_last_batch dummy input_filename w2) in
  (load_products w4 input_filename).1 !! i = Some (set_str p "image" url).
Proof.
  intros Hok Hdup Hlinks Hload Hp Himage Hname Hurl w2 w4.
  assert (Hne : url <> EmptyString).
  { apply ledger_url_Some in Hurl as (f & Hin & _).
    rewrite Forall_forall in Hok. destruct (Hok _ Hin) as (_ & Hv & _). exact Hv. }
  assert (Hparse2 : parse_s3_links_file w2 = links).
  { unfold w2. rewrite parse_generated by (exact Hok || reflexivity).
    rewrite foldl_dict_set_NoDup by exact Hdup. reflexivity. }
  destruct (generate_keeps_files links ImageUploader.BATCH_SIZE w) as (Hfiles & _).
  fold w2 in Hfiles.
  assert (Hload2 : load_products w2 input_filename = (p0 :: ps, key))
    by (rewrite (load_products_same_files w w2) by exact Hfiles; exact Hload).
  destruct (last_batch_pass input_filename w2 p0 ps key Hload2)
    as (Hs3 & ps3 & Hload3 & Hlen3 & Hps3).
  set (w3 := replace_images_for_last_batch dummy input_filename w2) in *.
  assert (Hparse3 : parse_s3_links_file w3 = links)
    by (unfold parse_s3_links_file in *; rewrite Hs3; exact Hparse2).
  destruct (Hps3 i p Hp) as (q & Hq & Hq_cases). rewrite Hparse2 in Hq_cases.
  unfold w4, replace_images_from_links_all. rewrite Hload3.
  destruct ps3 as [|q0 qs]; [discriminate|]. rewrite Hparse3.
  destruct links as [|l ls]; [contradiction|].
  pose proof (replace_loop_fmap dummy None (base_to_url_of (l :: ls)) (q0 :: qs)) as Hmap.
  destruct (replace_loop dummy None (base_to_url_of (l :: ls)) (q0 :: qs)) as [ps4 k].
  cbn [fst] in Hmap.
  destruct (load_after_save w3 input_filename q0 qs key ps4 Hload3) as (-> & _).
  cbn [fst]. rewrite Hmap, list_lookup_fmap, Hq. cbn [fmap option_fmap option_map]. f_equal.
  destruct Hq_cases as [->|[names_lower ->]].
  - apply (two_passes_give_url None); auto.
  - apply (two_passes_give_url names_lower); auto.
Qed.

End Publishing.

(** ** The pipeline, end to end *)

Section EndToEnd.
Context {Image : Type} `{Imaging Image}.
Import PyStr DescriptionWriter PipelineRunner.

Variable dummy : string.
Variable service : list JSON -> list JSON.
Variable image_save : Image -> Z -> string -> ImageFetcher.SaveAttempt.
Variable Score : Type.
Variable score_lt : Score -> Score -> bool.
Variable _score_image : Image -> Score.
Variable API_KEYS : list string.
Variable CSE_IDS : string.
Variable api : nat -> ImageFetcher.SearchResponse.
Variable download_image : nat -> string -> option Image.
Variable makedirs : bool.
Variable S3_BUCKET_NAME : string.
Variable AWS_REGION : string.
Variable S3_UPLOAD_FOLDER : string.
Variable compresses : string -> bool.
Variable uploads : string -> bool.
Variable listdir : Site -> option (list string).
Variable removable : string -> bool.
Variable ledger_writable : bool.
Variable file_exists : string -> bool.

Lemma tidy_keeps_catalog (clear_links : bool) (site : Site) (filename : string) :
  load_products (files (tidy_workspace removable ledger_writable clear_links site)) filename
  = load_products (files site) filename.
Proof.
  apply load_products_same_files. unfold tidy_workspace. cbn [files].
  destruct (clear_links && ledger_writable); reflexivity.
Qed.

Lemma upload_folder_images_NoDup (listing : option (list string)) (links : dict string) :
  ImageUploader.upload_folder_images S3_BUCKET_NAME AWS_REGION S3_UPLOAD_FOLDER compresses
    uploads listing = Some links ->
  NoDup (dict_keys links).
Proof.
  unfold ImageUploader.upload_folder_images.
  destruct listing as [names|]; [|intros [= <-]; constructor].
  generalize (filter (fun f => ImageUploader.is_image_file f = true) names).
  intros fs. destruct fs as [|g image_files] eqn:Hshape; [discriminate|].
  rewrite <- Hshape. intros [= <-]. apply foldl_upload_NoDup. constructor.
Qed.

(** X18.  The pipeline does what it is for.  Take a run in which the fetch
    stage does not raise and the upload returns links, all of them
    well-formed ledger entries.  Then the run completes, and every product
    that the enrichment left with the placeholder for its image, and whose
    image the fetcher saved under the clean form of its name and the
    uploader then uploaded, ends the run in the catalog with a URL of the
    upload for its image, everything else about it unchanged: the URL of the
    last uploaded file whose name without the extension is the sanitized
    product name up to the case, which is the URL of the product's own file
    when no two uploaded files agree up to the case and the extension. *)
Theorem pipeline_publishes_images (fuel : nat) (input_json : option string)
    (tidy_before tidy_after clear_links : bool) (site : Site)
    (st : ImageFetcher.Fetcher) (outcome : ImageFetcher.BatchRun) (links : dict string) :
  let input := resolve_input_json file_exists input_json in
  let site0 := if tidy_before
               then tidy_workspace removable ledger_writable clear_links site else site in
  let w := main dummy service input None (files site0) in
  ImageFetcher.main_cli image_save Score score_lt _score_image API_KEYS CSE_IDS api
    download_image makedirs fuel w (images site0) = Some (st, outcome) ->
  outcome <> ImageFetcher.Stopped ->
  ImageUploader.upload_folder_images S3_BUCKET_NAME AWS_REGION S3_UPLOAD_FOLDER compresses
    uploads (listdir (mkSite w st)) = Some links ->
  links <> [] ->
  Forall ledger_entry_ok links ->
  exists site',
    run_pipeline dummy service image_save Score score_lt _score_image API_KEYS CSE_IDS api
      download_image makedirs S3_BUCKET_NAME AWS_REGION S3_UPLOAD_FOLDER compresses uploads
      listdir removable ledger_writable file_exists fuel input_json tidy_before tidy_after
      clear_links site
    = Some (site', Completed)
    /\ forall (i : nat) (p : JSON) (url0 : string),
         (load_products w input).1 !! i = Some p ->
         strip (get_str p "image") = dummy ->
         ImageFetcher.clean_name (strip (get_str p "name")) <> EmptyString ->
         dict_get links (ImageFetcher.clean_name (strip (get_str p "name")) +:+ ".jpg")
         = Some url0 ->
         exists url,
           (load_products (files site') input).1 !! i = Some (set_str p "image" url)
           /\ ledger_url links (_sanitize_name_for_filename (strip (get_str p "name")))
              = Some url
           /\ (NoDup ((fun kv => lower (splitext kv.1).1) <$> links) -> url = url0).
Proof.
  intros input site0 w Hfetch Hrun Hupload Hlinks Hok.
  pose proof (upload_folder_images_NoDup _ _ Hupload) as Hdup.
  unfold run_pipeline. fold input. fold site0. fold w. rewrite Hfetch, Hupload.
  destruct links as [|entry entries]; [contradiction|].
  set (w2 := (ImageUploader.generate_output_batches (entry :: entries)
                ImageUploader.BATCH_SIZE w).1).
  set (w4 := replace_images_from_links_all dummy input
               (replace_images_for_last_batch dummy input w2)).
  set (site' := if tidy_after
                then tidy_workspace removable ledger_writable clear_links (mkSite w4 st)
                else mkSite w4 st).
  exists site'.
  split; [destruct outcome; [reflexivity .. | exfalso; apply Hrun; reflexivity]|].
  intros i p url0 Hp Himage Hclean Hfile.
  assert (Hname : strip (get_str p "name") <> EmptyString)
    by (intros Hempty; rewrite Hempty in Hclean; apply Hclean; reflexivity).
  destruct (fetcher_file_ledger_url _ _ _ Hclean Hfile) as (url & Hurl & Hown).
  exists url. split_and!; [| exact Hurl | exact Hown].
  assert (Hsite : load_products (files site') input = load_products w4 input).
  { unfold site'. destruct tidy_after; [apply tidy_keeps_catalog | reflexivity]. }
  rewrite Hsite.
  destruct (load_products w input) as [[|p0 ps] key] eqn:Hload;
    [cbn in Hp; discriminate|]. cbn [fst] in Hp.
  apply (publish_gives_url dummy input w (entry :: entries) p0 ps key i p url);
    auto; discriminate.
Qed.

End EndToEnd.

Lemma pipeline_publishes_images_witness :
  exists site',
    demo_run_pipeline 20 demo_site = Some (site', PipelineRunner.Completed)
    /\ forall (i : nat) (p : JSON) (url0 : string),
         (DescriptionWriter.load_products demo_enriched "nath_menu.json").1 !! i = Some p ->
         PyStr.strip (get_str p "image") = EmptyString ->
         ImageFetcher.clean_name (PyStr.strip (get_str p "name")) <> EmptyString ->
         dict_get demo_links (ImageFetcher.clean_name (PyStr.strip (get_str p "name")) +:+ ".jpg")
         = Some url0 ->
         exists url,
           (DescriptionWriter.load_products (PipelineRunner.files site') "nath_menu.json").1 !! i
           = Some (set_str p "image" url)
           /\ ledger_url demo_links
                (DescriptionWriter._sanitize_name_for_filename (PyStr.strip (get_str p "name")))
              = Some url
           /\ (NoDup ((fun kv => PyStr.lower (PyStr.splitext kv.1).1) <$> demo_links) ->
               url = url0).
Proof.
  apply (@pipeline_publishes_images _ synthetic_imaging EmptyString demo_service
           (fun _ _ _ => ImageFetcher.SaveCompleted)
           Z Z.ltb (fun image => Z.min image.1 image.2) ["key-a"] "engine"
           (fun _ => ImageFetcher.Found ["https://img/1.jpg"]) (fun _ _ => Some (100, 80)%Z)
           true "shop" "eu-north-1" "menu/" (fun _ => true) (fun _ => true) demo_listdir
           (fun _ => true) true (String.eqb "nath_menu.json") 20 None false false false
           demo_site
           (ImageFetcher.mkFetcher (ImageFetcher.mkSession 0 2) 2
              (Some {["Coca-Cola.jpg"; "Pantene_Smooth__Shine_Shampoo.jpg"]}))
           (ImageFetcher.Done 2 2) demo_links).
  - vm_compute. reflexivity.
  - discriminate.
  - vm_compute. reflexivity.
  - discriminate.
  - repeat constructor; vm_compute; congruence.
Defined.

Example demo_pipeline_catalog :
  (fun run => (DescriptionWriter.load_products (PipelineRunner.files run.1) "nath_menu.json").1)
    <$> demo_run_pipeline 20 demo_site
  = Some [product "Pantene Smooth & Shine Shampoo" ""
            "https://shop.s3.eu-north-1.amazonaws.com/menu/Pantene_Smooth__Shine_Shampoo.jpeg";
          product "Coca-Cola" "Cola soft drink (cold drink, soda)"
            "https://shop.s3.eu-north-1.amazonaws.com/menu/Coca-Cola.jpeg";
          product "Aloo Paratha" "" ""].
Proof. vm_compute. reflexivity. Qed.

(** ** A run that makes no progress *)

Section NoProgress.
Import PyStr DescriptionWriter.

Variable dummy : string.

Lemma foldl_apply_entry_unmatched (ps rs : list JSON) (st : Applied) :
  (forall item, item ∈ rs -> matched ps item = None) ->
  foldl (apply_entry ps) st rs = st.
Proof.
  revert st. induction rs as [|r rs IH]; intros st Hnone; [reflexivity|].
  cbn [foldl]. unfold apply_entry at 2. rewrite (Hnone r) by left.
  apply IH. intros item Hin. apply Hnone. right. exact Hin.
Qed.

Lemma replace_dummy_image_empty_batch (base_to_url : dict string) (p : JSON) :
  replace_dummy_image dummy (Some ∅) base_to_url p = (p, false).
Proof.
  unfold replace_dummy_image.
  destruct (nonempty (strip (get_str p "name"))); [|reflexivity]. cbn [negb].
  rewrite bool_decide_eq_false_2 by apply not_elem_of_empty. reflexivity.
Qed.

Lemma replace_empty_batch (w : World) (ps : list JSON) :
  (_replace_dummy_images_for_batch dummy w ps (Some [])).1 = ps.
Proof.
  destruct (replace_batch_fmap dummy w ps (Some [])) as [->| ->]; [reflexivity|].
  cbn [fmap option_fmap option_map list_fmap list_to_set foldr].
  rewrite <- (list_fmap_id ps) at 2. apply list_fmap_ext.
  intros i p _. rewrite replace_dummy_image_empty_batch. reflexivity.
Qed.

Lemma stripped_lines_empty : stripped_lines EmptyString = [].
Proof. reflexivity. Qed.

(** X19.  An answer that names no product of the catalog.  Take a run of
    [main] in which a batch is selected.  If the service answers with
    nothing, the run writes nothing at all.  If it answers with entries of
    which none is matched to a product, the run makes no progress either:
    the catalog keeps its products, the processed set and the ledger are
    as before, and the next run selects the same batch; but the names file
    of the current batch has been emptied. *)
Theorem unmatched_answer_makes_no_progress (service : list JSON -> list JSON)
    (input_filename : string) (batch_size : option Z) (w : World)
    (all_products : list JSON) (wrapper_key : option string) :
  load_products w input_filename = (all_products, wrapper_key) ->
  _select_next_batch w all_products (default BATCH_SIZE batch_size) <> [] ->
  (forall item,
     item ∈ service (_select_next_batch w all_products (default BATCH_SIZE batch_size)) ->
     matched all_products item = None) ->
  let w' := main dummy service input_filename batch_size w in
  load_products w' input_filename = (all_products, wrapper_key)
  /\ read_processed_names w' = read_processed_names w
  /\ s3_upload_links_txt w' = s3_upload_links_txt w
  /\ _select_next_batch w' all_products (default BATCH_SIZE batch_size)
     = _select_next_batch w all_products (default BATCH_SIZE batch_size)
  /\ (service (_select_next_batch w all_products (default BATCH_SIZE batch_size)) = [] ->
      w' = w)
  /\ (service (_select_next_batch w all_products (default BATCH_SIZE batch_size)) <> [] ->
      image_batch_names_txt w' = Some EmptyString /\ read_batch_names w' = []).
Proof.
  intros Hload Hbatch Hnone w'.
  assert (Hmain :
    load_products w' input_filename = (all_products, wrapper_key)
    /\ read_processed_names w' = read_processed_names w
    /\ s3_upload_links_txt w' = s3_upload_links_txt w
    /\ (service (_select_next_batch w all_products (default BATCH_SIZE batch_size)) = [] ->
        w' = w)
    /\ (service (_select_next_batch w all_products (default BATCH_SIZE batch_size)) <> [] ->
        image_batch_names_txt w' = Some EmptyString /\ read_batch_names w' = [])).
  { subst w'. unfold main. rewrite Hload.
    destruct all_products as [|p0 ps]; [contradiction Hbatch; reflexivity|].
    destruct (_select_next_batch w (p0 :: ps) _) as [|b batch]; [contradiction|].
    destruct (service (b :: batch)) as [|r results] eqn:Hanswer.
    { split_and!; auto. intros Hne. contradiction. }
    assert (Hst : _apply_enhancements_to_products (p0 :: ps) (r :: results)
                  = mkApplied (p0 :: ps) 0 []).
    { rewrite apply_enhancements_entries. apply foldl_apply_entry_unmatched, Hnone. }
    rewrite Hst. cbn [products enhanced_names].
    set (w2 := append_processed_names [] (write_batch_names [] w)).
    pose proof (replace_empty_batch w2 (p0 :: ps)) as Hsame.
    destruct (_replace_dummy_images_for_batch dummy w2 (p0 :: ps) (Some [])) as [ps' k].
    cbn [fst] in Hsame. subst ps'.
    assert (Hload2 : load_products w2 input_filename = (p0 :: ps, wrapper_key)) by exact Hload.
    destruct (load_after_save w2 input_filename p0 ps wrapper_key (p0 :: ps) Hload2)
      as (Hload' & _ & Hs3 & Hnames).
    destruct (save_products_tracker w2 input_filename (p0 :: ps) wrapper_key true)
      as (Hproc & _).
    split_and!.
    - exact Hload'.
    - unfold read_processed_names. rewrite Hproc.
      cbn [w2 append_processed_names write_batch_names processed_items_txt write_lines].
      rewrite append_nil_r. destruct (processed_items_txt w); reflexivity.
    - rewrite Hs3. reflexivity.
    - discriminate.
    - intros _. unfold read_batch_names. rewrite Hnames. split; reflexivity. }
  destruct Hmain as (Hcatalog & Hprocessed & Hledger & Hnothing & Hemptied).
  split_and!; try assumption.
  unfold _select_next_batch. rewrite Hprocessed. reflexivity.
Qed.

End NoProgress.

Lemma unmatched_answer_makes_no_progress_witness :
  let service := fun _ : list JSON => [result_entry "Lassi" "Sweet Lassi" "Yoghurt drink"] in
  let w' := DescriptionWriter.main EmptyString service "nath_menu.json" (Some 2%Z)
              (fresh_world {["nath_menu.json" := demo_catalog]}) in
  DescriptionWriter.load_products w' "nath_menu.json" = (demo_products, Some "menu")
  /\ DescriptionWriter._select_next_batch w' demo_products 2
     = DescriptionWriter._select_next_batch
         (fresh_world {["nath_menu.json" := demo_catalog]}) demo_products 2
  /\ image_batch_names_txt w' = Some EmptyString.
Proof.
  intros service w'.
  destruct (unmatched_answer_makes_no_progress EmptyString service "nath_menu.json"
              (Some 2%Z) (fresh_world {["nath_menu.json" := demo_catalog]})
              demo_products (Some "menu")) as (Hcatalog & _ & _ & Hbatch & _ & Hemptied).
  - reflexivity.
  - rewrite select_next_batch_take. vm_compute. discriminate.
  - intros item Hin. apply list_elem_of_singleton in Hin as ->. reflexivity.
  - split_and!; [exact Hcatalog | exact Hbatch |].
    apply Hemptied. discriminate.
Defined.

(** ** A fetch that finds an image *)

Section FetchSucceeds.
Context {Image : Type} `{Imaging Image}.
Import PyStr ImageFetcher.
Local Open Scope Z_scope.

Variable image_save : Image -> Z -> string -> SaveAttempt.
Variable Score : Type.
Variable score_lt : Score -> Score -> bool.
Variable _score_image : Image -> Score.
Variable API_KEYS : list string.
Variable CSE_IDS : string.
Variable api : nat -> SearchResponse.
Variable download_image : nat -> string -> option Image.
Variable makedirs : bool.

Hypothesis lanczos_size :
  forall (image : Image) (w h : Z), image_size (lanczos image w h) = (w, h).

Lemma max_by_score_elem (rest : list (Image * string)) :
  forall best, max_by_score Score score_lt _score_image best rest ∈ best :: rest.
Proof.
  induction rest as [|t rest IH]; intros best; cbn [max_by_score]; [left|].
  specialize (IH (if score_lt (_score_image best.1) (_score_image t.1) then t else best)).
  apply elem_of_cons in IH as [->|Hin].
  - destruct (score_lt _ _); [right; left | left].
  - right. right. exact Hin.
Qed.

Lemma download_all_elem (image_urls : list string) :
  forall k img url,
    (img, url) ∈ download_all download_image image_urls k ->
    url ∈ image_urls /\ exists j, download_image j url = Some img.
Proof.
  induction image_urls as [|u us IH]; intros k img url; cbn [download_all].
  - intros []%elem_of_nil.
  - destruct (download_image k u) as [image|] eqn:Hdown.
    + intros [[= -> ->]|Hin]%elem_of_cons.
      * split; [left | exists k; exact Hdown].
      * destruct (IH _ _ _ Hin) as [Hurl Hj]. split; [right; exact Hurl | exact Hj].
    + intros Hin. destruct (IH _ _ _ Hin) as [Hurl Hj]. split; [right; exact Hurl | exact Hj].
Qed.

Lemma search_answered (num_images : Z) (remaining : nat) (s : Session) (found : list string) :
  0 <= CURRENT_KEY_INDEX s < Z.of_nat (length API_KEYS) ->
  api (requests s) = Found found ->
  search_loop API_KEYS api num_images (S remaining) s
  = (mkSession (CURRENT_KEY_INDEX s) (S (requests s)), SearchReturn (slice_to found num_images)).
Proof.
  intros Hindex Hfound. cbn [search_loop].
  destruct (Z.ltb_spec (CURRENT_KEY_INDEX s) (- Z.of_nat (length API_KEYS))); [lia|].
  destruct (Z.leb_spec (Z.of_nat (length API_KEYS)) (CURRENT_KEY_INDEX s)); [lia|].
  cbn [orb]. rewrite Hfound. reflexivity.
Qed.

(** X20.  A fetch that finds an image saves one and says so.  With keys
    and a search engine configured, the folder in place, the first request
    answered and at least one of its first [num_candidates] links
    downloaded, [fetch_and_save_best_image] sends that one request, tries
    each of these links once and, given passes enough for the loops of the
    saving, comes to an end on an image it downloaded from one of them: it
    returns [True] with the path of a file that was not in the folder and
    now is; or [True] with ["Save failed."], the file written or not; or
    the compressor raises and the folder is as it was. *)
Theorem fetch_saves_downloaded_image (fuel : nat) (product_name : string)
    (num_candidates : Z) (st : Fetcher) (folder : gset string) (found : list string)
    (first : Image * string) (rest : list (Image * string)) :
  API_KEYS <> [] -> CSE_IDS <> EmptyString ->
  0 <= CURRENT_KEY_INDEX (session st) < Z.of_nat (length API_KEYS) ->
  product_image st = Some folder ->
  api (requests (session st)) = Found found ->
  download_all download_image (slice_to found num_candidates) (downloads st) = first :: rest ->
  let best := max_by_score Score score_lt _score_image first rest in
  (size folder < fuel)%nat ->
  (14 * (Z.to_nat (image_size (normalize_mode best.1)).1 + 1) <= fuel)%nat ->
  exists filename folder' result,
    fetch_and_save_best_image image_save Score score_lt _score_image API_KEYS CSE_IDS api
      download_image makedirs fuel product_name num_candidates st
    = Some (mkFetcher (mkSession (CURRENT_KEY_INDEX (session st)) (S (requests (session st))))
              (downloads st + length (slice_to found num_candidates)) (Some folder'),
            result)
    /\ unique_filename fuel folder (clean_name product_name) = Some filename
    /\ (filename ∉ folder)
    /\ best.2 ∈ slice_to found num_candidates
    /\ (exists j, download_image j best.2 = Some best.1)
    /\ (result = FetchRaise /\ folder' = folder
        \/ result = FetchReturn true ("product_image" +:+ "/" +:+ filename)
           /\ folder' = folder ∪ {[filename]}
        \/ result = FetchReturn true "Save failed."
           /\ (folder' = folder \/ folder' = folder ∪ {[filename]})).
Proof.
  intros Hkeys Hcse Hindex Hfolder Hfound Hdown best Hnames Hpasses.
  destruct (unique_filename_total folder (clean_name product_name) fuel Hnames)
    as [filename Hpick].
  destruct (unique_loop_Some _ _ _ _ _ _ Hpick) as [Hfresh _].
  destruct (fetcher_halts lanczos_size (MAX_COMPRESSION_KB * 1024)
              (Z.to_nat (image_size (normalize_mode best.1)).1) (normalize_mode best.1) 90
              on_grid_90 ltac:(lia)) as [outcome Hrun].
  assert (Hbest : best ∈ download_all download_image (slice_to found num_candidates)
                           (downloads st))
    by (rewrite Hdown; apply max_by_score_elem).
  destruct best as [best_img best_url] eqn:Hbest_eq. cbn [fst snd] in *.
  destruct (download_all_elem _ _ _ _ Hbest) as [Hurl Hgot].
  assert (Hsearch :
    search_product_images_api API_KEYS CSE_IDS api product_name num_candidates (session st)
    = (mkSession (CURRENT_KEY_INDEX (session st)) (S (requests (session st))),
       SearchReturn (slice_to found num_candidates))).
  { unfold search_product_images_api.
    rewrite bool_decide_eq_true_2 by exact Hkeys.
    rewrite (proj2 (nonempty_true CSE_IDS) Hcse). cbn [negb orb].
    destruct (length API_KEYS) as [|m] eqn:Hlength; [cbn in Hindex; lia|].
    rewrite <- Hlength in Hindex. apply search_answered; assumption. }
  exists filename.
  unfold fetch_and_save_best_image, ensure_product_image_folder. rewrite Hfolder.
  destruct fuel as [|fuel']; [lia|]. cbn [gather]. change (0 <? 3) with true. cbv iota.
  rewrite Hsearch.
  destruct (slice_to found num_candidates) as [|u us] eqn:Hslice;
    [apply elem_of_nil in Hurl as []|].
  rewrite Hdown. cbn [product_image session downloads]. rewrite Hfolder.
  fold best. rewrite Hbest_eq. change (default ∅ (Some folder)) with folder.
  unfold save_selected_image. rewrite Hpick.
  unfold resize_image_for_size. rewrite (Hrun (S fuel') Hpasses).
  destruct outcome as [exit resized_image quality|].
  - destruct (image_save resized_image quality ("product_image" +:+ "/" +:+ filename));
      eexists _, _; (split; [reflexivity|]); split_and!; auto.
  - eexists _, _. split; [reflexivity|]. split_and!; auto.
Qed.

End FetchSucceeds.

Lemma fetch_saves_downloaded_image_witness :
  exists filename folder' result,
    @ImageFetcher.fetch_and_save_best_image _ synthetic_imaging
      (fun _ _ _ => ImageFetcher.SaveCompleted) Z Z.ltb (fun image => Z.min image.1 image.2)
      ["key-a"] "engine" (fun _ => ImageFetcher.Found ["https://img/1.jpg"; "https://img/2.jpg"])
      (fun k _ => if (k =? 0)%nat then Some (60, 40)%Z else Some (100, 80)%Z) true
      1414 "Coca-Cola" 5
      (ImageFetcher.mkFetcher (ImageFetcher.mkSession 0 0) 0 (Some {["Coca-Cola.jpg"]}))
    = Some (ImageFetcher.mkFetcher (ImageFetcher.mkSession 0 1) 2 (Some folder'), result)
    /\ ImageFetcher.unique_filename 1414 {["Coca-Cola.jpg"]} (ImageFetcher.clean_name "Coca-Cola")
       = Some filename
    /\ (filename ∉ ({["Coca-Cola.jpg"]} : gset string))
    /\ "https://img/2.jpg" ∈ ["https://img/1.jpg"; "https://img/2.jpg"]
    /\ (exists j, (if (j =? 0)%nat then Some (60, 40)%Z else Some (100, 80)%Z)
                  = Some (100, 80)%Z)
    /\ (result = ImageFetcher.FetchRaise /\ folder' = {["Coca-Cola.jpg"]}
        \/ result = ImageFetcher.FetchReturn true ("product_image" +:+ "/" +:+ filename)
           /\ folder' = {["Coca-Cola.jpg"]} ∪ {[filename]}
        \/ result = ImageFetcher.FetchReturn true "Save failed."
           /\ (folder' = {["Coca-Cola.jpg"]}
               \/ folder' = {["Coca-Cola.jpg"]} ∪ {[filename]})).
Proof.
  apply (@fetch_saves_downloaded_image _ synthetic_imaging
           (fun _ _ _ => ImageFetcher.SaveCompleted) Z Z.ltb (fun image => Z.min image.1 image.2)
           ["key-a"] "engine" (fun _ => ImageFetcher.Found ["https://img/1.jpg"; "https://img/2.jpg"])
           (fun k _ => if (k =? 0)%nat then Some (60, 40)%Z else Some (100, 80)%Z) true
           (fun _ _ _ => eq_refl) 1414 "Coca-Cola" 5
           (ImageFetcher.mkFetcher (ImageFetcher.mkSession 0 0) 0 (Some {["Coca-Cola.jpg"]}))
           {["Coca-Cola.jpg"]} ["https://img/1.jpg"; "https://img/2.jpg"]
           ((60, 40)%Z, "https://img/1.jpg") [((100, 80)%Z, "https://img/2.jpg")]).
  - discriminate.
  - discriminate.
  - cbn. lia.
  - reflexivity.
  - reflexivity.
  - reflexivity.
  - vm_compute. lia.
  - vm_compute. lia.
Defined.

Example fetch_example :
  @ImageFetcher.fetch_and_save_best_image _ synthetic_imaging
    (fun _ _ _ => ImageFetcher.SaveCompleted) Z Z.ltb (fun image => Z.min image.1 image.2)
    ["key-a"] "engine" (fun _ => ImageFetcher.Found ["https://img/1.jpg"; "https://img/2.jpg"])
    (fun k _ => if (k =? 0)%nat then Some (60, 40)%Z else Some (100, 80)%Z) true
    20 "Coca-Cola" 5
    (ImageFetcher.mkFetcher (ImageFetcher.mkSession 0 0) 0 (Some {["Coca-Cola.jpg"]}))
  = Some (ImageFetcher.mkFetcher (ImageFetcher.mkSession 0 1) 2
            (Some {["Coca-Cola.jpg"; "Coca-Cola_1.jpg"]}),
          ImageFetcher.FetchReturn true "product_image/Coca-Cola_1.jpg").
Proof. vm_compute. reflexivity. Qed.

(** ** Passes without links, and the books of the apply step *)

Section WithoutLinks.
Import PyStr DescriptionWriter.
Local Open Scope Z_scope.

Variable dummy : string.

(** Saving in place what was loaded leaves the files as they are. *)
Lemma save_loaded_same (w : World) (filename : string) p0 ps key :
  load_products w filename = (p0 :: ps, key) ->
  (save_products w filename (p0 :: ps) key true).1 = w.
Proof.
  unfold load_products, save_products, write_json.
  destruct (json_files w !! filename) as [[| | | |l|members]|] eqn:Hfile; try discriminate.
  - intros [= <- <-]. cbn [fst]. rewrite insert_id by exact Hfile. destruct w; reflexivity.
  - destruct (find_wrapper members wrapper_keys) as [[l k]|] eqn:Hfind; [|discriminate].
    intros [= <- <-]. destruct (find_wrapper_Some _ _ _ _ Hfind) as [_ Hget].
    cbn [fst]. rewrite (dict_set_same _ _ _ Hget), insert_id by exact Hfile.
    destruct w; reflexivity.
Qed.

(** X21.  Without links nothing is replaced.  When the ledger is missing,
    empty or holds no entry line, as after a tidy step that clears it, the
    two replacement entry points leave every file as it is, JSON value for
    JSON value, and the replacement pass reports zero replacements. *)
Theorem no_links_no_replacement (input_filename : string) (w : World)
    (all_products : list JSON) (batch_names : option (list string)) :
  parse_s3_links_file w = [] ->
  replace_images_for_last_batch dummy input_filename w = w
  /\ replace_images_from_links_all dummy input_filename w = w
  /\ _replace_dummy_images_for_batch dummy w all_products batch_names = (all_products, 0).
Proof.
  intros Hlinks.
  assert (Hpass : forall ps names,
            _replace_dummy_images_for_batch dummy w ps names = (ps, 0))
    by (intros; unfold _replace_dummy_images_for_batch; rewrite Hlinks; reflexivity).
  split_and!; [| | apply Hpass].
  - unfold replace_images_for_last_batch.
    destruct (load_products w input_filename) as [[|p0 ps] key] eqn:Hload; [reflexivity|].
    destruct (read_batch_names w) as [|n ns]; [reflexivity|].
    rewrite Hpass. apply save_loaded_same, Hload.
  - unfold replace_images_from_links_all.
    destruct (load_products w input_filename) as [[|p0 ps] key]; [reflexivity|].
    rewrite Hlinks. reflexivity.
Qed.

Lemma foldl_apply_entry_books (ps rs : list JSON) :
  forall st,
    updated st = Z.of_nat (length (enhanced_names st)) ->
    Forall (fun n => n <> EmptyString) (enhanced_names st) ->
    let st' := foldl (apply_entry ps) st rs in
    updated st' = Z.of_nat (length (enhanced_names st'))
    /\ Forall (fun n => n <> EmptyString) (enhanced_names st')
    /\ updated st' <= updated st + Z.of_nat (length rs).
Proof.
  induction rs as [|r rs IH]; intros st Hcount Hnames; cbn [foldl length].
  - split_and!; [exact Hcount | exact Hnames | lia].
  - destruct (IH (apply_entry ps st r)) as (Hcount' & Hnames' & Hbound).
    + unfold apply_entry. destruct (matched ps r); [|exact Hcount].
      cbn [updated enhanced_names]. rewrite length_app. cbn [length]. lia.
    + unfold apply_entry. destruct (matched ps r) eqn:Hmatch; [|exact Hnames].
      cbn [enhanced_names]. apply Forall_app. split; [exact Hnames|].
      repeat constructor. unfold canonical_name, matched in *.
      destruct (nonempty (get_str r "enhancedName")) eqn:Hnew; [apply nonempty_true, Hnew|].
      destruct (nonempty (get_str r "originalName")) eqn:Horig; [|discriminate].
      apply nonempty_true, Horig.
    + split_and!; [exact Hcount' | exact Hnames' |].
      assert (updated (apply_entry ps st r) <= updated st + 1)
        by (unfold apply_entry; destruct (matched ps r); cbn [updated]; lia).
      lia.
Qed.

(** X22.  The books of the apply step.  The count that
    [_apply_enhancements_to_products] returns is the number of names it
    returns, at most the number of entries of the answer; no name it returns
    is empty; and it returns as many products as it was given. *)
Theorem apply_enhancements_books (all_products processed_results : list JSON) :
  let st := _apply_enhancements_to_products all_products processed_results in
  updated st = Z.of_nat (length (enhanced_names st))
  /\ 0 <= updated st <= Z.of_nat (length processed_results)
  /\ Forall (fun n => n <> EmptyString) (enhanced_names st)
  /\ length (products st) = length all_products.
Proof.
  intros st. subst st. rewrite apply_enhancements_entries.
  destruct (foldl_apply_entry_books all_products processed_results
              (mkApplied all_products 0 []) eq_refl ltac:(constructor))
    as (Hcount & Hnames & Hbound).
  cbn [updated] in Hbound.
  split_and!; [exact Hcount | lia | lia | exact Hnames |].
  apply foldl_apply_entry_length.
Qed.

End WithoutLinks.

Lemma no_links_no_replacement_witness :
  let w := mkWorld {["nath_menu.json" := demo_catalog]} None (Some "Coke
") (Some "--- S3 Upload Links Batch Output ---

") in
  DescriptionWriter.replace_images_for_last_batch EmptyString "nath_menu.json" w = w.
Proof.
  intros w.
  apply (no_links_no_replacement EmptyString "nath_menu.json" w [] None). reflexivity.
Defined.
